(** * customers-table: the pagination hook, its URL codec and the mock endpoint

    A shallow embedding of [src/hooks/usePaginatedTable.ts] and
    [src/pages/api/customers.ts], with the properties the specification
    states about them.

    Conventions of the embedding.
    - A JavaScript number is a [num]: [NaN] or an integer [Int z].  The
      arithmetic, [String] and [parseInt] below are those of the integers;
      they are the ones of the code on the safe integers, up to
      [Number.MAX_SAFE_INTEGER] in absolute value; where a property needs
      that bound to hold of the code, the bound is a hypothesis.
      Fractions, infinities and the rounding of doubles are not modelled.
    - A JavaScript string is a [string]; its characters are read as code
      units below 256 (Latin-1).
    - A plain object used as a dictionary ([Filters], [req.query]) is a
      finite map [gmap string _] of its own enumerable properties.  Of the
      prototype chain the code meets one thing, the accessor [__proto__]
      of [Object.prototype], when it assigns to a computed key: see
      [Js.assign].
    - [URLSearchParams] is the ordered list of its name/value pairs; the
      percent-encoding of its serialised form is not modelled.
    - The handlers of one promise chain ([then], [catch], [finally]) run
      back to back: no [refresh] comes between them, so they read the same
      value of the request counter. *)

From Stdlib Require Import ZArith QArith Lia Lqa Ascii String Sorted.
From Stdlib Require Import DecimalString DecimalZ DecimalPos.
From stdpp Require Import base gmap strings list.

Local Open Scope Z_scope.

(** ** JavaScript primitives used by the sources *)

Module Js.

(** A number: [NaN] or an integer. *)
Inductive num : Type :=
| NaN
| Int (z : Z).

#[global] Instance num_eq_dec : EqDecision num.
Proof. solve_decision. Defined.

(** Truthiness of a number ([NaN] and [0] are falsy) and of a string (the
    empty string is falsy). *)
Definition truthy_num (n : num) : bool :=
  match n with
  | NaN => false
  | Int z => negb (z =? 0)
  end.

Definition truthy (s : string) : bool :=
  match s with
  | EmptyString => false
  | String _ _ => true
  end.

(** [a || b] on numbers, and on a string that may be [null]. *)
Definition or_num (a b : num) : num := if truthy_num a then a else b.

Definition or_string (a : option string) (b : string) : string :=
  match a with
  | Some s => if truthy s then s else b
  | None => b
  end.

(** [Number.MAX_SAFE_INTEGER].  Up to it, in absolute value, a double
    holds every integer, and [String], [parseInt] and the arithmetic of the
    code are exact. *)
Definition MAX_SAFE_INTEGER : Z := 2 ^ 53 - 1.

Definition safe (z : Z) : Prop := - MAX_SAFE_INTEGER <= z <= MAX_SAFE_INTEGER.

Definition safe_num (n : num) : Prop :=
  match n with
  | NaN => True
  | Int z => safe z
  end.

(** Arithmetic, with [NaN] absorbing. *)
Definition lift2 (f : Z -> Z -> Z) (a b : num) : num :=
  match a, b with
  | Int x, Int y => Int (f x y)
  | _, _ => NaN
  end.

Definition sub : num -> num -> num := lift2 Z.sub.
Definition mul : num -> num -> num := lift2 Z.mul.
Definition plus : num -> num -> num := lift2 Z.add.

(** [Math.max(a, b)] and [Math.min(a, b)]: [NaN] as soon as an argument is. *)
Definition Math_max : num -> num -> num := lift2 Z.max.
Definition Math_min : num -> num -> num := lift2 Z.min.

(** [String(n)]: the decimal numeral of an integer (of a safe integer:
    from [1e21] on [String] prints an exponent). *)
Definition String_of_num (n : num) : string :=
  match n with
  | NaN => "NaN"
  | Int z => NilZero.string_of_int (Z.to_int z)
  end.

(** The value of a decimal numeral read from the left, [a] being the value
    of the digits already read (used to relate [String] and [parseInt]). *)
Fixpoint uint_acc (d : Decimal.uint) (a : Z) : Z :=
  match d with
  | Decimal.Nil => a
  | Decimal.D0 d => uint_acc d (a * 10 + 0)
  | Decimal.D1 d => uint_acc d (a * 10 + 1)
  | Decimal.D2 d => uint_acc d (a * 10 + 2)
  | Decimal.D3 d => uint_acc d (a * 10 + 3)
  | Decimal.D4 d => uint_acc d (a * 10 + 4)
  | Decimal.D5 d => uint_acc d (a * 10 + 5)
  | Decimal.D6 d => uint_acc d (a * 10 + 6)
  | Decimal.D7 d => uint_acc d (a * 10 + 7)
  | Decimal.D8 d => uint_acc d (a * 10 + 8)
  | Decimal.D9 d => uint_acc d (a * 10 + 9)
  end.

Definition code (c : ascii) : Z := Z.of_N (N_of_ascii c).

(** White space and line terminators, as [parseInt] skips them. *)
Definition is_white_space (c : ascii) : bool :=
  let n := code c in
  ((9 <=? n) && (n <=? 13)) || (n =? 32) || (n =? 160).

(** The line terminators, which [.] of a regular expression refuses. *)
Definition is_line_terminator (c : ascii) : bool :=
  let n := code c in (n =? 10) || (n =? 13).

Fixpoint trim_start (s : string) : string :=
  match s with
  | EmptyString => EmptyString
  | String c r => if is_white_space c then trim_start r else s
  end.

(** The value of a character as a digit: [0-9], then [a-z] or [A-Z] for
    ten and above. *)
Definition digit_value (c : ascii) : option Z :=
  let n := code c in
  if (48 <=? n) && (n <=? 57) then Some (n - 48)
  else if (97 <=? n) && (n <=? 122) then Some (n - 87)
  else if (65 <=? n) && (n <=? 90) then Some (n - 55)
  else None.

(** The value of the longest prefix of [s] made of digits of radix [R];
    [acc] is [None] as long as no digit was read. *)
Fixpoint parse_digits (R : Z) (s : string) (acc : option Z) : option Z :=
  match s with
  | EmptyString => acc
  | String c r =>
      match digit_value c with
      | Some d =>
          if d <? R then parse_digits R r (Some (default 0 acc * R + d))
          else acc
      | None => acc
      end
  end.

Definition strip_sign (s : string) : Z * string :=
  match s with
  | String "-" r => (-1, r)
  | String "+" r => (1, r)
  | _ => (1, s)
  end.

Definition strip_hex_prefix (s : string) : option string :=
  match s with
  | String "0" (String "x" r) => Some r
  | String "0" (String "X" r) => Some r
  | _ => None
  end.

(** [parseInt(s, radix)]; [radix = None] is a call without radix.  The
    result is the integer that the digits denote, which is the result of
    the code when it is a safe integer (a longer numeral is rounded to a
    double there, or reads as [Infinity]). *)
Definition parseInt (s : string) (radix : option Z) : num :=
  let '(sign, s) := strip_sign (trim_start s) in
  let R := default 0 radix in
  if negb (R =? 0) && ((R <? 2) || (36 <? R)) then NaN
  else
    let stripPrefix := (R =? 0) || (R =? 16) in
    let R := if R =? 0 then 10 else R in
    let '(R, s) :=
      match (if stripPrefix then strip_hex_prefix s else None) with
      | Some r => (16, r)
      | None => (R, s)
      end in
    match parse_digits R s None with
    | None => NaN
    | Some n => Int (sign * n)
    end.

(** [s.toLowerCase()] on Latin-1: [A-Z], [À-Ö] and [Ø-Þ] move up by 32. *)
Definition lower_char (c : ascii) : ascii :=
  let n := code c in
  if ((65 <=? n) && (n <=? 90)) || ((192 <=? n) && (n <=? 214))
     || ((216 <=? n) && (n <=? 222))
  then ascii_of_N (Z.to_N (n + 32))
  else c.

Fixpoint toLowerCase (s : string) : string :=
  match s with
  | EmptyString => EmptyString
  | String c r => String (lower_char c) (toLowerCase r)
  end.

(** [s.includes(q)] *)
Fixpoint includes (s q : string) : bool :=
  String.prefix q s ||
  match s with
  | EmptyString => false
  | String _ r => includes r q
  end.

(** [s.split(sep)] for a one-character separator: the first piece and the
    pieces after it (the result of [split] is never empty). *)
Fixpoint split (sep : ascii) (s : string) : string * list string :=
  match s with
  | EmptyString => (EmptyString, [])
  | String c r =>
      let '(h, t) := split sep r in
      if Ascii.eqb c sep then (EmptyString, h :: t) else (String c h, t)
  end.

(** Does [c] occur in [s]? *)
Fixpoint occurs (c : ascii) (s : string) : bool :=
  match s with
  | EmptyString => false
  | String d r => Ascii.eqb d c || occurs c r
  end.

Fixpoint strip_prefix (pre s : string) : option string :=
  match pre, s with
  | EmptyString, _ => Some s
  | String a pre', String b s' =>
      if Ascii.eqb a b then strip_prefix pre' s' else None
  | String _ _, EmptyString => None
  end.

(** [s] without its last character, when that character is [c]. *)
Fixpoint strip_last (c : ascii) (s : string) : option string :=
  match s with
  | EmptyString => None
  | String a EmptyString => if Ascii.eqb a c then Some EmptyString else None
  | String a r => option_map (String a) (strip_last c r)
  end.

Fixpoint no_line_terminator (s : string) : bool :=
  match s with
  | EmptyString => true
  | String c r => negb (is_line_terminator c) && no_line_terminator r
  end.

(** [key.match(/^filters\[(.+)\]$/)], giving the group [m[1]]: the key is
    [filters[], a non-empty run of characters that are not line
    terminators, then a closing bracket at the very end. *)
Definition match_filters (k : string) : option string :=
  match strip_prefix "filters[" k with
  | Some rest =>
      match strip_last "]" rest with
      | Some m => if truthy m && no_line_terminator m then Some m else None
      | None => None
      end
  | None => None
  end.

(** The key [`filters[${k}]`]. *)
Definition filter_name (k : string) : string :=
  String.append "filters[" (String.append k "]").

(** [o[k] = v] for a string [v], on a plain object [o].  The key
    [__proto__] names the accessor of [Object.prototype], whose setter
    ignores a value that is not an object: nothing is stored, unless [o]
    has a property of that name of its own, which is then written. *)
Definition assign {V} (k : string) (v : V) (o : gmap string V) : gmap string V :=
  if String.eqb k "__proto__" && negb (bool_decide (is_Some (o !! k)))
  then o
  else <[k := v]> o.

(** [l.slice(start, end)]: a [NaN] bound reads as 0, a negative one counts
    from the end, and both are clamped to the length. *)
Definition to_integer (n : num) : Z :=
  match n with
  | NaN => 0
  | Int z => z
  end.

Definition relative_index (len k : Z) : Z :=
  if k <? 0 then Z.max (len + k) 0 else Z.min k len.

Definition Array_slice {A} (l : list A) (start end_ : num) : list A :=
  let len := Z.of_nat (length l) in
  let k := relative_index len (to_integer start) in
  let final := relative_index len (to_integer end_) in
  take (Z.to_nat (final - k)) (drop (Z.to_nat k) l).

(** [l.sort(cmp)]: the stable sort, as insertion from the right. *)
Fixpoint sort_insert {A} (cmp : A -> A -> Z) (x : A) (l : list A) : list A :=
  match l with
  | [] => [x]
  | y :: r => if cmp x y <=? 0 then x :: l else y :: sort_insert cmp x r
  end.

Fixpoint Array_sort {A} (cmp : A -> A -> Z) (l : list A) : list A :=
  match l with
  | [] => []
  | x :: r => sort_insert cmp x (Array_sort cmp r)
  end.

End Js.

(** ** [URLSearchParams] *)

Module Url.

Definition URLSearchParams : Type := list (string * string).

(** [p.get(name)]: the value of the first pair named [name], or [null]. *)
Fixpoint get (name : string) (p : URLSearchParams) : option string :=
  match p with
  | [] => None
  | (n, v) :: r => if String.eqb n name then Some v else get name r
  end.

Definition remove_all (name : string) (p : URLSearchParams) : URLSearchParams :=
  List.filter (fun nv => negb (String.eqb (fst nv) name)) p.

(** [p.set(name, value)]: the first pair named [name] takes [value] and the
    other pairs of that name go; without such a pair, one is appended. *)
Fixpoint set (name value : string) (p : URLSearchParams) : URLSearchParams :=
  match p with
  | [] => [(name, value)]
  | (n, v) :: r =>
      if String.eqb n name then (name, value) :: remove_all name r
      else (n, v) :: set name value r
  end.

End Url.

(** ** Table state, setters and the query-parameter codec *)

Module Table.
Import Js Url.

(** A filter value is [unknown] in the source; these are the primitive
    values the code tells apart. *)
Inductive value : Type :=
| VUndefined
| VNull
| VBool (b : bool)
| VNum (n : num)
| VStr (s : string).

#[global] Instance value_eq_dec : EqDecision value.
Proof. solve_decision. Defined.

(** [{ key: string; dir: 'asc' | 'desc' }]; at run time [dir] is whatever
    string the URL carried. *)
Record SortSpec : Type := mkSort { key : string; dir : string }.

(** [Sort]: a [SortSpec] or [null]. *)
Definition Sort : Type := option SortSpec.

Record State : Type := mkState {
  page : num;
  pageSize : num;
  query : string;
  sort : Sort;
  filters : gmap string value
}.

(** *** The state setters of the hook *)

Definition setPage (n : num) (s : State) : State :=
  mkState n (pageSize s) (query s) (sort s) (filters s).

Definition setPageSize (n : num) (s : State) : State :=
  mkState (page s) n (query s) (sort s) (filters s).

Definition setQueryState (q : string) (s : State) : State :=
  mkState (page s) (pageSize s) q (sort s) (filters s).

Definition setSort (so : Sort) (s : State) : State :=
  mkState (page s) (pageSize s) (query s) so (filters s).

(** [setFilters(f)] with an updater function [f], as React applies it. *)
Definition setFilters (f : gmap string value -> gmap string value)
    (s : State) : State :=
  mkState (page s) (pageSize s) (query s) (sort s) (f (filters s)).

(** [setQuery = q => { setQueryState(q); setPage(1) }] *)
Definition setQuery (q : string) (s : State) : State :=
  setPage (Int 1) (setQueryState q s).

(** [setFilter = (k, v) => { setFilters(f => ({ ...f, [k]: v })); setPage(1) }] *)
Definition setFilter (k : string) (v : value) (s : State) : State :=
  setPage (Int 1) (setFilters (fun f => <[k := v]> f) s).

(** [clearFilters = () => { setFilters({}); setPage(1) }] *)
Definition clearFilters (s : State) : State :=
  setPage (Int 1) (setFilters (fun _ => ∅) s).

(** *** Encoding: [defaultParams] *)

(** [String(v)] *)
Definition String_of_value (v : value) : string :=
  match v with
  | VUndefined => "undefined"
  | VNull => "null"
  | VBool true => "true"
  | VBool false => "false"
  | VNum n => String_of_num n
  | VStr s => s
  end.

(** [v != null && v !== ''] *)
Definition encodable (v : value) : bool :=
  match v with
  | VUndefined | VNull => false
  | VStr s => truthy s
  | _ => true
  end.

(** The body of the [forEach] over [Object.entries(s.filters)]. *)
Definition encode_filter (p : URLSearchParams) (kv : string * value)
    : URLSearchParams :=
  if encodable (snd kv)
  then set (filter_name (fst kv)) (String_of_value (snd kv)) p
  else p.

(** [defaultParams], over a given enumeration of the entries of
    [s.filters]. *)
Definition defaultParams_entries (s : State)
    (entries : list (string * value)) : URLSearchParams :=
  let p := [] in
  let p := set "page" (String_of_num (page s)) p in
  let p := set "pageSize" (String_of_num (pageSize s)) p in
  let p := if truthy (query s) then set "q" (query s) p else p in
  let p :=
    match sort s with
    | Some so => set "sort" (String.append (key so) (String ":" (dir so))) p
    | None => p
    end in
  foldl encode_filter p entries.

(** [Object.entries(o)]: the own entries of [o], each key once.  The order
    of enumeration is the one of [map_to_list]; no property below depends
    on it. *)
Definition Object_entries {V} (o : gmap string V) : list (string * V) :=
  map_to_list o.

Definition defaultParams (s : State) : URLSearchParams :=
  defaultParams_entries s (Object_entries (filters s)).

(** *** Decoding: [readFromUrl] *)

(** The body of [q.forEach((val, key) => ...)]. *)
Definition decode_filter (f : gmap string value) (kv : string * string)
    : gmap string value :=
  match match_filters (fst kv) with
  | Some m1 => assign m1 (VStr (snd kv)) f
  | None => f
  end.

(** [sortParam ? { key: split[0], dir: split[1] || 'asc' } : fallback.sort] *)
Definition decode_sort (sortParam : option string) (fallback : Sort) : Sort :=
  match sortParam with
  | Some sp =>
      if truthy sp then
        let '(first, others) := split ":" sp in
        Some (mkSort first
                (match others with
                 | d :: _ => if truthy d then d else "asc"
                 | [] => "asc"
                 end))
      else fallback
  | None => fallback
  end.

(** [readFromUrl(fallback)].  [window] is [None] where there is no
    [window] (server side), and otherwise holds the search parameters of
    [window.location.href]. *)
Definition readFromUrl (window : option URLSearchParams) (fallback : State)
    : State :=
  match window with
  | None => fallback
  | Some q =>
      let page :=
        or_num (parseInt (or_string (get "page" q) "") None)
               (page fallback) in
      let pageSize :=
        or_num (parseInt (or_string (get "pageSize" q) "") None)
               (pageSize fallback) in
      let query := default (query fallback) (get "q" q) in
      let sort := decode_sort (get "sort" q) (sort fallback) in
      let filters := foldl decode_filter (filters fallback) q in
      mkState page pageSize query sort filters
  end.

(** *** Valid states *)

(** The page sizes the table offers: [[10, 20, 50].map(n => <option ...>)]
    in [CustomersTable.tsx]. *)
Definition allowed_page_sizes : list Z := [10; 20; 50].

(** A valid [TableState]: a page from 1 on, an allowed page size, a sort
    direction that is ['asc'] or ['desc'], and only non-empty strings as
    filter values. *)
Definition valid (s : State) : Prop :=
  (exists p, page s = Int p /\ 1 <= p) /\
  (exists n, pageSize s = Int n /\ n ∈ allowed_page_sizes) /\
  (forall so, sort s = Some so -> dir so = "asc" \/ dir so = "desc") /\
  (forall k v, filters s !! k = Some v -> exists str, v = VStr str /\ str <> "").

(** The filters a query string carries, in the words of the
    specification: every pair [filters[name]=value] is overlaid, the last
    pair of a name winning.  What [readFromUrl] stores is compared with it
    below. *)
Definition overlay_pair (f : gmap string value) (kv : string * string)
    : gmap string value :=
  match match_filters (fst kv) with
  | Some m1 => <[m1 := VStr (snd kv)]> f
  | None => f
  end.

Definition url_filters (q : URLSearchParams) : gmap string value :=
  foldl overlay_pair ∅ q.

End Table.

(** ** The fetch coordinator: [refresh] and its completion handlers *)

Module Fetch.
Import Js Url Table.

(** A value that is thrown, or that rejects a promise, other than [null]
    and [undefined], as far as the code looks at it: [catch] reads
    [e.name] and the table tests [t.error].  [mkError] is an object whose
    [name] is a string (an [Error], a [DOMException]); [Nameless] is any
    other value, a primitive or an object without such a [name], with
    whether it is truthy (an object is) and [String(e)]. *)
Inductive JsError : Type :=
| mkError (name message : string)
| Nameless (truthy : bool) (text : string).

#[global] Instance JsError_eq_dec : EqDecision JsError.
Proof. solve_decision. Defined.

(** [e.name], when it is a string. *)
Definition name (e : JsError) : option string :=
  match e with
  | mkError n _ => Some n
  | Nameless _ _ => None
  end.

Definition truthy_error (e : JsError) : bool :=
  match e with
  | mkError _ _ => true
  | Nameless t _ => t
  end.

(** What a function throws: [None] is [null] or [undefined]. *)
Definition thrown : Type := option JsError.

Section Hook.
(** [T] is the type of rows and [J] the type of parsed response bodies. *)
Context {T J : Type}.

(** The part of [Config<T>] that [refresh] uses.  [parse] and
    [buildParams] are code of the caller: [parse] returns
    [{ items, total }] on a body, and [buildParams] the parameters of a
    state, or they throw. *)
Record Config : Type := mkConfig {
  endpoint : string;
  parse : J -> thrown + list T * num;
  buildParams : option (State -> thrown + URLSearchParams)
}.

(** What the hook shows, and the request counter [latest.current]. *)
Record Hook : Type := mkHook {
  latest : Z;
  rows : list T;
  total : num;
  loading : bool;
  error : option JsError
}.

(** The calls a handler makes, in program order: the state setters and
    [fetch]. *)
Inductive effect : Type :=
| SetRows (items : list T)
| SetTotal (n : num)
| SetLoading (b : bool)
| SetError (e : option JsError)
| FetchCall (url : string) (params : URLSearchParams).

Definition apply_effect (h : Hook) (e : effect) : Hook :=
  match e with
  | SetRows items => mkHook (latest h) items (total h) (loading h) (error h)
  | SetTotal n => mkHook (latest h) (rows h) n (loading h) (error h)
  | SetLoading b => mkHook (latest h) (rows h) (total h) b (error h)
  | SetError e => mkHook (latest h) (rows h) (total h) (loading h) e
  | FetchCall _ _ => h
  end.

Definition run (h : Hook) (es : list effect) : Hook := foldl apply_effect h es.

Variable cfg : Config.

(** [buildParams ? buildParams(st) : defaultParams(st)] *)
Definition request_params (st : State) : thrown + URLSearchParams :=
  match buildParams cfg with
  | Some build => build st
  | None => inr (defaultParams st)
  end.

(** The body of [refresh] after [const id = ++latest.current]:
    [setLoading(true)], [setError(null)], then the [fetch] of the
    parameters of the state, with the debounced query as query.  When
    [buildParams] throws, [refresh] throws with it and [fetch] is not
    called. *)
Definition refresh_effects (s : State) (debouncedQuery : string)
    : list effect :=
  let st := mkState (page s) (pageSize s) debouncedQuery (sort s) (filters s) in
  [SetLoading true; SetError None]
  ++ match request_params st with
     | inr params => [FetchCall (endpoint cfg) params]
     | inl _ => []
     end.

(** [refresh()]: the id of the request it issues and the hook after it. *)
Definition refresh (s : State) (debouncedQuery : string) (h : Hook)
    : Z * Hook :=
  let id := latest h + 1 in
  let h := mkHook id (rows h) (total h) (loading h) (error h) in
  (id, run h (refresh_effects s debouncedQuery)).

(** How a [fetch] settles: with a response, whose body then reads as JSON
    or fails to, or with a rejection (a network failure, or an
    [AbortError] when the request was cancelled). *)
Inductive response : Type :=
| Response (ok : bool) (statusText : string) (json : JsError + J).

Inductive settled : Type :=
| Fulfilled (r : response)
| Rejected (e : JsError).

(** [.then(r => { if (!r.ok) throw new Error(r.statusText); return r.json() })] *)
Definition then_json (o : settled) : JsError + J :=
  match o with
  | Rejected e => inl e
  | Fulfilled (Response ok statusText json) =>
      if ok then json else inl (mkError "Error" statusText)
  end.

(** [.then(json => { if (id !== latest.current) return;
      const { items, total } = parse(json); setRows(items); setTotal(total) })]:
    the calls it makes, or what [parse] throws, before any call. *)
Definition then_apply (id current : Z) (json : J) : thrown + list effect :=
  if decide (id <> current) then inr []
  else
    match parse cfg json with
    | inr (items, total) => inr [SetRows items; SetTotal total]
    | inl e => inl e
    end.

(** [.catch(e => { if (id === latest.current && e.name !== 'AbortError') setError(e) })].
    For the current request [e.name] is read: on [null] or [undefined]
    that throws, and [setError] is not called. *)
Definition catch_error (id current : Z) (e : thrown) : list effect :=
  if id =? current then
    match e with
    | Some e =>
        if decide (name e = Some "AbortError") then [] else [SetError (Some e)]
    | None => []
    end
  else [].

(** [.finally(() => { if (id === latest.current) setLoading(false) })] *)
Definition finally_loading (id current : Z) : list effect :=
  if id =? current then [SetLoading false] else [].

(** The calls made when the request [id] settles with [o], the counter
    being [current] at that time: [catch] gets what the first [then] or
    the second one throws, and [finally] runs in every case. *)
Definition settle_effects (id current : Z) (o : settled) : list effect :=
  match then_json o with
  | inr json =>
      match then_apply id current json with
      | inr calls => calls
      | inl e => catch_error id current e
      end
  | inl e => catch_error id current (Some e)
  end ++ finally_loading id current.

Definition settle (id : Z) (o : settled) (h : Hook) : Hook :=
  run h (settle_effects id (latest h) o).

(** The response had a status outside 2xx. *)
Definition non_2xx (o : settled) : Prop :=
  exists statusText json, o = Fulfilled (Response false statusText json).

(** The request failed with [e]: [fetch] rejected, or the body of a 2xx
    response could not be read. *)
Definition failed_with (e : JsError) (o : settled) : Prop :=
  o = Rejected e \/ exists statusText, o = Fulfilled (Response true statusText (inl e)).

Definition is_abort (e : JsError) : Prop := name e = Some "AbortError".

(** What reaches [catch] when the current request settles with [o]: the
    rejection of [fetch], the error of the first [then], or what [parse]
    throws; [None] when nothing is thrown. *)
Definition caught (o : settled) : option thrown :=
  match then_json o with
  | inl e => Some (Some e)
  | inr json =>
      match parse cfg json with
      | inl e => Some e
      | inr _ => None
      end
  end.

(** The body of the response was read, and [parse] threw [e] on it. *)
Definition parse_throws (e : JsError) (o : settled) : Prop :=
  exists json, then_json o = inr json /\ parse cfg json = inl (Some e).

End Hook.

Arguments Config : clear implicits.
Arguments Hook : clear implicits.
Arguments effect : clear implicits.
Arguments settled : clear implicits.
Arguments response : clear implicits.

End Fetch.

(** ** The mock endpoint: [pages/api/customers.ts] *)

Module Api.
Import Js.

Record Row : Type := mkRow {
  id : string;
  name : string;
  email : string;
  company : string;
  status : string;
  createdAt : string
}.

(** [s.padStart(n, c)] *)
Definition padStart (n : nat) (c : ascii) (s : string) : string :=
  String.append
    (string_of_list_ascii (repeat c (n - String.length s))) s.

Definition COMPANIES : list string :=
  ["Analytica"; "ByteForge"; "CloudNine"; "Delta Labs"; "Epsilon"].

Definition N : nat := 500.

(** [ROWS], given the ISO timestamp [createdAt i] of
    [new Date(Date.now() - i * 86400000)], which depends on the time of
    loading. *)
Definition ROWS (createdAt : nat -> string) : list Row :=
  map (fun i =>
         let n := String_of_num (Int (Z.of_nat i + 1)) in
         mkRow (String.append "c_" (padStart 3 "0" n))
               (String.append "User " n)
               (String.append "user" (String.append n "@example.com"))
               (nth (i mod length COMPANIES) COMPANIES "")
               (nth (i mod 3) ["active"; "trial"; "churned"] "")
               (createdAt i))
      (seq 0 N).

(** A value of [req.query]: a string, or an array for a repeated key. *)
Inductive qvalue : Type :=
| QString (s : string)
| QArray (l : list string).

(** [qval = (x, fallback = '') =>
      Array.isArray(x) ? x[0] ?? fallback : x ?? fallback] *)
Definition qval (x : option qvalue) (fallback : string) : string :=
  match x with
  | Some (QArray l) => default fallback (head l)
  | Some (QString s) => s
  | None => fallback
  end.

(** The loop that fills [filters] from the flat keys of [req.query]. *)
Definition parse_filter (filters : gmap string string)
    (kv : string * qvalue) : gmap string string :=
  match match_filters (fst kv) with
  | Some m1 => assign m1 (qval (Some (snd kv)) "") filters
  | None => filters
  end.

Definition parse_filters (query : gmap string qvalue) : gmap string string :=
  foldl parse_filter ∅ (map_to_list query).

(** [if (q) data = data.filter(r => ...includes(q) || ...)] *)
Definition search (q : string) (data : list Row) : list Row :=
  if truthy q then
    List.filter
      (fun r => includes (toLowerCase (name r)) q
                || includes (toLowerCase (email r)) q
                || includes (toLowerCase (company r)) q)
      data
  else data.

(** [if (filters.x) data = data.filter(r => keep filters.x r)] *)
Definition filter_when (v : option string) (keep : string -> Row -> bool)
    (data : list Row) : list Row :=
  match v with
  | Some v => if truthy v then List.filter (keep v) data else data
  | None => data
  end.

Definition apply_filters (filters : gmap string string) (data : list Row)
    : list Row :=
  let data :=
    filter_when (filters !! "status") (fun v r => String.eqb (status r) v) data in
  let data :=
    filter_when (filters !! "company") (fun v r => String.eqb (company r) v) data in
  let data :=
    filter_when (filters !! "createdAtFrom")
      (fun v r => String.leb v (createdAt r)) data in
  filter_when (filters !! "createdAtTo")
    (fun v r => String.leb (createdAt r) v) data.

(** [a[field]]: a string for the six fields of a row; for any other name
    both rows give the same thing, [undefined] or a member of
    [Object.prototype], and the comparison below is 0. *)
Definition get_field (field : string) (r : Row) : option string :=
  if String.eqb field "id" then Some (id r)
  else if String.eqb field "name" then Some (name r)
  else if String.eqb field "email" then Some (email r)
  else if String.eqb field "company" then Some (company r)
  else if String.eqb field "status" then Some (status r)
  else if String.eqb field "createdAt" then Some (createdAt r)
  else None.

(** [(a[field] > b[field] ? 1 : a[field] < b[field] ? -1 : 0) * sign] *)
Definition compare_rows (field : string) (sign : Z) (a b : Row) : Z :=
  match get_field field a, get_field field b with
  | Some x, Some y =>
      (if String.ltb y x then 1 else if String.ltb x y then -1 else 0) * sign
  | _, _ => 0
  end.

(** [if (sort) { const [field, dir] = sort.split(':'); ... data.sort(...) }] *)
Definition sort_rows (sort : string) (data : list Row) : list Row :=
  if truthy sort then
    let '(field, others) := split ":" sort in
    let sign := if decide (head others = Some "desc") then -1 else 1 in
    Array_sort (compare_rows field sign) data
  else data.

Record Response : Type := mkResponse {
  items : list Row;
  total : nat;
  page : num;
  pageSize : num
}.

Definition read_page (query : gmap string qvalue) : num :=
  Math_max (Int 1) (parseInt (qval (query !! "page") "1") (Some 10)).

Definition read_pageSize (query : gmap string qvalue) : num :=
  Math_min (Int 100)
    (Math_max (Int 1) (parseInt (qval (query !! "pageSize") "10") (Some 10))).

(** The rows after search, filters and sort, before pagination. *)
Definition selected (rows : list Row) (query : gmap string qvalue)
    : list Row :=
  let q := toLowerCase (qval (query !! "q") "") in
  let sort := qval (query !! "sort") "" in
  let filters := parse_filters query in
  let data := rows in
  let data := search q data in
  let data := apply_filters filters data in
  sort_rows sort data.

(** [handler(req, res)]: the body of the JSON response to [req.query],
    over the rows [rows]. *)
Definition handler (rows : list Row) (query : gmap string qvalue)
    : Response :=
  let page := read_page query in
  let pageSize := read_pageSize query in
  let data := selected rows query in
  let total := length data in
  let start := mul (sub page (Int 1)) pageSize in
  let items := Array_slice data start (plus start pageSize) in
  mkResponse items total page pageSize.

(** The test of [filter_when]. *)
Definition keeps (v : option string) (keep : string -> Row -> bool)
    (r : Row) : bool :=
  match v with
  | Some v => if truthy v then keep v r else true
  | None => true
  end.

(** The tests of [search] and [apply_filters] together. *)
Definition passesb (query : gmap string qvalue) (r : Row) : bool :=
  let q := toLowerCase (qval (query !! "q") "") in
  let filters := parse_filters query in
  (if truthy q then
     includes (toLowerCase (name r)) q
     || includes (toLowerCase (email r)) q
     || includes (toLowerCase (company r)) q
   else true)
  && keeps (filters !! "status") (fun v r => String.eqb (status r) v) r
  && keeps (filters !! "company") (fun v r => String.eqb (company r) v) r
  && keeps (filters !! "createdAtFrom") (fun v r => String.leb v (createdAt r)) r
  && keeps (filters !! "createdAtTo") (fun v r => String.leb (createdAt r) v) r.

(** A row passes the search and the four filters of [query]. *)
Definition passes (query : gmap string qvalue) (r : Row) : Prop :=
  let q := toLowerCase (qval (query !! "q") "") in
  let filters := parse_filters query in
  (truthy q = true ->
     includes (toLowerCase (name r)) q = true
     \/ includes (toLowerCase (email r)) q = true
     \/ includes (toLowerCase (company r)) q = true) /\
  (forall v, filters !! "status" = Some v -> truthy v = true -> status r = v) /\
  (forall v, filters !! "company" = Some v -> truthy v = true -> company r = v) /\
  (forall v, filters !! "createdAtFrom" = Some v -> truthy v = true ->
     String.leb v (createdAt r) = true) /\
  (forall v, filters !! "createdAtTo" = Some v -> truthy v = true ->
     String.leb (createdAt r) v = true).

End Api.

(** ** Sample states *)

Module Samples.
Import Js Table.

(** A table at its defaults: page 1 of 10 rows, no search, sort or filter. *)
Definition plain_state : State := mkState (Int 1) (Int 10) "" None ∅.

(** Page 3 of 20 rows, searching "bob", newest names last, two filters. *)
Definition sample_state : State :=
  mkState (Int 3) (Int 20) "bob" (Some (mkSort "name" "desc"))
    (<["status" := VStr "active"]> (<["company" := VStr "Epsilon"]> ∅)).

(** A state sorted on a key that holds a colon. *)
Definition colon_state : State :=
  mkState (Int 1) (Int 10) "" (Some (mkSort "a:b" "asc")) ∅.

(** The query of [?page=2&filters[status]=trial]. *)
Definition trial_url : Url.URLSearchParams :=
  [("page", "2"); ("filters[status]", "trial")].

(** The configuration of [CustomersTable]: rows are read off the body. *)
Definition sample_config : Fetch.Config string (list string * num) :=
  Fetch.mkConfig "/api/customers" (fun json => inr json) None.

(** The same, for a body that may be [null]:
    [parse: json => ({ items: json.items, total: json.total })] throws a
    [TypeError] on it. *)
Definition null_error : Fetch.JsError :=
  Fetch.mkError "TypeError" "Cannot read properties of null (reading 'items')".

Definition table_config : Fetch.Config string (option (list string * num)) :=
  Fetch.mkConfig "/api/customers"
    (fun json =>
       match json with
       | Some body => inr body
       | None => inl (Some null_error)
       end)
    None.

(** The hook at its first render. *)
Definition initial_hook : Fetch.Hook string :=
  Fetch.mkHook 0 [] (Int 0) false None.

Definition abort_error : Fetch.JsError :=
  Fetch.mkError "AbortError" "The user aborted a request.".

Definition network_error : Fetch.JsError :=
  Fetch.mkError "TypeError" "Failed to fetch".

(** The query of [?filters[__proto__]=x]. *)
Definition proto_url : Url.URLSearchParams := [("filters[__proto__]", "x")].

(** [?filters[status]=active&page=1&pageSize=10] *)
Definition active_query : gmap string Api.qvalue :=
  <["filters[status]" := Api.QString "active"]>
    (<["page" := Api.QString "1"]> (<["pageSize" := Api.QString "10"]> ∅)).

(** [?q=USER&sort=createdAt:asc&filters[company]=] *)
Definition user_query : gmap string Api.qvalue :=
  <["q" := Api.QString "USER"]>
    (<["sort" := Api.QString "createdAt:asc"]>
       (<["filters[company]" := Api.QString ""]> ∅)).

(** Three rows, as [ROWS] makes them. *)
Definition three_rows : list Api.Row :=
  [Api.mkRow "c_001" "User 1" "user1@example.com" "Analytica" "active"
     "2025-01-03T00:00:00.000Z";
   Api.mkRow "c_002" "User 2" "user2@example.com" "ByteForge" "trial"
     "2025-01-02T00:00:00.000Z";
   Api.mkRow "c_003" "User 3" "user3@example.com" "CloudNine" "churned"
     "2025-01-01T00:00:00.000Z"].

(** [?page=abc] *)
Definition bad_page_query : gmap string Api.qvalue :=
  {["page" := Api.QString "abc"]}.

(** [?pageSize=ten&page=2] *)
Definition bad_pageSize_query : gmap string Api.qvalue :=
  <["pageSize" := Api.QString "ten"]> {["page" := Api.QString "2"]}.

End Samples.

(** ** Pager compaction: [makePageButtons] *)

Module Pager.

(** An entry of the pager: a page number or the ellipsis marker. *)
Inductive button : Type :=
| Page (n : Z)
| Ellipsis.

#[global] Instance button_eq_dec : EqDecision button.
Proof. solve_decision. Defined.

(** [const add = n => { if (out[out.length - 1] !== n) out.push(n) }] *)
Definition add (out : list button) (n : button) : list button :=
  if decide (last out = Some n) then out else out ++ [n].

(** [for (let i = left; i <= right; i++) add(i)], with the number of
    iterations [right - left + 1] (none when [right < left]) as fuel.  The
    counter is an integer here; the one of the code is a double, which
    [i++] moves as long as [right] is a safe integer. *)
Fixpoint for_pages (iters : nat) (i : Z) (out : list button) : list button :=
  match iters with
  | O => out
  | S iters' => for_pages iters' (i + 1) (add out (Page i))
  end.

(** The longest array there is: beyond it [Array.from] throws a
    [RangeError]. *)
Definition MAX_ARRAY_LENGTH : Z := 2 ^ 32 - 1.

(** [Array.from({ length: total }, (_, i) => i + 1)], for a [total] up to
    [MAX_ARRAY_LENGTH]. *)
Definition Array_from_length (total : Z) : list button :=
  map (fun i => Page (Z.of_nat i + 1)) (seq 0 (Z.to_nat total)).

Definition makePageButtons (curr total max : Z) : list button :=
  if total <=? max then Array_from_length total
  else
    let out := [] in
    let left := Z.max 1 (curr - 1) in
    let right := Z.min total (curr + 1) in
    let out := add out (Page 1) in
    let out := if left >? 2 then add out Ellipsis else out in
    let out := for_pages (Z.to_nat (right - left + 1)) left out in
    let out := if right <? total - 1 then add out Ellipsis else out in
    add out (Page total).

(** What a compacted pager looks like after page [a]: the next page is
    either [a + 1], or a later page announced by exactly one ellipsis. *)
Fixpoint compacted_after (a : Z) (l : list button) : Prop :=
  match l with
  | [] => True
  | Page b :: r => b = a + 1 /\ compacted_after b r
  | Ellipsis :: Page b :: r => a + 1 < b /\ compacted_after b r
  | Ellipsis :: _ => False
  end.

Definition compacted (l : list button) : Prop :=
  match l with
  | Page a :: r => compacted_after a r
  | _ => False
  end.

End Pager.

(** ** Names of the parameters the decoder reads *)

Module Codec.
Import Js Url Table.

(** The names [readFromUrl] looks at: the four it gets by name and the
    keys of the filter pattern. *)
Definition read_name (n : string) : bool :=
  String.eqb n "page" || String.eqb n "pageSize" || String.eqb n "q"
  || String.eqb n "sort" || bool_decide (is_Some (match_filters n)).

(** The parameter [name] of the URL, when it reads as an integer, reads as
    a safe one. *)
Definition safe_param (name : string) (window : option URLSearchParams)
    : Prop :=
  forall q v z,
    window = Some q -> get name q = Some v -> parseInt v None = Int z ->
    safe z.

(** The pairs of a query that [readFromUrl] looks at. *)
Definition read_pairs (q : URLSearchParams) : URLSearchParams :=
  List.filter (fun nv => read_name (fst nv)) q.

End Codec.

(** ** What the hook derives from its state, and the controls of the table *)

Module View.
Import Js Url Table Pager Fetch.

(** [Math.ceil(a / b)] for integers [a] and [b <> 0]. *)
Definition ceil_div (a b : Z) : Z := - ((- a) / b).

(** [totalPages = Math.max(1, Math.ceil(total / pageSize))].  The result
    is [None] where it is [Infinity] (rows and a page size of 0), which
    [num] does not hold; [0 / 0] is [NaN], and a negative total over 0 is
    [-Infinity], under which [Math.max] gives 1. *)
Definition totalPages (total pageSize : num) : option num :=
  match total, pageSize with
  | Int t, Int n =>
      if n =? 0 then
        if t =? 0 then Some NaN else if 0 <? t then None else Some (Int 1)
      else Some (Int (Z.max 1 (ceil_div t n)))
  | _, _ => Some NaN
  end.

(** [pageButtons = (max = 7) => makePageButtons(page, totalPages, max)],
    where the page and the number of pages are integers. *)
Definition pageButtons (page : Z) (pages : Z) (max : option Z) : list button :=
  makePageButtons page pages (default 7 max).

(** [a === b] on numbers: [NaN] is equal to nothing. *)
Definition strict_eq (a b : num) : bool :=
  match a, b with
  | Int x, Int y => x =? y
  | _, _ => false
  end.

(** The argument of [t.setSort] in the [onSort] of a column header:
    [t.sort && t.sort.key === k
       ? { key: k, dir: t.sort.dir === 'asc' ? 'desc' : 'asc' }
       : { key: k, dir: 'asc' }] *)
Definition onSort (k : string) (s : Sort) : Sort :=
  match s with
  | Some so =>
      if String.eqb (key so) k
      then Some (mkSort k (if String.eqb (dir so) "asc" then "desc" else "asc"))
      else Some (mkSort k "asc")
  | None => Some (mkSort k "asc")
  end.

Definition clickSort (k : string) (s : State) : State :=
  setSort (onSort k (sort s)) s.

(** The columns of the table: [['name', 'email', 'company', 'status',
    'createdAt'].map(col => <Th ... />)]. *)
Definition columns : list string :=
  ["name"; "email"; "company"; "status"; "createdAt"].

(** The Prev button: [disabled={t.page === 1}],
    [onClick={() => t.setPage(t.page - 1)}]. *)
Definition clickPrev (s : State) : State :=
  if strict_eq (page s) (Int 1) then s
  else setPage (sub (page s) (Int 1)) s.

(** The Next button: [disabled={t.page === t.totalPages}],
    [onClick={() => t.setPage(t.page + 1)}]. *)
Definition clickNext (pages : num) (s : State) : State :=
  if strict_eq (page s) pages then s
  else setPage (plus (page s) (Int 1)) s.

(** A page button of the pager: [disabled={t.page === p}],
    [onClick={() => t.setPage(p)}]. *)
Definition clickPage (p : Z) (s : State) : State :=
  if strict_eq (page s) (Int p) then s else setPage (Int p) s.


(** The page size select:
    [onChange={e => t.setPageSize(parseInt(e.target.value))}]. *)
Definition selectPageSize (value : string) (s : State) : State :=
  setPageSize (parseInt value None) s.

(** What the body of the table shows:
    [t.loading ? Loading : t.error ? Error : t.rows.length === 0
       ? No results : t.rows.map(...)]. *)
Inductive body (T : Type) : Type :=
| Loading
| ErrorRow (e : JsError)
| NoResults
| Rows (rows : list T).

Arguments Loading {T}.
Arguments ErrorRow {T} e.
Arguments NoResults {T}.
Arguments Rows {T} rows.

Definition rows_body {T} (rows : list T) : body T :=
  match rows with
  | [] => NoResults
  | rows => Rows rows
  end.

Definition table_body {T} (h : Hook T) : body T :=
  if loading h then Loading
  else match error h with
       | Some e => if truthy_error e then ErrorRow e else rows_body (rows h)
       | None => rows_body (rows h)
       end.

End View.

(** ** Runs of the fetch coordinator *)

Module Coordinator.
Import Js Table Fetch.

Section Events.
Context {T J : Type}.
Variable cfg : Config T J.

(** What happens to the hook: [refresh] is called, or a request settles. *)
Inductive event : Type :=
| Refresh (s : State) (debouncedQuery : string)
| Settle (id : Z) (o : settled J).

Definition step (h : Hook T) (ev : event) : Hook T :=
  match ev with
  | Refresh s debouncedQuery => snd (refresh cfg s debouncedQuery h)
  | Settle id o => settle cfg id o h
  end.

Definition run_events (h : Hook T) (evs : list event) : Hook T :=
  foldl step h evs.

Definition is_refresh (ev : event) : bool :=
  match ev with
  | Refresh _ _ => true
  | Settle _ _ => false
  end.

(** The settlements of a request other than [id]. *)
Definition settles_other (id : Z) (ev : event) : Prop :=
  match ev with
  | Refresh _ _ => False
  | Settle id' _ => id' <> id
  end.

End Events.

Arguments event : clear implicits.

End Coordinator.

(** ** Requests to the endpoint *)

Module Request.
Import Js Url Api.

(** The query with [page] set to [p]. *)
Definition with_page (p : Z) (query : gmap string qvalue) : gmap string qvalue :=
  <["page" := QString (String_of_num (Int p))]> query.

(** The items of page [p] of a query. *)
Definition page_items (rows : list Row) (query : gmap string qvalue) (p : Z)
    : list Row :=
  items (handler rows (with_page p query)).

(** The keys of [req.query] that the handler reads. *)
Definition read_keys : list string :=
  ["page"; "pageSize"; "q"; "sort"; "filters[status]"; "filters[company]";
   "filters[createdAtFrom]"; "filters[createdAtTo]"].

(** The names of the filters that the handler applies. *)
Definition filter_names : list string :=
  ["status"; "company"; "createdAtFrom"; "createdAtTo"].

(** [a] comes before [b], or with it, in the order of [field] as strings:
    ascending, or descending when [desc]. *)
Definition in_order (field : string) (desc : bool) (a b : Row) : Prop :=
  exists x y, get_field field a = Some x /\ get_field field b = Some y /\
    if desc then String.leb y x = true else String.leb x y = true.

(** [req.query] for a request whose parameters have distinct names: each
    parameter is a string. *)
Definition query_of_params (p : URLSearchParams) : gmap string qvalue :=
  list_to_map (map (fun nv => (fst nv, QString (snd nv))) p).

End Request.

(** ** The pipeline of the endpoint, in the words of the specification *)

Module Pipeline.
Import Js Api Request.

(** [sub] occurs in [s]. *)
Definition substring (sub s : string) : Prop :=
  exists pre post, s = String.append pre (String.append sub post).

(** A parameter of the request: its value, the first one when the key is
    repeated, and the empty string when the key is absent. *)
Definition param (query : gmap string qvalue) (key : string) : string :=
  match query !! key with
  | Some (QString s) => s
  | Some (QArray (s :: _)) => s
  | _ => ""
  end.

(** The search: [q] occurs in the name, the email or the company of the
    row, whatever the case of the letters; an empty [q] lets every row
    through. *)
Definition searched (query : gmap string qvalue) (r : Row) : Prop :=
  let q := param query "q" in
  q = "" \/
  substring (toLowerCase q) (toLowerCase (name r)) \/
  substring (toLowerCase q) (toLowerCase (email r)) \/
  substring (toLowerCase q) (toLowerCase (company r)).

(** The four filters: the status and the company of the row are the ones
    asked for, and its date lies between the two bounds, dates being
    compared as strings; an empty value does not filter. *)
Definition filtered (query : gmap string qvalue) (r : Row) : Prop :=
  (param query "filters[status]" = ""
   \/ status r = param query "filters[status]") /\
  (param query "filters[company]" = ""
   \/ company r = param query "filters[company]") /\
  (param query "filters[createdAtFrom]" = ""
   \/ String.leb (param query "filters[createdAtFrom]") (createdAt r) = true) /\
  (param query "filters[createdAtTo]" = ""
   \/ String.leb (createdAt r) (param query "filters[createdAtTo]") = true).

(** [keeping P rows kept]: [kept] is [rows] without the rows that fail
    [P], in the order of [rows]. *)
Inductive keeping (P : Row -> Prop) : list Row -> list Row -> Prop :=
| keeping_nil : keeping P [] []
| keeping_pass r rows kept :
    P r -> keeping P rows kept -> keeping P (r :: rows) (r :: kept)
| keeping_fail r rows kept :
    ~ P r -> keeping P rows kept -> keeping P (r :: rows) kept.

(** The names of the fields of a row. *)
Definition fields : list string :=
  ["id"; "name"; "email"; "company"; "status"; "createdAt"].

(** The row has the value [v] in [field]. *)
Definition has_value (field v : string) (r : Row) : bool :=
  bool_decide (get_field field r = Some v).

(** [sorted] is [data] put in the order of [field], ascending or
    descending: the same rows, each followed by a row that may come after
    it, and the rows of one value in the order they had in [data]. *)
Definition sorted_by (field : string) (desc : bool) (data sorted : list Row)
    : Prop :=
  sorted ≡ₚ data /\
  Sorted (in_order field desc) sorted /\
  forall v, List.filter (has_value field v) sorted
            = List.filter (has_value field v) data.

(** The elements of [l] from index [a] up to index [b], [b] excluded. *)
Definition slice {A} (a b : Z) (l : list A) : list A :=
  take (Z.to_nat (b - a)) (drop (Z.to_nat a) l).

End Pipeline.

(** ** The debouncer: [useDebounce] *)

Module Debounce.

Section Hook.
Context {T : Type} `{EqDecision T}.

(** The hook between two events: the value and the delay of the last
    render, whether the effect of that render is still to run, the timeout
    that is set (with the value its callback will pass to [setV]), and the
    state [v] that the hook returns. *)
Record Hook : Type := mkHook {
  value : T;
  delay : Z;
  effect_due : bool;
  timer : option T;
  v : T
}.

(** The first render: [useState(value)], and the effect is to run. *)
Definition mount (value0 : T) (delay0 : Z) : Hook :=
  mkHook value0 delay0 true None value0.

(** The effect of the last render, when it is still to run: the cleanup of
    the effect before it, [clearTimeout(id)], then
    [setTimeout(() => setV(value), delay)]. *)
Definition flush (h : Hook) : Hook :=
  if effect_due h
  then mkHook (value h) (delay h) false (Some (value h)) (v h)
  else h.

Inductive event : Type :=
| Render (value' : T) (delay' : Z)
| RunEffect
| Fire.

(** A render comes after the effects of the render before it; its own
    effect is to run when [value] or [delay] changed.  A timeout that
    fires calls [setV] with the value it was set for. *)
Definition step (h : Hook) (ev : event) : Hook :=
  match ev with
  | Render value' delay' =>
      let h := flush h in
      if decide (value' = value h /\ delay' = delay h) then h
      else mkHook value' delay' true (timer h) (v h)
  | RunEffect => flush h
  | Fire =>
      match timer h with
      | Some x => mkHook (value h) (delay h) (effect_due h) None x
      | None => h
      end
  end.

Definition run (h : Hook) (evs : list event) : Hook := foldl step h evs.

End Hook.

Arguments Hook : clear implicits.
Arguments event : clear implicits.

End Debounce.

(** ** Breakpoints: [useMobileDetect] *)

Module Mobile.

Definition MOBILE_BREAKPOINT : Z := 767.
Definition TABLET_BREAKPOINT : Z := 1199.

(** The three media queries at a viewport of width [w], in CSS pixels,
    which need not be whole:
    [(max-width: 767px)],
    [(min-width: 768px) and (max-width: 1199px)],
    [(min-width: 1200px)]. *)
Definition mobileMediaQuery (w : Q) : bool :=
  Qle_bool w (inject_Z MOBILE_BREAKPOINT).

Definition tabletMediaQuery (w : Q) : bool :=
  Qle_bool (inject_Z (MOBILE_BREAKPOINT + 1)) w
  && Qle_bool w (inject_Z TABLET_BREAKPOINT).

Definition desktopMediaQuery (w : Q) : bool :=
  Qle_bool (inject_Z (TABLET_BREAKPOINT + 1)) w.

(** The three flags of the hook. *)
Record Flags : Type := mkFlags {
  isMobile : bool;
  isTablet : bool;
  isDesktop : bool
}.

(** The first render: [useState(false)] three times. *)
Definition initial : Flags := mkFlags false false false.

(** The effect, on mount: the initial check. *)
Definition mount (w : Q) : Flags :=
  mkFlags (mobileMediaQuery w) (tabletMediaQuery w) (desktopMediaQuery w).

(** A [change] event of a media query comes when its result changes, and
    the handler stores [e.matches]. *)
Definition on_change (query : Q -> bool) (w w' : Q) (flag : bool) : bool :=
  if Bool.eqb (query w) (query w') then flag else query w'.

(** The viewport goes from width [w] to width [w']. *)
Definition resize (w w' : Q) (f : Flags) : Flags :=
  mkFlags (on_change mobileMediaQuery w w' (isMobile f))
          (on_change tabletMediaQuery w w' (isTablet f))
          (on_change desktopMediaQuery w w' (isDesktop f)).

(** The flags after the widths [ws], one resize after the other, from a
    hook mounted at width [w]. *)
Fixpoint resizes (w : Q) (ws : list Q) (f : Flags) : Flags :=
  match ws with
  | [] => f
  | w' :: ws' => resizes w' ws' (resize w w' f)
  end.

End Mobile.

(** * Properties *)

(** ** The pager *)

Section PagerContract.
Import Pager.

Lemma add_fresh out n : last out <> Some n -> add out n = out ++ [n].
Proof. intros H. unfold add. by rewrite decide_False. Qed.

Lemma add_repeat out n : last out = Some n -> add out n = out.
Proof. intros H. unfold add. by rewrite decide_True. Qed.

(** Resolves the innermost [add] of the goal. *)
Ltac add_step :=
  match goal with
  | |- context [add ?out ?n] =>
      first
        [ rewrite (add_fresh out n) by (cbn [last]; intros ?; simplify_eq; lia)
        | rewrite (add_repeat out n) by (cbn [last]; repeat f_equal; lia) ];
      cbn [app]
  end.

Ltac norm_bounds :=
  repeat first
    [ rewrite Z.max_l by lia | rewrite Z.max_r by lia
    | rewrite Z.min_l by lia | rewrite Z.min_r by lia ];
  rewrite ?Z.gtb_ltb;
  repeat match goal with
  | |- context [?a <? ?b] => destruct (Z.ltb_spec a b); try lia
  end;
  match goal with
  | |- context [for_pages (Z.to_nat ?n)] =>
      first [ replace (Z.to_nat n) with 1%nat by lia
            | replace (Z.to_nat n) with 2%nat by lia
            | replace (Z.to_nat n) with 3%nat by lia ]
  end;
  cbn [for_pages].

Ltac elem_tac p :=
  repeat match goal with
  | |- Page p = Page ?x \/ _ =>
      destruct (decide (p = x)) as [->|?]; [left; reflexivity | right]
  | |- Page p = Ellipsis \/ _ => right
  end.

(** With more pages than [max]: the first and the last entry, the pages
    listed, and the compaction, by cases on where [curr] sits. *)
Lemma makePageButtons_shape curr total max :
  1 <= curr <= total -> max < total ->
  let out := makePageButtons curr total max in
  head out = Some (Page 1) /\
  last out = Some (Page total) /\
  (forall p, Page p ∈ out <->
     p = 1 \/ p = total \/ (1 <= p <= total /\ curr - 1 <= p <= curr + 1)) /\
  compacted out.
Proof.
  intros Hc Hm. unfold makePageButtons.
  rewrite (proj2 (Z.leb_gt total max)) by lia.
  assert (Hcases : curr = 1 \/ curr = 2 \/ curr = 3 \/ 4 <= curr) by lia.
  assert (Htot : total = curr \/ total = curr + 1 \/ total = curr + 2 \/ curr + 3 <= total) by lia.
  cbv zeta.
  destruct Hcases as [->|[->|[->|Hc4]]]; destruct Htot as [Ht|[Ht|[Ht|Ht]]]; try subst total;
  norm_bounds; repeat add_step;
  (split; [simpl; repeat f_equal; lia|]);
  (split; [simpl; repeat f_equal; lia|]);
  (split; [|simpl; repeat split; lia]);
  intros p; rewrite !elem_of_cons, elem_of_nil;
  (split; [intros Hp; repeat destruct Hp as [Hp|Hp]; simplify_eq; lia
          | intros Hp; elem_tac p; lia]).
Qed.

(** In a compacted pager no entry is followed by an equal one. *)
Lemma compacted_after_no_repeat n : forall l a l1 x l2,
  (length l <= n)%nat -> compacted_after a l ->
  Page a :: l <> l1 ++ x :: x :: l2.
Proof.
  induction n as [|n IH]; intros l a l1 x l2 Hlen Hc Heq.
  - destruct l; [|simpl in Hlen; lia].
    apply (f_equal length) in Heq. rewrite length_app in Heq. simpl in Heq. lia.
  - destruct l as [|[b|] r].
    + apply (f_equal length) in Heq. rewrite length_app in Heq. simpl in Heq. lia.
    + destruct Hc as [-> Hc]. destruct l1 as [|y l1]; simplify_eq/=; [lia|].
      eapply (IH r); [lia|exact Hc|eassumption].
    + destruct r as [|[b|] r]; simpl in Hc; try tauto.
      destruct Hc as [Hab Hc].
      destruct l1 as [|y [|z l1]]; simplify_eq/=.
      eapply (IH r); [lia|exact Hc|eassumption].
Qed.

Lemma compacted_no_repeat l l1 x y l2 :
  compacted l -> l = l1 ++ x :: y :: l2 -> x <> y.
Proof.
  intros Hc Heq ->. destruct l as [|[a|] r]; simpl in Hc; try tauto.
  by eapply (compacted_after_no_repeat (length r) r a l1 y l2).
Qed.

Lemma Array_from_length_seqZ total :
  Array_from_length total = Page <$> seqZ 1 total.
Proof.
  unfold Array_from_length, seqZ. rewrite <- list_fmap_compose.
  reflexivity.
Qed.

(** C5: for [curr] between 1 and [total], [total] being a safe integer,
    which the counter of the loop can step through.  With [total <= max],
    and [total] no more than the longest array, the pager is
    [1, 2, ..., total], without ellipsis.  Otherwise it starts with
    page 1 and ends with page [total]; its pages are 1, [total], [curr] and
    the neighbours of [curr] that exist; between two pages that follow one
    another there is nothing when they are consecutive and exactly one
    ellipsis when pages are skipped; and no entry is followed by an equal
    one. *)
Theorem makePageButtons_contract curr total max :
  1 <= curr <= total -> total <= Js.MAX_SAFE_INTEGER ->
  (total <= max -> total <= MAX_ARRAY_LENGTH ->
     makePageButtons curr total max = Page <$> seqZ 1 total /\
     Ellipsis ∉ makePageButtons curr total max) /\
  (max < total ->
     let out := makePageButtons curr total max in
     head out = Some (Page 1) /\
     last out = Some (Page total) /\
     Page curr ∈ out /\
     (forall p, Page p ∈ out <->
        p = 1 \/ p = total \/ (1 <= p <= total /\ curr - 1 <= p <= curr + 1)) /\
     compacted out /\
     (forall l1 x y l2, out = l1 ++ x :: y :: l2 -> x <> y)).
Proof.
  intros Hc _. split.
  - intros Hm _.
    assert (Heq : makePageButtons curr total max = Page <$> seqZ 1 total).
    { unfold makePageButtons. rewrite (proj2 (Z.leb_le total max)) by assumption.
      apply Array_from_length_seqZ. }
    split; [exact Heq|]. rewrite Heq.
    intros (i & H & _)%list_elem_of_fmap. discriminate.
  - intros Hm out.
    destruct (makePageButtons_shape curr total max Hc Hm) as (Hh & Hl & Hp & Hcomp).
    fold out in Hh, Hl, Hp, Hcomp.
    repeat split; try assumption.
    + apply Hp. lia.
    + apply Hp.
    + apply Hp.
    + intros l1 x y l2. by apply compacted_no_repeat.
Qed.

Lemma makePageButtons_contract_witness :
  1 <= 5 <= 10 /\ 10 <= Js.MAX_SAFE_INTEGER /\ 7 < 10 /\
  head (makePageButtons 5 10 7) = Some (Page 1) /\
  last (makePageButtons 5 10 7) = Some (Page 10) /\
  Page 5 ∈ makePageButtons 5 10 7 /\
  compacted (makePageButtons 5 10 7) /\
  (3 <= MAX_ARRAY_LENGTH /\
   makePageButtons 2 3 7 = Page <$> seqZ 1 3).
Proof.
  assert (Hsafe : forall t, t <= 10 -> t <= Js.MAX_SAFE_INTEGER).
  { intros t Ht. unfold Js.MAX_SAFE_INTEGER.
    change (2 ^ 53) with 9007199254740992. lia. }
  assert (Hlen : 3 <= MAX_ARRAY_LENGTH).
  { unfold MAX_ARRAY_LENGTH. change (2 ^ 32) with 4294967296. lia. }
  split; [lia|]. split; [apply Hsafe; lia|]. split; [lia|].
  destruct (makePageButtons_contract 5 10 7 ltac:(lia) (Hsafe 10 ltac:(lia)))
    as [_ H].
  destruct (H ltac:(lia)) as (H1 & H2 & H3 & _ & H5 & _).
  destruct (makePageButtons_contract 2 3 7 ltac:(lia) (Hsafe 3 ltac:(lia)))
    as [Hfew _].
  destruct (Hfew ltac:(lia) Hlen) as [Hall _].
  exact (conj H1 (conj H2 (conj H3 (conj H5 (conj Hlen Hall))))).
Defined.

(** C6: the three pagers of the specification. *)
Theorem makePageButtons_examples :
  makePageButtons 1 3 7 = [Page 1; Page 2; Page 3] /\
  makePageButtons 5 10 7
  = [Page 1; Ellipsis; Page 4; Page 5; Page 6; Ellipsis; Page 10] /\
  makePageButtons 1 1 7 = [Page 1].
Proof. repeat split. Qed.

End PagerContract.

(** ** [parseInt] reads back what [String] prints *)

Section ParseIntFacts.
Import Js.

Lemma safe_bounds z :
  safe z <-> -9007199254740991 <= z <= 9007199254740991.
Proof. reflexivity. Qed.

Lemma of_uint_acc_uint_acc d : forall acc,
  Z.pos (Pos.of_uint_acc d acc) = uint_acc d (Z.pos acc).
Proof.
  induction d; intros acc; simpl; try reflexivity;
    rewrite IHd; f_equal; lia.
Qed.

Lemma of_uint_uint_acc d : Z.of_N (Pos.of_uint d) = uint_acc d 0.
Proof.
  induction d; simpl; try reflexivity; try assumption;
    rewrite of_uint_acc_uint_acc; reflexivity.
Qed.

Lemma parse_digits_uint d : forall a,
  parse_digits 10 (NilEmpty.string_of_uint d) (Some a) = Some (uint_acc d a).
Proof.
  induction d; intros a; simpl; try reflexivity; apply IHd.
Qed.

Lemma parse_digits_uint_None d :
  d <> Decimal.Nil ->
  parse_digits 10 (NilEmpty.string_of_uint d) None = Some (uint_acc d 0).
Proof.
  destruct d; intros Hd; try congruence; simpl; apply parse_digits_uint.
Qed.

Lemma uint_no_hex_prefix d :
  strip_hex_prefix (NilEmpty.string_of_uint d) = None.
Proof. destruct d as [|d|d|d|d|d|d|d|d|d|d]; try reflexivity; destruct d; reflexivity. Qed.

Lemma uint_no_sign d :
  strip_sign (trim_start (NilEmpty.string_of_uint d))
  = (1, NilEmpty.string_of_uint d).
Proof. destruct d; reflexivity. Qed.

Lemma NilZero_nonnil d :
  d <> Decimal.Nil -> NilZero.string_of_uint d = NilEmpty.string_of_uint d.
Proof. destruct d; congruence || reflexivity. Qed.

Lemma parseInt_String_of_num z :
  parseInt (String_of_num (Int z)) None = Int z.
Proof.
  destruct z as [|p|p]; [reflexivity| |]; unfold String_of_num, Z.to_int; simpl NilZero.string_of_int.
  - pose proof (Unsigned.to_uint_nonnil p) as Hd.
    rewrite NilZero_nonnil by assumption.
    unfold parseInt. rewrite uint_no_sign. simpl.
    rewrite uint_no_hex_prefix, parse_digits_uint_None by assumption.
    rewrite <- of_uint_uint_acc, Unsigned.of_to. reflexivity.
  - pose proof (Unsigned.to_uint_nonnil p) as Hd.
    unfold NilZero.string_of_int.
    rewrite NilZero_nonnil by assumption.
    unfold parseInt. simpl.
    rewrite uint_no_hex_prefix, parse_digits_uint_None by assumption.
    rewrite <- of_uint_uint_acc, Unsigned.of_to. reflexivity.
Qed.
End ParseIntFacts.

(** ** [URLSearchParams]: [get] after [set] *)

Section UrlFacts.
Import Url.

Lemma get_remove_all_ne n n' p : n <> n' -> get n (remove_all n' p) = get n p.
Proof.
  intros Hne. induction p as [|[a b] r IH]; simpl; [reflexivity|].
  destruct (String.eqb_spec a n') as [->|Ha]; simpl.
  - rewrite IH. destruct (String.eqb_spec n' n); congruence.
  - rewrite IH. reflexivity.
Qed.

Lemma get_set_eq n v p : get n (set n v p) = Some v.
Proof.
  induction p as [|[a b] r IH]; simpl.
  - by rewrite String.eqb_refl.
  - destruct (String.eqb_spec a n) as [->|Ha]; simpl.
    + by rewrite String.eqb_refl.
    + destruct (String.eqb_spec a n); congruence.
Qed.

Lemma get_set_ne n n' v p : n <> n' -> get n (set n' v p) = get n p.
Proof.
  intros Hne. induction p as [|[a b] r IH]; simpl.
  - destruct (String.eqb_spec n' n); congruence.
  - destruct (String.eqb_spec a n') as [->|Ha]; simpl.
    + destruct (String.eqb_spec n' n); [congruence|].
      by apply get_remove_all_ne.
    + by rewrite IH.
Qed.

Lemma elem_of_set a b n v p : (a, b) ∈ set n v p -> (a, b) = (n, v) \/ (a, b) ∈ p.
Proof.
  induction p as [|[c d] r IH]; simpl.
  - rewrite elem_of_cons, elem_of_nil. tauto.
  - destruct (String.eqb_spec c n) as [->|Hc].
    + rewrite !elem_of_cons. intros [H|H]; [by left|].
      right. right. unfold remove_all in H.
      apply list_elem_of_In, filter_In in H as [H _]. by apply list_elem_of_In.
    + rewrite !elem_of_cons. intros [H|H]; [tauto|]. destruct (IH H); tauto.
Qed.
End UrlFacts.

(** ** Assignment to a computed key *)

Section AssignFacts.
Import Js.
Context {V : Type}.
Implicit Types (o : gmap string V) (k : string) (v : V).

Lemma assign_insert k v o :
  k <> "__proto__" \/ is_Some (o !! k) -> assign k v o = <[k := v]> o.
Proof.
  intros H. unfold assign.
  destruct (String.eqb_spec k "__proto__") as [->|Hk]; [|reflexivity].
  destruct H as [H|H]; [done|]. by rewrite bool_decide_eq_true_2.
Qed.

Lemma assign_proto v o :
  o !! "__proto__" = None -> assign "__proto__" v o = o.
Proof.
  intros H. unfold assign.
  rewrite bool_decide_eq_false_2; [reflexivity|].
  rewrite H. by intros [? ?].
Qed.

Lemma assign_cases k v o :
  (k = "__proto__" /\ o !! k = None /\ assign k v o = o) \/
  ((k <> "__proto__" \/ is_Some (o !! k)) /\ assign k v o = <[k := v]> o).
Proof.
  destruct (decide (k = "__proto__")) as [->|Hk].
  - destruct (decide (is_Some (o !! "__proto__"))) as [Ho|Ho].
    + right. split; [by right|].
      apply assign_insert. by right.
    + apply eq_None_not_Some in Ho. left. by rewrite assign_proto.
  - right. split; [by left|]. apply assign_insert. by left.
Qed.

Lemma assign_lookup k k' v o :
  assign k v o !! k'
  = if decide (k = k' /\ (k' <> "__proto__" \/ is_Some (o !! k')))
    then Some v else o !! k'.
Proof.
  destruct (assign_cases k v o) as [(-> & Ho & ->)|[Hk ->]].
  - rewrite decide_False; [reflexivity|].
    intros [<- [H|H]]; [done|]. rewrite Ho in H. by destruct H.
  - destruct (decide (k = k')) as [<-|Hne].
    + rewrite lookup_insert_eq. by rewrite decide_True.
    + rewrite lookup_insert_ne by assumption.
      rewrite decide_False; [reflexivity|]. by intros [? _].
Qed.

Lemma assign_id k v o : o !! k = Some v -> assign k v o = o.
Proof.
  intros H. rewrite assign_insert by (right; by rewrite H).
  by apply insert_id.
Qed.

Lemma assign_is_Some k k' v o :
  is_Some (o !! k') -> is_Some (assign k v o !! k').
Proof.
  intros H. rewrite assign_lookup. by destruct (decide _).
Qed.

Lemma assign_None_proto k v o :
  o !! "__proto__" = None -> assign k v o !! "__proto__" = None.
Proof.
  intros H. rewrite assign_lookup. rewrite decide_False; [assumption|].
  intros [_ [Hk|Hk]]; [done|]. rewrite H in Hk. by destruct Hk.
Qed.

End AssignFacts.

(** ** The codec: decoding what [defaultParams] encodes *)

Section CodecFacts.
Import Js Url Table.

Lemma or_string_empty s : or_string (Some s) "" = s.
Proof. by destruct s. Qed.

Lemma decode_num_roundtrip n :
  or_num (parseInt (or_string (Some (String_of_num n)) "") None) n = n.
Proof.
  rewrite or_string_empty. destruct n as [|z]; [reflexivity|].
  rewrite parseInt_String_of_num. unfold or_num. by destruct (truthy_num _).
Qed.

Lemma split_no_sep c s : occurs c s = false -> split c s = (s, []).
Proof.
  induction s as [|a r IH]; simpl; [reflexivity|].
  intros [Ha Hr]%orb_false_elim. rewrite IH, Ha by assumption. reflexivity.
Qed.

Lemma split_app_sep c k r :
  occurs c k = false ->
  split c (String.append k (String c r))
  = (k, let '(h, t) := split c r in h :: t).
Proof.
  induction k as [|a k IH]; simpl.
  - intros _. rewrite Ascii.eqb_refl. by destruct (split c r).
  - intros [Ha Hk]%orb_false_elim. rewrite IH, Ha by assumption. reflexivity.
Qed.

Lemma truthy_append_sep k c r : truthy (String.append k (String c r)) = true.
Proof. by destruct k. Qed.

Lemma decode_sort_roundtrip so fb :
  occurs ":" (key so) = false -> occurs ":" (dir so) = false ->
  truthy (dir so) = true ->
  decode_sort (Some (String.append (key so) (String ":" (dir so)))) fb = Some so.
Proof.
  intros Hk Hd Ht. unfold decode_sort.
  rewrite truthy_append_sep, split_app_sep, split_no_sep, Ht by assumption.
  by destruct so.
Qed.

Lemma strip_last_append c k : strip_last c (String.append k (String c "")) = Some k.
Proof.
  induction k as [|a k IH]; simpl.
  - by rewrite Ascii.eqb_refl.
  - rewrite IH. by destruct k.
Qed.

Lemma strip_prefix_append pre s :
  strip_prefix pre (String.append pre s) = Some s.
Proof.
  induction pre as [|a pre IH]; simpl; [by destruct s|].
  by rewrite Ascii.eqb_refl.
Qed.

Lemma match_filters_filter_name k m :
  match_filters (filter_name k) = Some m -> m = k.
Proof.
  unfold match_filters, filter_name.
  rewrite strip_prefix_append, strip_last_append.
  destruct (_ && _); congruence.
Qed.

(** Encoding the filters leaves the parameters of other names alone. *)
Lemma get_encode_filters n entries : forall p,
  (forall k, filter_name k <> n) ->
  get n (foldl encode_filter p entries) = get n p.
Proof.
  induction entries as [|[k v] r IH]; intros p Hn; simpl; [reflexivity|].
  rewrite IH by assumption. unfold encode_filter. simpl.
  destruct (encodable v); [|reflexivity].
  apply get_set_ne. intros ->. by apply (Hn k).
Qed.

Lemma elem_of_encode_filters a b entries : forall p,
  (a, b) ∈ foldl encode_filter p entries ->
  (a, b) ∈ p \/
  exists k v, (k, v) ∈ entries /\ encodable v = true /\
              a = filter_name k /\ b = String_of_value v.
Proof.
  induction entries as [|[k v] r IH]; intros p; simpl; [tauto|].
  intros [H|(k' & v' & H & ?)]%IH.
  - unfold encode_filter in H. simpl in H.
    destruct (encodable v) eqn:Hv; [|tauto].
    apply elem_of_set in H as [H|H]; [|tauto].
    right. exists k, v. rewrite elem_of_cons. simplify_eq. tauto.
  - right. exists k', v'. rewrite elem_of_cons. tauto.
Qed.

Lemma decode_filters_id q : forall f,
  (forall a b m, (a, b) ∈ q -> match_filters a = Some m -> f !! m = Some (VStr b)) ->
  foldl decode_filter f q = f.
Proof.
  induction q as [|[a b] r IH]; intros f Hq; simpl; [reflexivity|].
  assert (decode_filter f (a, b) = f) as ->.
  { unfold decode_filter. simpl. destruct (match_filters a) as [m|] eqn:Hm; [|reflexivity].
    apply assign_id. eapply Hq; [|eassumption]. apply elem_of_cons. by left. }
  apply IH. intros a' b' m H. apply Hq. apply elem_of_cons. by right.
Qed.

(** The round trip, for any enumeration [entries] of filters of [s]: the
    order in which [Object.entries] lists them does not matter. *)
Lemma readFromUrl_defaultParams_entries s entries :
  (forall so, sort s = Some so ->
     occurs ":" (key so) = false /\ occurs ":" (dir so) = false /\
     truthy (dir so) = true) ->
  (forall k v, filters s !! k = Some v -> encodable v = true ->
     exists str, v = VStr str) ->
  (forall k v, (k, v) ∈ entries -> filters s !! k = Some v) ->
  readFromUrl (Some (defaultParams_entries s entries)) s = s.
Proof.
  intros Hsort Hfil Hent. unfold readFromUrl, defaultParams_entries.
  set (p1 := set "page" _ []).
  set (p2 := set "pageSize" _ p1).
  set (p3 := if truthy (query s) then _ else _).
  set (p4 := match sort s with Some _ => _ | None => _ end).
  assert (Hget : forall n, (forall k, filter_name k <> n) ->
            get n (foldl encode_filter p4 entries) = get n p4).
  { intros n Hn. by apply get_encode_filters. }
  assert (Hpage : get "page" p4 = Some (String_of_num (page s))).
  { subst p4 p3 p2 p1. destruct (sort s), (truthy (query s));
      rewrite ?get_set_ne by discriminate; apply (get_set_eq _ _ []). }
  assert (HpageSize : get "pageSize" p4 = Some (String_of_num (pageSize s))).
  { subst p4 p3 p2. destruct (sort s), (truthy (query s));
      rewrite ?get_set_ne by discriminate; apply get_set_eq. }
  assert (Hq : default (query s) (get "q" p4) = query s).
  { subst p4 p3. destruct (sort s); rewrite ?get_set_ne by discriminate;
      destruct (truthy (query s)); rewrite ?get_set_eq; try reflexivity;
      subst p2 p1; simpl; reflexivity. }
  assert (Hs : decode_sort (get "sort" p4) (sort s) = sort s).
  { subst p4. destruct (sort s) as [so|] eqn:Hso.
    - rewrite get_set_eq. destruct (Hsort so eq_refl) as (? & ? & ?).
      by apply decode_sort_roundtrip.
    - subst p3 p2 p1. destruct (truthy (query s)); reflexivity. }
  rewrite !Hget by (intros k; discriminate).
  rewrite Hpage, HpageSize, Hq, Hs, !decode_num_roundtrip.
  rewrite decode_filters_id; [by destruct s|].
  intros a b m [H|(k & v & Hkv & Henc & -> & ->)]%elem_of_encode_filters Hm.
  - exfalso. subst p4 p3 p2 p1.
    destruct (sort s), (truthy (query s));
      repeat (apply elem_of_set in H as [H|H]; [by simplify_eq|]);
      by apply elem_of_nil in H.
  - apply match_filters_filter_name in Hm as ->.
    apply Hent in Hkv. destruct (Hfil _ _ Hkv Henc) as [str ->]. by rewrite Hkv.
Qed.

(** C1 (as amended): for every valid state whose page is a safe integer
    and whose sort key, when there is a sort, contains no colon, decoding
    the parameters that [defaultParams] produces, with the state itself as
    fallback, gives the state back: page, page size, query, sort and
    filters. *)
Theorem readFromUrl_defaultParams_roundtrip s :
  valid s ->
  safe_num (page s) ->
  (forall so, sort s = Some so -> occurs ":" (key so) = false) ->
  readFromUrl (Some (defaultParams s)) s = s.
Proof.
  intros (_ & _ & Hdir & Hfil) _ Hkey.
  apply readFromUrl_defaultParams_entries.
  - intros so Hso. split; [by apply Hkey|].
    destruct (Hdir so Hso) as [-> | ->]; by split.
  - intros k v Hkv _. destruct (Hfil k v Hkv) as (str & -> & _). by exists str.
  - intros k v Hkv. by apply elem_of_map_to_list.
Qed.

Lemma valid_sample_state : valid Samples.sample_state.
Proof.
  repeat split.
  - exists 3. by split.
  - exists 20. split; [reflexivity|]. unfold allowed_page_sizes. set_solver.
  - intros so [= <-]. by right.
  - intros k v Hkv. unfold Samples.sample_state in Hkv. simpl in Hkv.
    apply lookup_insert_Some in Hkv as [[_ <-]|[_ Hkv]]; [by eexists|].
    apply lookup_insert_Some in Hkv as [[_ <-]|[_ Hkv]]; [by eexists|].
    by rewrite lookup_empty in Hkv.
Qed.

Lemma readFromUrl_defaultParams_roundtrip_witness :
  valid Samples.sample_state /\
  safe_num (page Samples.sample_state) /\
  (forall so, sort Samples.sample_state = Some so ->
     occurs ":" (key so) = false) /\
  readFromUrl (Some (defaultParams Samples.sample_state)) Samples.sample_state
  = Samples.sample_state.
Proof.
  assert (Hkey : forall so, sort Samples.sample_state = Some so ->
                   occurs ":" (key so) = false).
  { intros so [= <-]. reflexivity. }
  assert (Hpage : safe_num (page Samples.sample_state)).
  { apply safe_bounds. lia. }
  split; [exact valid_sample_state|]. split; [exact Hpage|].
  split; [exact Hkey|].
  exact (readFromUrl_defaultParams_roundtrip Samples.sample_state
           valid_sample_state Hpage Hkey).
Defined.

(** C1 (as stated) fails: a valid state whose sort key holds a colon does
    not survive the round trip, since the decoder cuts the [sort] parameter
    at its first colon. *)
Lemma roundtrip_fails_on_colon_key :
  valid Samples.colon_state /\
  readFromUrl (Some (defaultParams Samples.colon_state)) Samples.colon_state
  <> Samples.colon_state.
Proof.
  split.
  - repeat split.
    + exists 1. by split.
    + exists 10. split; [reflexivity|]. unfold allowed_page_sizes. set_solver.
    + intros so [= <-]. by left.
    + intros k v Hkv. unfold Samples.colon_state in Hkv. simpl in Hkv.
      by rewrite lookup_empty in Hkv.
  - intros H. apply (f_equal sort) in H. vm_compute in H. discriminate.
Qed.

Example colon_state_decoded_sort :
  sort (readFromUrl (Some (defaultParams Samples.colon_state)) Samples.colon_state)
  = Some (mkSort "a" "b").
Proof. vm_compute. reflexivity. Qed.

End CodecFacts.

(** ** Decoding merges the filters of the URL into the fallback *)

Section MergeFacts.
Import Js Url Table.

Lemma overlay_pair_union f kv :
  overlay_pair f kv = overlay_pair ∅ kv ∪ f.
Proof.
  unfold overlay_pair. destruct (match_filters (fst kv)) as [m|].
  - by rewrite insert_union_singleton_l, insert_empty.
  - by rewrite (left_id_L ∅ (∪)).
Qed.

Lemma overlay_union q : forall f,
  foldl overlay_pair f q = url_filters q ∪ f.
Proof.
  unfold url_filters.
  induction q as [|kv r IH]; intros f; simpl.
  - by rewrite (left_id_L ∅ (∪)).
  - rewrite IH, (IH (overlay_pair ∅ kv)), (overlay_pair_union f).
    by rewrite (assoc_L (∪)).
Qed.

(** What the decoder stores under [k] is what the overlay has there, for
    a name other than [__proto__], and for that one when the filters hold
    it already. *)
Lemma decode_filters_overlay q k : forall f g,
  f !! k = g !! k -> k <> "__proto__" \/ is_Some (f !! k) ->
  foldl decode_filter f q !! k = foldl overlay_pair g q !! k.
Proof.
  induction q as [|[n v] r IH]; intros f g Hfg Hk; simpl; [exact Hfg|].
  apply IH.
  - unfold decode_filter, overlay_pair. simpl.
    destruct (match_filters n) as [m|]; [|exact Hfg].
    rewrite assign_lookup.
    destruct (decide (m = k)) as [->|Hne].
    + rewrite decide_True by done. by rewrite lookup_insert_eq.
    + rewrite decide_False by (by intros [? _]).
      by rewrite lookup_insert_ne.
  - destruct Hk as [Hk|Hk]; [by left|right].
    unfold decode_filter. simpl.
    destruct (match_filters n) as [m|]; [|exact Hk].
    by apply assign_is_Some.
Qed.

Lemma decode_filters_absent q k : forall f,
  (forall n v, (n, v) ∈ q -> match_filters n <> Some k) ->
  foldl decode_filter f q !! k = f !! k.
Proof.
  induction q as [|[n v] r IH]; intros f Hq; simpl; [reflexivity|].
  rewrite IH by (intros n' v' H; apply (Hq n' v'), elem_of_cons; by right).
  unfold decode_filter. simpl.
  destruct (match_filters n) as [m|] eqn:Hm; [|reflexivity].
  rewrite assign_lookup. rewrite decide_False; [reflexivity|].
  intros [-> _]. apply (Hq n v); [|assumption].
  apply elem_of_cons. by left.
Qed.

Lemma decode_filters_is_Some q k : forall f,
  is_Some (f !! k) -> is_Some (foldl decode_filter f q !! k).
Proof.
  induction q as [|[n v] r IH]; intros f Hf; simpl; [exact Hf|].
  apply IH. unfold decode_filter. simpl.
  destruct (match_filters n) as [m|]; [|exact Hf]. by apply assign_is_Some.
Qed.

(** A pair named [filters[__proto__]] is not stored in filters that have
    no such name. *)
Lemma decode_filters_proto q : forall f,
  f !! "__proto__" = None -> foldl decode_filter f q !! "__proto__" = None.
Proof.
  induction q as [|[n v] r IH]; intros f Hf; simpl; [exact Hf|].
  apply IH. unfold decode_filter. simpl.
  destruct (match_filters n) as [m|]; [|exact Hf]. by apply assign_None_proto.
Qed.

Lemma decode_filters_last q1 n v q2 k f :
  match_filters n = Some k ->
  (forall n' v', (n', v') ∈ q2 -> match_filters n' <> Some k) ->
  k <> "__proto__" \/ is_Some (f !! k) ->
  foldl decode_filter f (q1 ++ (n, v) :: q2) !! k = Some (VStr v).
Proof.
  intros Hn Hq2 Hk. rewrite foldl_app. simpl.
  rewrite decode_filters_absent by assumption.
  unfold decode_filter at 1. simpl. rewrite Hn.
  rewrite assign_insert; [apply lookup_insert_eq|].
  destruct Hk as [Hk|Hk]; [by left|right]. by apply decode_filters_is_Some.
Qed.

(** C9 (as amended): the filters [readFromUrl] returns are the fallback's
    filters overlaid with the [filters[name]=value] pairs of the query,
    for every name but [__proto__]: for a name that occurs in the query,
    the value of its last pair; for any other name, what the fallback has.
    A pair named [filters[__proto__]] is overlaid like the others when the
    fallback has a filter of that name, and is dropped when it has none.
    So the filters are the overlay itself when the fallback has that name
    or the query does not.  No filter of the fallback is ever removed,
    whether there is a URL or not. *)
Theorem readFromUrl_merges_filters (q : URLSearchParams) (fallback : State) :
  (forall k,
     k <> "__proto__" \/ is_Some (filters fallback !! k) ->
     filters (readFromUrl (Some q) fallback) !! k
     = (url_filters q ∪ filters fallback) !! k) /\
  (is_Some (filters fallback !! "__proto__")
   \/ url_filters q !! "__proto__" = None ->
   filters (readFromUrl (Some q) fallback) = url_filters q ∪ filters fallback) /\
  (forall q1 n v q2 k,
     q = q1 ++ (n, v) :: q2 -> match_filters n = Some k ->
     (forall n' v', (n', v') ∈ q2 -> match_filters n' <> Some k) ->
     k <> "__proto__" \/ is_Some (filters fallback !! k) ->
     filters (readFromUrl (Some q) fallback) !! k = Some (VStr v)) /\
  (forall k,
     (forall n v, (n, v) ∈ q -> match_filters n <> Some k) ->
     filters (readFromUrl (Some q) fallback) !! k = filters fallback !! k) /\
  (filters fallback !! "__proto__" = None ->
   filters (readFromUrl (Some q) fallback) !! "__proto__" = None) /\
  (forall window k,
     is_Some (filters fallback !! k) ->
     is_Some (filters (readFromUrl window fallback) !! k)).
Proof.
  assert (Hover : forall k,
            k <> "__proto__" \/ is_Some (filters fallback !! k) ->
            foldl decode_filter (filters fallback) q !! k
            = (url_filters q ∪ filters fallback) !! k).
  { intros k Hk. rewrite <- overlay_union. by apply decode_filters_overlay. }
  split; [exact Hover|].
  split; [|split; [|split; [|split]]].
  - intros Hproto. apply map_eq. intros k. simpl.
    destruct (decide (k = "__proto__")) as [->|Hk]; [|apply Hover; by left].
    destruct Hproto as [Hfb|Hq]; [apply Hover; by right|].
    destruct (filters fallback !! "__proto__") as [x|] eqn:Hx.
    + apply Hover. right. by rewrite Hx.
    + rewrite decode_filters_proto by assumption.
      symmetry. apply lookup_union_None. by split.
  - intros q1 n v q2 k -> Hn Hq2 Hk. simpl. by apply decode_filters_last.
  - intros k Hq. simpl. by apply decode_filters_absent.
  - intros Hfb. simpl. by apply decode_filters_proto.
  - intros [q'|] k Hk; [|assumption]. simpl. by apply decode_filters_is_Some.
Qed.

Lemma readFromUrl_merges_filters_witness :
  filters (readFromUrl (Some Samples.trial_url) Samples.sample_state) !! "status"
  = Some (VStr "trial") /\
  filters (readFromUrl (Some Samples.trial_url) Samples.sample_state) !! "company"
  = filters Samples.sample_state !! "company".
Proof.
  destruct (readFromUrl_merges_filters Samples.trial_url Samples.sample_state)
    as (_ & _ & Hlast & Habsent & _).
  split.
  - apply (Hlast [("page", "2")] "filters[status]" "trial" []);
      [reflexivity|reflexivity| |by left].
    intros n v H. by apply elem_of_nil in H.
  - apply Habsent. intros n v H.
    apply elem_of_cons in H as [[= -> ->]|H]; [by vm_compute|].
    apply elem_of_cons in H as [[= -> ->]|H]; [by vm_compute|].
    by apply elem_of_nil in H.
Defined.

(** C9 (as stated) fails: the pair [filters[__proto__]=x] of a URL is not
    overlaid on a fallback without filters.  The assignment reaches the
    accessor of [Object.prototype], and the decoded filters have no such
    name. *)
Lemma merge_drops_proto_pair :
  url_filters Samples.proto_url !! "__proto__" = Some (VStr "x") /\
  filters (readFromUrl (Some Samples.proto_url) Samples.plain_state) !! "__proto__"
  = None /\
  filters (readFromUrl (Some Samples.proto_url) Samples.plain_state)
  <> url_filters Samples.proto_url ∪ filters Samples.plain_state.
Proof.
  split; [by vm_compute|]. split; [by vm_compute|].
  intros H. apply (f_equal (fun f => f !! "__proto__")) in H.
  vm_compute in H. discriminate.
Qed.

Example readFromUrl_merges_sample :
  let q := [("page", "2"); ("filters[status]", "trial");
            ("filters[status]", "churned"); ("filters[]", "x")] in
  let st := readFromUrl (Some q) Samples.sample_state in
  filters st !! "status" = Some (VStr "churned") /\
  filters st !! "company" = Some (VStr "Epsilon") /\
  filters st !! "" = None /\
  page st = Int 2 /\ pageSize st = Int 20.
Proof. vm_compute. repeat split. Qed.

(** With a filter of that name in the fallback, the pair is stored. *)
Example readFromUrl_proto_own :
  filters (readFromUrl (Some Samples.proto_url)
             (setFilter "__proto__" (VStr "y") Samples.plain_state))
  !! "__proto__"
  = Some (VStr "x").
Proof. by vm_compute. Qed.

End MergeFacts.

(** ** The setters *)

Section SetterFacts.
Import Js Table.

(** C3: [setQuery], [setFilter] and [clearFilters] leave the page at 1,
    whatever it was before (so in particular when it was above 1), and
    otherwise change only the query, the one filter entry, or the filters,
    which become empty. *)
Theorem page_reset_invariant (s : State) :
  (forall q,
     page (setQuery q s) = Int 1 /\ query (setQuery q s) = q /\
     pageSize (setQuery q s) = pageSize s /\ sort (setQuery q s) = sort s /\
     filters (setQuery q s) = filters s) /\
  (forall k v,
     page (setFilter k v s) = Int 1 /\
     filters (setFilter k v s) !! k = Some v /\
     (forall k', k' <> k -> filters (setFilter k v s) !! k' = filters s !! k') /\
     pageSize (setFilter k v s) = pageSize s /\
     query (setFilter k v s) = query s /\ sort (setFilter k v s) = sort s) /\
  (page (clearFilters s) = Int 1 /\ filters (clearFilters s) = ∅ /\
   pageSize (clearFilters s) = pageSize s /\
   query (clearFilters s) = query s /\ sort (clearFilters s) = sort s).
Proof.
  repeat split; simpl.
  - apply lookup_insert_eq.
  - intros k' Hk. by apply lookup_insert_ne.
Qed.

Lemma page_reset_invariant_witness :
  page (setFilter "status" VUndefined Samples.sample_state) = Int 1 /\
  filters (setFilter "status" VUndefined Samples.sample_state) !! "company"
  = filters Samples.sample_state !! "company".
Proof.
  destruct (page_reset_invariant Samples.sample_state) as (_ & Hfilter & _).
  destruct (Hfilter "status" VUndefined) as (Hpage & _ & Hother & _).
  split; [exact Hpage|]. apply Hother. discriminate.
Defined.

(** C10: [setPageSize(n)] changes the page size and nothing else; the
    page stays where it was. *)
Theorem setPageSize_frame (s : State) (n : num) :
  pageSize (setPageSize n s) = n /\
  page (setPageSize n s) = page s /\
  query (setPageSize n s) = query s /\
  sort (setPageSize n s) = sort s /\
  filters (setPageSize n s) = filters s.
Proof. repeat split. Qed.

Example setPageSize_keeps_page_3 :
  page (setPageSize (Int 50) Samples.sample_state) = Int 3 /\
  page (setQuery "al" Samples.sample_state) = Int 1.
Proof. split; reflexivity. Qed.

(** Clearing the filters twice is clearing them once. *)
Lemma clearFilters_idempotent s : clearFilters (clearFilters s) = clearFilters s.
Proof. reflexivity. Qed.

End SetterFacts.

(** ** The fetch coordinator *)

Section FetchFacts.
Import Js Url Table Fetch.
Context {T J : Type} (cfg : Config T J).

Implicit Types (h : Hook T) (o : settled J) (id : Z).

Lemma refresh_id s dq h : fst (refresh cfg s dq h) = latest h + 1.
Proof. reflexivity. Qed.

(** The hook that [refresh] leaves: loading, without error, the rows and
    the total as they were. *)
Lemma refresh_hook s dq h :
  snd (refresh cfg s dq h)
  = mkHook (latest h + 1) (rows h) (total h) true None.
Proof.
  unfold refresh, refresh_effects. simpl.
  by destruct (request_params _ _).
Qed.

Lemma refresh_latest s dq h :
  latest (snd (refresh cfg s dq h)) = fst (refresh cfg s dq h).
Proof. by rewrite refresh_hook. Qed.

(** A settlement never moves the counter. *)
Lemma run_latest h es : latest (run h es) = latest h.
Proof.
  unfold run. revert h.
  induction es as [|e es IH]; intros h; simpl; [reflexivity|].
  rewrite IH. by destruct e.
Qed.

Lemma settle_latest id o h : latest (settle cfg id o h) = latest h.
Proof. apply run_latest. Qed.

(** A stale completion makes no call at all: [parse] is not even called. *)
Lemma settle_effects_stale id current o :
  id <> current -> settle_effects cfg id current o = [].
Proof.
  intros Hne. unfold settle_effects, then_apply, catch_error, finally_loading.
  rewrite (proj2 (Z.eqb_neq id current)) by assumption.
  destruct (then_json o); [reflexivity|]. by rewrite decide_True.
Qed.

Lemma settle_stale id o h : id <> latest h -> settle cfg id o h = h.
Proof. intros Hne. unfold settle. by rewrite settle_effects_stale. Qed.

(** The calls of the completion of the current request: those of [catch]
    when something was thrown on the way, and the two setters of the
    response otherwise; then the one of [finally]. *)
Lemma settle_effects_caught current o e :
  caught cfg o = Some e ->
  settle_effects cfg current current o
  = catch_error current current e ++ [SetLoading false].
Proof.
  unfold caught, settle_effects, then_apply, finally_loading.
  rewrite Z.eqb_refl.
  destruct (then_json o) as [e'|json]; [by intros [= <-]|].
  rewrite decide_False by auto.
  destruct (parse cfg json) as [e'|[items n]]; [by intros [= <-]|discriminate].
Qed.

Lemma settle_effects_returned current o json items n :
  then_json o = inr json -> parse cfg json = inr (items, n) ->
  settle_effects cfg current current o
  = [SetRows items; SetTotal n; SetLoading false].
Proof.
  intros Ho Hp. unfold settle_effects, then_apply, finally_loading.
  by rewrite Ho, Z.eqb_refl, decide_False, Hp by auto.
Qed.

Lemma caught_None o :
  caught cfg o = None ->
  exists json items n, then_json o = inr json /\ parse cfg json = inr (items, n).
Proof.
  unfold caught. destruct (then_json o) as [e|json]; [discriminate|].
  destruct (parse cfg json) as [e|[items n]] eqn:Hp; [discriminate|].
  intros _. by exists json, items, n.
Qed.

(** The current request's response, once read and parsed, is what is
    shown. *)
Lemma settle_current_json o h json items n :
  then_json o = inr json -> parse cfg json = inr (items, n) ->
  settle cfg (latest h) o h = mkHook (latest h) items n false (error h).
Proof.
  intros Ho Hp. unfold settle.
  by rewrite (settle_effects_returned _ o json items n Ho Hp).
Qed.

(** When something is thrown for the current request, its rows and its
    total stay. *)
Lemma settle_current_caught o h e :
  caught cfg o = Some e ->
  rows (settle cfg (latest h) o h) = rows h /\
  total (settle cfg (latest h) o h) = total h /\
  loading (settle cfg (latest h) o h) = false.
Proof.
  intros Hc. unfold settle. rewrite (settle_effects_caught _ o e Hc).
  unfold catch_error. rewrite Z.eqb_refl.
  destruct e as [e|]; [destruct (decide _)|]; by repeat split.
Qed.

(** C2: a completion whose id is not the current counter makes no call
    (no setter runs, no error is set) and leaves the hook as it is.  So,
    when A is issued, then B, then B settles and A settles after it, what
    is shown is what B left: the rows and the total of B's response when B
    succeeded and [parse] returned them, and the rows and the total of
    before when B failed.  The same holds when A settles first. *)
Theorem latest_wins (h : Hook T) sA dqA sB dqB (oA oB : settled J) :
  let a := fst (refresh cfg sA dqA h) in
  let hA := snd (refresh cfg sA dqA h) in
  let b := fst (refresh cfg sB dqB hA) in
  let hB := snd (refresh cfg sB dqB hA) in
  (forall id o h', id <> latest h' ->
     settle_effects cfg id (latest h') o = [] /\ settle cfg id o h' = h') /\
  a <> b /\ latest hB = b /\
  settle cfg a oA (settle cfg b oB hB) = settle cfg b oB hB /\
  settle cfg b oB (settle cfg a oA hB) = settle cfg b oB hB /\
  (forall json items n,
     then_json oB = inr json -> parse cfg json = inr (items, n) ->
     rows (settle cfg a oA (settle cfg b oB hB)) = items /\
     total (settle cfg a oA (settle cfg b oB hB)) = n) /\
  (forall e, caught cfg oB = Some e ->
     rows (settle cfg a oA (settle cfg b oB hB)) = rows h /\
     total (settle cfg a oA (settle cfg b oB hB)) = total h).
Proof.
  intros a hA b hB.
  assert (Hab : a <> b).
  { subst a b hA. rewrite !refresh_id, refresh_hook. simpl. lia. }
  assert (Hb : latest hB = b) by apply refresh_latest.
  assert (HB : rows hB = rows h /\ total hB = total h).
  { subst hB hA. by rewrite !refresh_hook. }
  assert (HA : forall h', latest h' = b -> settle cfg a oA h' = h').
  { intros h' Hh'. apply settle_stale. congruence. }
  split; [|split; [exact Hab|split; [exact Hb|split; [|split; [|split]]]]].
  - intros id o h' Hid.
    split; [by apply settle_effects_stale|by apply settle_stale].
  - apply HA. by rewrite settle_latest.
  - by rewrite (HA hB Hb).
  - intros json items n Ho Hp.
    rewrite HA by (by rewrite settle_latest). rewrite <- Hb.
    by rewrite (settle_current_json oB hB json items n Ho Hp).
  - intros e Hc. rewrite HA by (by rewrite settle_latest). rewrite <- Hb.
    destruct (settle_current_caught oB hB e Hc) as (-> & -> & _). exact HB.
Qed.

(** Closes a goal whose hypothesis [H] finds a call in a list that does not
    hold it. *)
Ltac no_such_call H :=
  repeat (apply elem_of_cons in H as [H|H]; [discriminate H|]);
  by apply elem_of_nil in H.

(** [refresh] calls the two setters, then [fetch], once at most. *)
Lemma refresh_effects_order s dq :
  exists calls,
    refresh_effects cfg s dq = [SetLoading true; SetError None] ++ calls /\
    (calls = [] \/ exists params, calls = [FetchCall (endpoint cfg) params]).
Proof.
  unfold refresh_effects. destruct (request_params _ _) as [e|params].
  - exists []. split; [reflexivity|by left].
  - eexists. split; [reflexivity|]. right. by eexists.
Qed.

Lemma refresh_effects_default s dq :
  buildParams cfg = None ->
  refresh_effects cfg s dq
  = [SetLoading true; SetError None;
     FetchCall (endpoint cfg)
       (defaultParams (mkState (page s) (pageSize s) dq (sort s) (filters s)))].
Proof. intros H. unfold refresh_effects, request_params. by rewrite H. Qed.

(** [catch] sets the error it gets, unless that is an [AbortError], or
    [null] or [undefined]. *)
Lemma catch_error_sets current e e' :
  SetError e' ∈ catch_error (T := T) current current e <->
  exists x, e = Some x /\ e' = Some x /\ ~ is_abort x.
Proof.
  unfold catch_error, is_abort. rewrite Z.eqb_refl.
  destruct e as [x|]; [destruct (decide (name x = Some "AbortError")) as [Hx|Hx]|].
  - split; [intros H; no_such_call H|]. intros (y & [= <-] & _ & Hy). done.
  - rewrite elem_of_cons, elem_of_nil. split.
    + intros [[= ->]|[]]. by exists x.
    + intros (y & [= <-] & -> & _). by left.
  - split; [intros H; no_such_call H|]. by intros (y & [=] & _).
Qed.

Lemma catch_error_stale id current e :
  id <> current -> catch_error (T := T) id current e = [].
Proof.
  intros Hne. unfold catch_error.
  by rewrite (proj2 (Z.eqb_neq id current)).
Qed.

Lemma finally_loading_no_error id current e :
  SetError e ∉ finally_loading (T := T) id current.
Proof.
  unfold finally_loading.
  destruct (id =? current); intros H; no_such_call H.
Qed.

(** The error that the completion of the current request sets, if any. *)
Lemma settle_effects_sets current o e' :
  SetError e' ∈ settle_effects cfg current current o <->
  exists x, caught cfg o = Some (Some x) /\ e' = Some x /\ ~ is_abort x.
Proof.
  destruct (caught cfg o) as [e|] eqn:Hc.
  - rewrite (settle_effects_caught _ o e Hc), elem_of_app, catch_error_sets.
    split.
    + intros [(x & -> & -> & Hx)|H]; [by exists x|no_such_call H].
    + intros (x & [= ->] & -> & Hx). left. by exists x.
  - destruct (caught_None o Hc) as (json & items & n & Ho & Hp).
    rewrite (settle_effects_returned _ o json items n Ho Hp).
    split; [intros H; no_such_call H|]. by intros (x & [=] & _).
Qed.

(** What was thrown, when something was: the status was outside 2xx, the
    request failed, or [parse] threw. *)
Lemma caught_cases o e :
  caught cfg o = Some (Some e) <->
  (exists statusText json,
     o = Fulfilled (Response false statusText json)
     /\ e = mkError "Error" statusText)
  \/ failed_with e o \/ parse_throws cfg e o.
Proof.
  unfold caught, failed_with, parse_throws.
  destruct o as [[ok st body]|e0]; simpl.
  - destruct ok; simpl.
    + destruct body as [e1|json]; simpl.
      * split.
        -- intros [= ->]. right. left. right. by exists st.
        -- intros [(? & ? & [=] & _)|[[[=]|(? & [= _ ->])]|(? & [=] & _)]].
           reflexivity.
      * split.
        -- destruct (parse cfg json) as [x|[items n]] eqn:Hp; [|discriminate].
           intros [= ->]. right. right. by exists json.
        -- intros [(? & ? & [=] & _)|[[[=]|(? & [=])]|(j & [= <-] & ->)]].
           reflexivity.
    + split.
      * intros [= <-]. left. by exists st, body.
      * intros [(? & ? & [= <- <-] & ->)|[[[=]|(? & [=])]|(? & [=] & _)]].
        reflexivity.
  - split.
    + intros [= ->]. right. left. by left.
    + intros [(? & ? & [=] & _)|[[[= ->]|(? & [=])]|(? & [=] & _)]].
      reflexivity.
Qed.

(** C8 (as amended): [refresh] sets the error to [null] before it calls
    [fetch], which gets the parameters of the state when the configuration
    has no [buildParams]; so the hook it leaves has no error.  When the request that is
    still the current one settles, an error is set exactly when the
    response had a status outside 2xx, or the request failed, or [parse]
    threw on the body of the response, with an error that is not an
    [AbortError]; it is then the error shown.  Otherwise the error stays
    as it was, and a cancellation sets no error, for any request. *)
Theorem fetch_error_discipline (h : Hook T) s dq :
  (exists calls,
     refresh_effects cfg s dq = [SetLoading true; SetError None] ++ calls /\
     (calls = [] \/ exists params, calls = [FetchCall (endpoint cfg) params])) /\
  (buildParams cfg = None ->
   refresh_effects cfg s dq
   = [SetLoading true; SetError None;
      FetchCall (endpoint cfg)
        (defaultParams (mkState (page s) (pageSize s) dq (sort s) (filters s)))]) /\
  error (snd (refresh cfg s dq h)) = None /\
  (forall o h',
     let es := settle_effects cfg (latest h') (latest h') o in
     ((exists e, SetError (Some e) ∈ es) <->
      (non_2xx o
       \/ exists e, (failed_with e o \/ parse_throws cfg e o) /\ ~ is_abort e)) /\
     (SetError None ∉ es) /\
     (forall e, SetError (Some e) ∈ es ->
        error (settle cfg (latest h') o h') = Some e) /\
     ((forall e, SetError (Some e) ∉ es) ->
        error (settle cfg (latest h') o h') = error h')) /\
  (forall id current o e e',
     failed_with e o \/ parse_throws cfg e o -> is_abort e ->
     SetError e' ∉ settle_effects cfg id current o).
Proof.
  split; [apply refresh_effects_order|].
  split; [apply refresh_effects_default|].
  split; [by rewrite refresh_hook|].
  split.
  - intros o h' es. subst es.
    split; [|split; [|split]].
    + split.
      * intros (e & (x & Hc & [= <-] & Hx)%settle_effects_sets).
        apply caught_cases in Hc as [(st & body & -> & _)|Hc].
        -- left. by exists st, body.
        -- right. by exists e.
      * intros [(st & body & ->)|(e & He & Hab)].
        -- exists (mkError "Error" st). apply settle_effects_sets.
           exists (mkError "Error" st). split; [reflexivity|]. by split.
        -- exists e. apply settle_effects_sets. exists e.
           split; [|by split]. apply caught_cases. by right.
    + by intros (x & _ & [=] & _)%settle_effects_sets.
    + intros e (x & Hc & [= <-] & Hx)%settle_effects_sets.
      unfold settle. rewrite (settle_effects_caught _ o (Some e) Hc).
      unfold catch_error. rewrite Z.eqb_refl, decide_False by exact Hx.
      reflexivity.
    + intros Hno. unfold settle.
      destruct (caught cfg o) as [e|] eqn:Hc.
      * rewrite (settle_effects_caught _ o e Hc).
        unfold catch_error. rewrite Z.eqb_refl.
        destruct e as [x|]; [|reflexivity].
        destruct (decide (name x = Some "AbortError")) as [Hx|Hx]; [reflexivity|].
        exfalso. apply (Hno x), settle_effects_sets. by exists x.
      * destruct (caught_None o Hc) as (json & items & n & Ho & Hp).
        by rewrite (settle_effects_returned _ o json items n Ho Hp).
  - intros id current o e e' He Hab.
    destruct (decide (id = current)) as [->|Hne].
    + intros (x & Hc & _ & Hx)%settle_effects_sets.
      assert (Hc' : caught cfg o = Some (Some e))
        by (apply caught_cases; by right).
      rewrite Hc in Hc'. by simplify_eq.
    + rewrite settle_effects_stale by assumption. by intros H%elem_of_nil.
Qed.

End FetchFacts.

Section FetchSamples.
Import Js Table Fetch.

Lemma latest_wins_witness :
  settle Samples.sample_config 1 (Fulfilled (Response true "OK" (inr (["stale"], Int 1))))
    (settle Samples.sample_config 2 (Fulfilled (Response true "OK" (inr (["fresh"], Int 7))))
       (snd (refresh Samples.sample_config Samples.sample_state "bob"
          (snd (refresh Samples.sample_config Samples.sample_state "bo"
             Samples.initial_hook)))))
  = mkHook 2 ["fresh"] (Int 7) false None.
Proof.
  destruct (latest_wins Samples.sample_config Samples.initial_hook
              Samples.sample_state "bo" Samples.sample_state "bob"
              (Fulfilled (Response true "OK" (inr (["stale"], Int 1))))
              (Fulfilled (Response true "OK" (inr (["fresh"], Int 7)))))
    as (Hstale & _ & _ & HafterB & _ & _).
  etransitivity; [exact HafterB|]. reflexivity.
Defined.

Lemma fetch_error_discipline_witness :
  error (settle Samples.sample_config 1 (Rejected Samples.network_error)
           (snd (refresh Samples.sample_config Samples.sample_state "bob"
              Samples.initial_hook)))
  = Some Samples.network_error /\
  SetError (Some Samples.abort_error)
  ∉ settle_effects Samples.sample_config 1 1 (Rejected Samples.abort_error).
Proof.
  destruct (fetch_error_discipline Samples.sample_config Samples.initial_hook
              Samples.sample_state "bob") as (_ & _ & _ & Hcurrent & Habort).
  split.
  - destruct (Hcurrent (Rejected Samples.network_error)
                (snd (refresh Samples.sample_config Samples.sample_state "bob"
                   Samples.initial_hook))) as (_ & _ & Hset & _).
    apply Hset. apply elem_of_cons. by left.
  - apply (Habort 1 1 (Rejected Samples.abort_error) Samples.abort_error).
    + left. by left.
    + reflexivity.
Defined.

(** C8 (as stated) fails: the response has status 200 and its body, [null],
    is read without failure, so the response is not outside 2xx and the
    request did not fail; but [parse] throws a [TypeError] on [null], the
    [catch] of the chain gets it, and the error is set. *)
Lemma parse_error_sets_error :
  let o := Fulfilled (Response true "OK" (inr None)) in
  let h := snd (refresh Samples.table_config Samples.sample_state "bob"
                  Samples.initial_hook) in
  SetError (Some Samples.null_error)
  ∈ settle_effects Samples.table_config (latest h) (latest h) o /\
  error (settle Samples.table_config (latest h) o h) = Some Samples.null_error /\
  ~ (non_2xx o \/ exists e, failed_with e o /\ ~ is_abort e).
Proof.
  split; [apply elem_of_cons; by left|]. split; [reflexivity|].
  intros [(st & body & [=])|(e & [[=]|(st & [=])] & _)].
Qed.

Example non_2xx_sets_error :
  error (settle Samples.sample_config 1
           (Fulfilled (Response false "Not Found" (inr ([], Int 0))))
           (snd (refresh Samples.sample_config Samples.sample_state "bob"
              Samples.initial_hook)))
  = Some (mkError "Error" "Not Found").
Proof. reflexivity. Qed.

(** A thrown [null] sets no error: reading [e.name] fails in [catch]; and
    the loading flag still goes down. *)
Example thrown_null_sets_nothing :
  let cfg := mkConfig "/api" (fun _ : unit => inl None) None in
  settle cfg 1 (Fulfilled (Response true "OK" (inr ())))
    (snd (refresh cfg Samples.sample_state "" Samples.initial_hook))
  = mkHook 1 [] (Int 0) false None.
Proof. reflexivity. Qed.

End FetchSamples.

(** ** Sorting and slicing *)

Section ArrayFacts.
Import Js.
Context {A : Type}.
Implicit Types (l : list A) (cmp : A -> A -> Z).

Lemma sort_insert_perm cmp x l : sort_insert cmp x l ≡ₚ x :: l.
Proof.
  induction l as [|y r IH]; simpl; [reflexivity|].
  destruct (cmp x y <=? 0); [reflexivity|].
  rewrite IH. apply Permutation_swap.
Qed.

Lemma Array_sort_perm cmp l : Array_sort cmp l ≡ₚ l.
Proof.
  induction l as [|x r IH]; simpl; [reflexivity|].
  by rewrite sort_insert_perm, IH.
Qed.

Lemma Array_sort_length cmp l : length (Array_sort cmp l) = length l.
Proof. by rewrite Array_sort_perm. Qed.

(** For a comparator that never puts two elements both ways round, the
    result is in order: no element is followed by one that [cmp] puts
    before it. *)
Lemma sort_insert_sorted cmp x l :
  (forall a b, 0 < cmp a b -> cmp b a <= 0) ->
  Sorted (fun a b => cmp a b <= 0) l ->
  Sorted (fun a b => cmp a b <= 0) (sort_insert cmp x l).
Proof.
  intros Hanti Hl. induction Hl as [|y r Hr IH Hy]; simpl.
  - by repeat constructor.
  - destruct (Z.leb_spec (cmp x y) 0) as [Hxy|Hxy].
    + constructor; [by constructor|]. by constructor.
    + constructor; [exact IH|].
      destruct Hy as [|z r' Hz]; simpl.
      * constructor. by apply Hanti.
      * destruct (cmp x z <=? 0); constructor; [by apply Hanti|assumption].
Qed.

Lemma Array_sort_sorted cmp l :
  (forall a b, 0 < cmp a b -> cmp b a <= 0) ->
  Sorted (fun a b => cmp a b <= 0) (Array_sort cmp l).
Proof.
  intros Hanti. induction l as [|x r IH]; simpl; [constructor|].
  by apply sort_insert_sorted.
Qed.

(** A slice between two indices from 0 on is a [take] of a [drop]. *)
Lemma Array_slice_take_drop l (a b : Z) :
  0 <= a <= b ->
  Array_slice l (Int a) (Int b) = take (Z.to_nat (b - a)) (drop (Z.to_nat a) l).
Proof.
  intros Hab. unfold Array_slice, relative_index. simpl.
  rewrite !(proj2 (Z.ltb_ge _ 0)) by lia.
  destruct (Z.le_gt_cases (Z.of_nat (length l)) a) as [Hlen|Hlen].
  - rewrite !drop_ge by lia. by rewrite !take_nil.
  - rewrite (Z.min_l a) by lia.
    destruct (Z.le_gt_cases b (Z.of_nat (length l))) as [Hb|Hb].
    + by rewrite (Z.min_l b) by lia.
    + rewrite (Z.min_r b) by lia.
      rewrite !take_ge; [reflexivity| |]; rewrite length_drop; lia.
Qed.

Lemma Array_slice_NaN l : Array_slice l NaN NaN = [].
Proof.
  unfold Array_slice, relative_index. simpl.
  rewrite Z.min_l by lia. reflexivity.
Qed.

End ArrayFacts.

(** ** The mock endpoint *)

Section ApiFacts.
Import Js Api.

Lemma strip_prefix_inv pre s rest :
  strip_prefix pre s = Some rest -> s = String.append pre rest.
Proof.
  revert s. induction pre as [|a pre IH]; intros s; simpl.
  - by intros [= ->].
  - destruct s as [|b s]; [discriminate|].
    destruct (Ascii.eqb_spec a b) as [->|]; [|discriminate].
    intros H. by rewrite (IH s H).
Qed.

Lemma strip_last_inv c s m :
  strip_last c s = Some m -> s = String.append m (String c "").
Proof.
  revert m. induction s as [|a s IH]; intros m; simpl; [discriminate|].
  destruct s as [|b s].
  - destruct (Ascii.eqb_spec a c) as [->|]; [|discriminate]. by intros [= <-].
  - destruct (strip_last c (String b s)) as [m'|]; [|discriminate].
    simpl. intros [= <-].
    change (String a (String b s) = String a (String.append m' (String c ""))).
    f_equal. by apply IH.
Qed.

(** A key matches the pattern only if it is [filters[m]]. *)
Lemma match_filters_inv k m : match_filters k = Some m -> k = filter_name m.
Proof.
  unfold match_filters, filter_name.
  destruct (strip_prefix _ k) as [rest|] eqn:Hp; [|discriminate].
  destruct (strip_last _ rest) as [m'|] eqn:Hl; [|discriminate].
  destruct (_ && _); [|discriminate]. intros [= ->].
  apply strip_prefix_inv in Hp. apply strip_last_inv in Hl. by subst.
Qed.

Lemma parse_filter_lookup f kv m :
  parse_filter f kv !! m
  = if decide (match_filters (fst kv) = Some m
               /\ (m <> "__proto__" \/ is_Some (f !! m)))
    then Some (qval (Some (snd kv)) "") else f !! m.
Proof.
  unfold parse_filter. destruct (match_filters (fst kv)) as [m'|].
  - rewrite assign_lookup.
    destruct (decide (m' = m)) as [->|Hne].
    + destruct (decide (m <> "__proto__" \/ is_Some (f !! m))).
      * by rewrite !decide_True.
      * by rewrite !decide_False by (by intros [_ ?]).
    + rewrite !decide_False; [reflexivity| |]; intros [? _]; congruence.
  - by rewrite decide_False by (by intros [? _]).
Qed.

Lemma foldl_parse_filter_lookup l m : forall f,
  NoDup l.*1 ->
  foldl parse_filter f l !! m
  = match (list_to_map l : gmap string qvalue) !! filter_name m with
    | Some v =>
        if decide (match_filters (filter_name m) = Some m
                   /\ (m <> "__proto__" \/ is_Some (f !! m)))
        then Some (qval (Some v) "") else f !! m
    | None => f !! m
    end.
Proof.
  induction l as [|[k v] r IH]; intros f Hnd; simpl; [reflexivity|].
  apply NoDup_cons in Hnd as [Hk Hnd]. rewrite IH by assumption.
  destruct (decide (k = filter_name m)) as [->|Hne].
  - rewrite lookup_insert_eq.
    rewrite (not_elem_of_list_to_map_1 _ _ Hk).
    by rewrite parse_filter_lookup.
  - rewrite lookup_insert_ne by assumption.
    assert (Hsame : parse_filter f (k, v) !! m = f !! m).
    { rewrite parse_filter_lookup. rewrite decide_False; [reflexivity|].
      intros [H _]. apply Hne. by apply match_filters_inv. }
    by rewrite Hsame.
Qed.

(** The filters the handler reads, key by key. *)
Lemma parse_filters_lookup query m :
  parse_filters query !! m
  = match query !! filter_name m with
    | Some v =>
        if decide (match_filters (filter_name m) = Some m /\ m <> "__proto__")
        then Some (qval (Some v) "") else None
    | None => None
    end.
Proof.
  unfold parse_filters.
  rewrite foldl_parse_filter_lookup by apply NoDup_fst_map_to_list.
  rewrite list_to_map_to_list, lookup_empty.
  destruct (query !! filter_name m); [|reflexivity].
  destruct (decide (match_filters (filter_name m) = Some m /\ m <> "__proto__"))
    as [[H1 H2]|H].
  - rewrite decide_True; [reflexivity|]. split; [assumption|by left].
  - rewrite decide_False; [reflexivity|].
    intros [H1 [H2|H2]]; [by apply H|]. by destruct H2.
Qed.

Lemma filter_all_true (f : Row -> bool) l :
  (forall r, f r = true) -> List.filter f l = l.
Proof.
  intros Hf. induction l as [|x l IH]; simpl; [reflexivity|].
  by rewrite Hf, IH.
Qed.

Lemma filter_filter_andb (f g : Row -> bool) l :
  List.filter f (List.filter g l) = List.filter (fun r => g r && f r) l.
Proof.
  induction l as [|x l IH]; simpl; [reflexivity|].
  destruct (g x); simpl; [destruct (f x)|]; by rewrite IH.
Qed.

Lemma filter_when_keeps v keep data :
  filter_when v keep data = List.filter (keeps v keep) data.
Proof.
  unfold filter_when, keeps. destruct v as [v|]; [destruct (truthy v)|];
    try reflexivity; by rewrite filter_all_true.
Qed.

Lemma search_filter q data :
  search q data
  = List.filter
      (fun r =>
         if truthy q then
           includes (toLowerCase (name r)) q
           || includes (toLowerCase (email r)) q
           || includes (toLowerCase (company r)) q
         else true)
      data.
Proof.
  unfold search. destruct (truthy q); [reflexivity|].
  by rewrite filter_all_true.
Qed.

(** Search and filters together keep the rows that pass [passesb], in the
    order of the input. *)
Lemma apply_filters_search query rows :
  apply_filters (parse_filters query)
    (search (toLowerCase (qval (query !! "q") "")) rows)
  = List.filter (passesb query) rows.
Proof.
  unfold apply_filters. rewrite search_filter, !filter_when_keeps.
  rewrite !filter_filter_andb. apply filter_ext. intros r.
  unfold passesb. cbv zeta. by rewrite !andb_assoc.
Qed.

Lemma keeps_spec o keep r :
  keeps o keep r = true <->
  (forall v, o = Some v -> truthy v = true -> keep v r = true).
Proof.
  unfold keeps. destruct o as [v|].
  - destruct (truthy v) eqn:Hv; split; try done.
    + intros H v' [= <-] _. exact H.
    + intros H. by apply H.
    + intros _ v' [= <-]. congruence.
  - by split.
Qed.

Lemma passesb_passes query r : passesb query r = true <-> passes query r.
Proof.
  unfold passesb, passes. cbv zeta.
  rewrite !andb_true_iff, !keeps_spec.
  setoid_rewrite String.eqb_eq.
  destruct (truthy _); rewrite ?orb_true_iff; intuition congruence.
Qed.

Lemma sort_rows_perm sort data : sort_rows sort data ≡ₚ data.
Proof.
  unfold sort_rows. destruct (truthy sort); [|reflexivity].
  destruct (split ":" sort). apply Array_sort_perm.
Qed.

Lemma compare_rows_anti field sign a b :
  sign = 1 \/ sign = -1 ->
  0 < compare_rows field sign a b -> compare_rows field sign b a <= 0.
Proof.
  intros Hsign. unfold compare_rows, String.ltb.
  destruct (get_field field a) as [x|], (get_field field b) as [y|]; try lia.
  rewrite (String.compare_antisym y x).
  destruct (String.compare x y); simpl; lia.
Qed.

(** The rows come out of [sort_rows] in the order of the comparator. *)
Lemma sort_rows_sorted sort data :
  truthy sort = true ->
  exists field sign,
    Sorted (fun a b => compare_rows field sign a b <= 0) (sort_rows sort data).
Proof.
  intros Hs. unfold sort_rows. rewrite Hs.
  destruct (split ":" sort) as [field others].
  exists field, (if decide (head others = Some "desc") then -1 else 1).
  apply Array_sort_sorted. intros a b.
  apply compare_rows_anti. destruct (decide _); lia.
Qed.

Lemma selected_sorted rows query :
  selected rows query
  = sort_rows (qval (query !! "sort") "") (List.filter (passesb query) rows).
Proof. unfold selected. cbv zeta. by rewrite apply_filters_search. Qed.

(** The selection looks only at [q], [sort] and the [filters[...]] keys. *)
Lemma selected_ext rows query query' :
  (forall k, k <> "page" -> k <> "pageSize" -> query' !! k = query !! k) ->
  selected rows query' = selected rows query.
Proof.
  intros Hq. unfold selected.
  assert (parse_filters query' = parse_filters query) as ->.
  { apply map_eq. intros m. rewrite !parse_filters_lookup.
    by rewrite Hq by discriminate. }
  by rewrite !Hq by discriminate.
Qed.

Lemma read_page_Int query p : read_page query = Int p -> 1 <= p.
Proof.
  unfold read_page. destruct (parseInt _ _); simpl; [discriminate|].
  intros [= <-]. lia.
Qed.

Lemma read_pageSize_Int query n : read_pageSize query = Int n -> 1 <= n <= 100.
Proof.
  unfold read_pageSize. destruct (parseInt _ _); simpl; [discriminate|].
  intros [= <-]. lia.
Qed.

Example handler_three_rows :
  map id (items (handler Samples.three_rows
                   (<["sort" := QString "createdAt:asc"]>
                      (<["pageSize" := QArray ["2"; "50"]]> ∅))))
  = ["c_003"; "c_002"].
Proof. reflexivity. Qed.

(** The endpoint scenario: of the 500 rows, whose status cycles through
    three values, the first page of 10 with the filter [status=active] has
    10 rows, all active, and [total] counts the 167 active rows. *)
Example handler_active_scenario (createdAt : nat -> string) :
  length (items (handler (ROWS createdAt) Samples.active_query)) = 10%nat /\
  Forall (fun r => status r = "active")
    (items (handler (ROWS createdAt) Samples.active_query)) /\
  total (handler (ROWS createdAt) Samples.active_query) = 167%nat /\
  length (List.filter (fun r => String.eqb (status r) "active") (ROWS createdAt))
  = 167%nat.
Proof. vm_compute. repeat split. repeat constructor. Qed.

(** Where the page and the page size are numbers they are normalized:
    absent parameters give 1 and 10, and any number read is brought to 1
    or more, and the page size to 100 or less. *)
Lemma handler_page_normalized rows query :
  (query !! "page" = None -> page (handler rows query) = Int 1) /\
  (query !! "pageSize" = None -> pageSize (handler rows query) = Int 10) /\
  (forall x, parseInt (qval (query !! "page") "1") (Some 10) = Int x ->
     page (handler rows query) = Int (Z.max 1 x)) /\
  (forall x, parseInt (qval (query !! "pageSize") "10") (Some 10) = Int x ->
     pageSize (handler rows query) = Int (Z.min 100 (Z.max 1 x))) /\
  (forall p, page (handler rows query) = Int p -> 1 <= p) /\
  (forall n, pageSize (handler rows query) = Int n -> 1 <= n <= 100).
Proof.
  unfold handler. simpl.
  split; [|split; [|split; [|split; [|split]]]].
  - unfold read_page. by intros ->.
  - unfold read_pageSize. by intros ->.
  - unfold read_page. by intros x ->.
  - unfold read_pageSize. by intros x ->.
  - apply read_page_Int.
  - apply read_pageSize_Int.
Qed.

(** C7, where it fails: for [?page=abc] the handler computes
    [Math.max(1, parseInt('abc', 10))], which is [NaN]: the page echoed is
    not a number from 1 on, and no item is returned.  A page size that is
    not numeric does the same to the page size. *)
Theorem handler_page_not_numeric (rows : list Row) :
  page (handler rows Samples.bad_page_query) = NaN /\
  pageSize (handler rows Samples.bad_page_query) = Int 10 /\
  items (handler rows Samples.bad_page_query) = [] /\
  pageSize (handler rows Samples.bad_pageSize_query) = NaN /\
  page (handler rows Samples.bad_pageSize_query) = Int 2 /\
  items (handler rows Samples.bad_pageSize_query) = [].
Proof.
  assert (Hp : read_page Samples.bad_page_query = NaN) by reflexivity.
  assert (Hn : read_pageSize Samples.bad_pageSize_query = NaN) by reflexivity.
  unfold handler. simpl. rewrite Hp, Hn. simpl.
  by rewrite !Array_slice_NaN.
Qed.

End ApiFacts.

(** * Further properties of the code *)

(** ** More on the endpoint: bounds, pages, keys *)

Section ApiBounds.
Import Js Api Request.

Lemma Array_slice_sublist {A} (l : list A) a b : Array_slice l a b `sublist_of` l.
Proof.
  unfold Array_slice. etransitivity; [apply sublist_take|apply sublist_drop].
Qed.

Lemma handler_items_sublist rows query :
  items (handler rows query) `sublist_of` selected rows query.
Proof. apply Array_slice_sublist. Qed.

Lemma handler_total_selected rows query :
  total (handler rows query) = length (selected rows query).
Proof. reflexivity. Qed.

Lemma selected_perm rows query :
  selected rows query ≡ₚ List.filter (passesb query) rows.
Proof. rewrite selected_sorted. apply sort_rows_perm. Qed.

Lemma handler_items_take_drop rows query p n :
  page (handler rows query) = Int p -> pageSize (handler rows query) = Int n ->
  items (handler rows query)
  = take (Z.to_nat n) (drop (Z.to_nat ((p - 1) * n)) (selected rows query)).
Proof.
  intros Hp Hn. unfold handler in *. simpl in *. rewrite Hp, Hn. simpl.
  apply read_page_Int in Hp. apply read_pageSize_Int in Hn.
  rewrite Array_slice_take_drop by nia. do 2 f_equal. lia.
Qed.

Lemma handler_items_NaN rows query :
  page (handler rows query) = NaN \/ pageSize (handler rows query) = NaN ->
  items (handler rows query) = [].
Proof.
  unfold handler. simpl.
  destruct (read_page query), (read_pageSize query); simpl;
    intros [H|H]; try discriminate; apply Array_slice_NaN.
Qed.

Lemma handler_items_length rows query p n :
  page (handler rows query) = Int p -> pageSize (handler rows query) = Int n ->
  Z.of_nat (length (items (handler rows query)))
  = Z.min n (Z.max 0 (Z.of_nat (total (handler rows query)) - (p - 1) * n)).
Proof.
  intros Hp Hn. rewrite (handler_items_take_drop rows query p n Hp Hn).
  rewrite handler_total_selected, length_take, length_drop.
  apply read_page_Int in Hp. apply read_pageSize_Int in Hn. nia.
Qed.

(** X16: whatever the request, the response holds at most 100 items, at
    most [pageSize] of them and no more than [total]; every item is one of
    the rows and passes the search and the filters; and [total] is at most
    the number of rows. *)
Theorem handler_response_bounds (rows : list Row) (query : gmap string qvalue) :
  (length (items (handler rows query)) <= 100)%nat /\
  (forall n, pageSize (handler rows query) = Int n ->
     Z.of_nat (length (items (handler rows query))) <= n) /\
  (length (items (handler rows query)) <= total (handler rows query))%nat /\
  (forall r, r ∈ items (handler rows query) -> r ∈ rows /\ passes query r) /\
  (total (handler rows query) <= length rows)%nat.
Proof.
  assert (Hsub := handler_items_sublist rows query).
  assert (Hn : forall n, pageSize (handler rows query) = Int n ->
     Z.of_nat (length (items (handler rows query))) <= n).
  { intros n Hn. destruct (page (handler rows query)) as [|p] eqn:Hp.
    - rewrite handler_items_NaN by (by left). simpl.
      apply read_pageSize_Int in Hn. lia.
    - rewrite (handler_items_length rows query p n Hp Hn). lia. }
  split; [|split; [exact Hn|split; [|split]]].
  - destruct (pageSize (handler rows query)) as [|n] eqn:Hps.
    + rewrite handler_items_NaN by (by right). simpl. lia.
    + specialize (Hn n eq_refl). apply read_pageSize_Int in Hps. lia.
  - rewrite handler_total_selected. by apply sublist_length.
  - intros r Hr. apply (elem_of_sublist _ _ _ Hr) in Hsub.
    rewrite selected_perm in Hsub.
    apply list_elem_of_In, filter_In in Hsub as [Hin Hp].
    split; [by apply list_elem_of_In|by apply passesb_passes].
  - rewrite handler_total_selected, selected_perm. apply filter_length_le.
Qed.

Lemma handler_response_bounds_witness :
  Z.of_nat (length (items (handler Samples.three_rows Samples.active_query))) <= 10.
Proof.
  destruct (handler_response_bounds Samples.three_rows Samples.active_query)
    as (_ & Hn & _).
  apply Hn. reflexivity.
Defined.

(** X17: a page's length.  Where the page [p] and the page size [n] are
    numbers, the response has [min n (total - (p - 1) * n)] items, and none
    when that is negative: a page past the end is empty, not an error, and
    the pages before the last are full. *)
Theorem handler_page_length (rows : list Row) (query : gmap string qvalue) p n :
  page (handler rows query) = Int p -> pageSize (handler rows query) = Int n ->
  Z.of_nat (length (items (handler rows query)))
  = Z.min n (Z.max 0 (Z.of_nat (total (handler rows query)) - (p - 1) * n)) /\
  (items (handler rows query) = [] <->
   Z.of_nat (total (handler rows query)) <= (p - 1) * n) /\
  (p * n <= Z.of_nat (total (handler rows query)) ->
   Z.of_nat (length (items (handler rows query))) = n).
Proof.
  intros Hp Hn. pose proof (handler_items_length rows query p n Hp Hn) as Hlen.
  apply read_page_Int in Hp. apply read_pageSize_Int in Hn.
  split; [exact Hlen|split].
  - split.
    + intros H. rewrite H in Hlen. change (Z.of_nat (length [])) with 0 in Hlen. lia.
    + intros H. destruct (items (handler rows query)); [reflexivity|].
      rewrite length_cons in Hlen. lia.
  - intros H. lia.
Qed.

Lemma handler_page_length_witness :
  page (handler Samples.three_rows Samples.active_query) = Int 1 /\
  pageSize (handler Samples.three_rows Samples.active_query) = Int 10 /\
  Z.of_nat (length (items (handler Samples.three_rows Samples.active_query)))
  = Z.min 10 (Z.max 0 (Z.of_nat (total (handler Samples.three_rows
                                          Samples.active_query)) - (1 - 1) * 10)).
Proof.
  split; [reflexivity|]. split; [reflexivity|].
  exact (proj1 (handler_page_length Samples.three_rows Samples.active_query
                  1 10 eq_refl eq_refl)).
Defined.

End ApiBounds.

Section ApiPages.
Import Js Api Request.

Lemma parseInt_String_of_num_10 z :
  parseInt (String_of_num (Int z)) (Some 10) = Int z.
Proof.
  destruct z as [|p|p]; [reflexivity| |];
    unfold String_of_num, Z.to_int; simpl NilZero.string_of_int.
  - pose proof (Unsigned.to_uint_nonnil p) as Hd.
    rewrite NilZero_nonnil by assumption.
    unfold parseInt. rewrite uint_no_sign. simpl.
    rewrite parse_digits_uint_None by assumption.
    rewrite <- of_uint_uint_acc, Unsigned.of_to. reflexivity.
  - pose proof (Unsigned.to_uint_nonnil p) as Hd.
    unfold NilZero.string_of_int.
    rewrite NilZero_nonnil by assumption.
    unfold parseInt. simpl.
    rewrite parse_digits_uint_None by assumption.
    rewrite <- of_uint_uint_acc, Unsigned.of_to. reflexivity.
Qed.

Lemma read_page_with_page p query :
  read_page (with_page p query) = Int (Z.max 1 p).
Proof.
  unfold read_page, with_page. rewrite lookup_insert_eq. cbn [qval].
  by rewrite parseInt_String_of_num_10.
Qed.

Lemma read_pageSize_with_page p query :
  read_pageSize (with_page p query) = read_pageSize query.
Proof. unfold read_pageSize, with_page. by rewrite lookup_insert_ne. Qed.

Lemma selected_with_page rows p query :
  selected rows (with_page p query) = selected rows query.
Proof.
  apply selected_ext. intros k Hk _. unfold with_page.
  by rewrite lookup_insert_ne.
Qed.

Lemma page_items_take_drop rows query n p :
  read_pageSize query = Int n -> 1 <= p ->
  page_items rows query p
  = take (Z.to_nat n) (drop (Z.to_nat ((p - 1) * n)) (selected rows query)).
Proof.
  intros Hn Hp. unfold page_items.
  rewrite (handler_items_take_drop rows (with_page p query) p n).
  - by rewrite selected_with_page.
  - unfold handler. simpl. rewrite read_page_with_page. f_equal. lia.
  - unfold handler. simpl. by rewrite read_pageSize_with_page.
Qed.

Lemma pages_concat rows query n (k : nat) :
  read_pageSize query = Int n ->
  concat (map (fun i => page_items rows query (Z.of_nat i + 1)) (seq 0 k))
  = take (k * Z.to_nat n) (selected rows query).
Proof.
  intros Hn. induction k as [|k IH]; [reflexivity|].
  rewrite seq_S, map_app, concat_app, IH. simpl.
  rewrite (page_items_take_drop rows query n) by (assumption || lia).
  rewrite app_nil_r.
  replace (Z.to_nat ((Z.of_nat k + 1 - 1) * n)) with (k * Z.to_nat n)%nat
    by (apply read_pageSize_Int in Hn; nia).
  rewrite take_take_drop. f_equal. lia.
Qed.

(** X18: the pages of a query, one after the other, are the selected rows:
    for a page size [n], pages 1 to [k] hold the first [k * n] rows after
    search, filters and sort, each once and in order; so with
    [total <= k * n] they hold all of them. *)
Theorem handler_pages_cover (rows : list Row) (query : gmap string qvalue)
    (n : Z) (k : nat) :
  read_pageSize query = Int n ->
  concat (map (fun i => page_items rows query (Z.of_nat i + 1)) (seq 0 k))
  = take (k * Z.to_nat n) (selected rows query) /\
  (Z.of_nat (total (handler rows query)) <= Z.of_nat k * n ->
   concat (map (fun i => page_items rows query (Z.of_nat i + 1)) (seq 0 k))
   = selected rows query).
Proof.
  intros Hn. split; [by apply pages_concat|].
  intros Htot. rewrite (pages_concat rows query n k Hn).
  apply take_ge. rewrite handler_total_selected in Htot.
  apply read_pageSize_Int in Hn. nia.
Qed.

Lemma handler_pages_cover_witness :
  read_pageSize (<["pageSize" := QString "2"]> ∅) = Int 2 /\
  concat (map (fun i => page_items Samples.three_rows
                          (<["pageSize" := QString "2"]> ∅) (Z.of_nat i + 1))
            (seq 0 2))
  = selected Samples.three_rows (<["pageSize" := QString "2"]> ∅).
Proof.
  assert (Hn : read_pageSize (<["pageSize" := QString "2"]> ∅) = Int 2)
    by reflexivity.
  split; [exact Hn|].
  apply (handler_pages_cover Samples.three_rows (<["pageSize" := QString "2"]> ∅)
           2 2 Hn).
  vm_compute. discriminate.
Defined.

End ApiPages.

Section ApiKeys.
Import Js Api Request.

(** The four filters are looked up under their bracketed keys. *)
Lemma parse_filters_named query name :
  name ∈ filter_names ->
  parse_filters query !! name
  = (fun v => qval (Some v) "") <$> query !! filter_name name.
Proof.
  intros Hname. rewrite parse_filters_lookup.
  assert (Hm : match_filters (filter_name name) = Some name
               /\ name <> "__proto__").
  { unfold filter_names in Hname.
    repeat (apply elem_of_cons in Hname as [->|Hname]; [by split|]).
    by apply elem_of_nil in Hname. }
  destruct (query !! filter_name name); [|reflexivity].
  by rewrite decide_True.
Qed.

Lemma apply_filters_ext f f' data :
  (forall name, name ∈ filter_names -> f' !! name = f !! name) ->
  apply_filters f' data = apply_filters f data.
Proof.
  intros H. unfold apply_filters, filter_names in *.
  rewrite !H; [reflexivity|..]; rewrite !elem_of_cons; tauto.
Qed.

Lemma handler_ext rows query query' :
  (forall k, k ∈ read_keys -> query' !! k = query !! k) ->
  handler rows query' = handler rows query.
Proof.
  intros H. unfold read_keys in H.
  assert (Hk : forall k, k ∈ ["page"; "pageSize"; "q"; "sort"] ->
            query' !! k = query !! k).
  { intros k Hk. apply H. rewrite !elem_of_cons in *. tauto. }
  assert (Hf : forall name, name ∈ filter_names ->
            parse_filters query' !! name = parse_filters query !! name).
  { intros name Hname. rewrite !parse_filters_named by assumption.
    rewrite H; [reflexivity|]. unfold filter_names in Hname.
    repeat (apply elem_of_cons in Hname as [->|Hname];
            [rewrite !elem_of_cons; simpl; tauto|]).
    by apply elem_of_nil in Hname. }
  unfold handler, selected, read_page, read_pageSize.
  rewrite (apply_filters_ext _ _ _ Hf).
  rewrite !Hk by (rewrite !elem_of_cons; tauto). reflexivity.
Qed.

(** X19: the handler reads eight keys of the query and no other: two
    requests that agree on [page], [pageSize], [q], [sort] and the four
    [filters[...]] keys it knows get the same response, so a key it does
    not know, or a filter of another name, changes nothing. *)
Theorem handler_ignores_unknown_keys (rows : list Row)
    (query query' : gmap string qvalue) :
  (forall k, k ∈ read_keys -> query' !! k = query !! k) ->
  handler rows query' = handler rows query.
Proof. apply handler_ext. Qed.

Lemma handler_ignores_unknown_keys_witness :
  handler Samples.three_rows
    (<["filters[plan]" := QString "pro"]> (<["debug" := QString "1"]> Samples.active_query))
  = handler Samples.three_rows Samples.active_query.
Proof.
  apply handler_ignores_unknown_keys. intros k Hk. unfold read_keys in Hk.
  repeat (apply elem_of_cons in Hk as [->|Hk]; [reflexivity|]).
  by apply elem_of_nil in Hk.
Defined.

Lemma filter_when_empty keep data :
  filter_when (Some "") keep data = filter_when None keep data.
Proof. reflexivity. Qed.

(** X20: an empty value does not filter: a request that carries one of the
    four filters with an empty value, or as an array whose first value is
    empty, gets the response of the request without that key. *)
Theorem handler_empty_filter (rows : list Row) (query : gmap string qvalue)
    (name : string) (v : qvalue) :
  name ∈ filter_names -> qval (Some v) "" = "" ->
  handler rows (<[filter_name name := v]> query)
  = handler rows (delete (filter_name name) query).
Proof.
  intros Hname Hv.
  assert (Hne : forall k, k ∈ ["page"; "pageSize"; "q"; "sort"] ->
            k <> filter_name name).
  { intros k Hk ->. unfold filter_names in Hname.
    repeat (apply elem_of_cons in Hname as [->|Hname];
            [repeat (apply elem_of_cons in Hk as [Hk|Hk]; [discriminate Hk|]);
             by apply elem_of_nil in Hk|]).
    by apply elem_of_nil in Hname. }
  assert (Hf : forall name', name' ∈ filter_names ->
            filter_when (parse_filters (<[filter_name name := v]> query) !! name')
            = filter_when (parse_filters (delete (filter_name name) query) !! name')).
  { intros name' Hname'. rewrite !parse_filters_named by assumption.
    destruct (decide (filter_name name' = filter_name name)) as [Heq|Hneq].
    - rewrite Heq, lookup_insert_eq, lookup_delete_eq.
      cbn [fmap option_fmap option_map]. by rewrite Hv.
    - by rewrite lookup_insert_ne, lookup_delete_ne. }
  unfold handler, selected, read_page, read_pageSize, apply_filters.
  rewrite !Hf by (unfold filter_names; rewrite !elem_of_cons; tauto).
  rewrite !lookup_insert_ne, !lookup_delete_ne
    by (apply not_eq_sym, Hne; rewrite !elem_of_cons; tauto).
  reflexivity.
Qed.

Lemma handler_empty_filter_witness :
  handler Samples.three_rows
    (<[filter_name "status" := QArray [""; "trial"]]> Samples.bad_page_query)
  = handler Samples.three_rows
      (delete (filter_name "status") Samples.bad_page_query).
Proof.
  apply handler_empty_filter; [|reflexivity].
  unfold filter_names. apply elem_of_cons. by left.
Defined.

End ApiKeys.

Section SortMore.
Import Js.
Context {A : Type}.
Implicit Types (l : list A) (cmp : A -> A -> Z).

Lemma HdRel_impl (R R' : A -> A -> Prop) x l :
  (forall a b, R a b -> R' a b) -> HdRel R x l -> HdRel R' x l.
Proof. intros HR [|y r H]; constructor. by apply HR. Qed.

Lemma Sorted_impl (R R' : A -> A -> Prop) l :
  (forall a b, R a b -> R' a b) -> Sorted R l -> Sorted R' l.
Proof.
  intros HR Hl. induction Hl as [|x r Hr IH Hx]; constructor;
    [exact IH|by eapply HdRel_impl].
Qed.

(** A comparator that is never positive leaves the list as it is. *)
Lemma Array_sort_id cmp l :
  (forall a b, cmp a b <= 0) -> Array_sort cmp l = l.
Proof.
  intros Hc. induction l as [|x r IH]; simpl; [reflexivity|].
  rewrite IH. destruct r as [|y r]; simpl; [reflexivity|].
  by rewrite (proj2 (Z.leb_le _ _) (Hc x y)).
Qed.

(** The sort is stable: among the elements of a class whose members the
    comparator does not put after one another, the order is kept. *)
Lemma sort_insert_filter cmp (P : A -> bool) x l :
  (forall a b, P a = true -> P b = true -> cmp a b <= 0) ->
  List.filter P (sort_insert cmp x l)
  = if P x then x :: List.filter P l else List.filter P l.
Proof.
  intros HP. induction l as [|y r IH]; simpl; [by destruct (P x)|].
  destruct (Z.leb_spec (cmp x y) 0) as [Hxy|Hxy]; simpl; [by destruct (P x)|].
  rewrite IH. destruct (P x) eqn:Hx, (P y) eqn:Hy; try reflexivity.
  specialize (HP x y Hx Hy). lia.
Qed.

Lemma Array_sort_stable cmp (P : A -> bool) l :
  (forall a b, P a = true -> P b = true -> cmp a b <= 0) ->
  List.filter P (Array_sort cmp l) = List.filter P l.
Proof.
  intros HP. induction l as [|x r IH]; simpl; [reflexivity|].
  rewrite sort_insert_filter, IH by assumption. by destruct (P x).
Qed.

End SortMore.

Section ApiSort.
Import Js Api Request.

Lemma compare_rows_asc field a b x y :
  get_field field a = Some x -> get_field field b = Some y ->
  compare_rows field 1 a b <= 0 -> String.leb x y = true.
Proof.
  unfold compare_rows, String.leb, String.ltb. intros -> ->.
  rewrite (String.compare_antisym y x).
  destruct (String.compare x y); simpl; (reflexivity || lia).
Qed.

Lemma compare_rows_desc field a b x y :
  get_field field a = Some x -> get_field field b = Some y ->
  compare_rows field (-1) a b <= 0 -> String.leb y x = true.
Proof.
  unfold compare_rows, String.leb, String.ltb. intros -> ->.
  rewrite (String.compare_antisym y x).
  destruct (String.compare x y); simpl; (reflexivity || lia).
Qed.

(** X21: sorting.  With [sort = field:dir] on one of the six fields of a
    row, the rows come out ordered by that field, as strings: descending
    when [dir] is [desc], ascending for any other direction or none.  With
    another field name the rows keep their order.  In both cases the sort
    only reorders the rows. *)
Theorem sort_rows_by_field (sort field : string) (others : list string)
    (data : list Row) :
  truthy sort = true -> split ":" sort = (field, others) ->
  sort_rows sort data ≡ₚ data /\
  ((forall r, get_field field r = None) -> sort_rows sort data = data) /\
  ((forall r, is_Some (get_field field r)) ->
   Sorted (in_order field (bool_decide (head others = Some "desc")))
     (sort_rows sort data)).
Proof.
  intros Hs Hsplit. split; [apply sort_rows_perm|].
  unfold sort_rows. rewrite Hs, Hsplit. split.
  - intros Hnone. apply Array_sort_id. intros a b.
    unfold compare_rows. by rewrite Hnone.
  - intros Hsome.
    eapply Sorted_impl; [|apply Array_sort_sorted].
    + intros a b Hab.
      destruct (Hsome a) as [x Hx], (Hsome b) as [y Hy].
      exists x, y. split; [exact Hx|split; [exact Hy|]].
      destruct (decide (head others = Some "desc")) as [Hd|Hd].
      * rewrite bool_decide_eq_true_2 by assumption.
        by eapply compare_rows_desc.
      * rewrite bool_decide_eq_false_2 by assumption.
        by eapply compare_rows_asc.
    + intros a b. apply compare_rows_anti. destruct (decide _); lia.
Qed.

Lemma sort_rows_by_field_witness :
  Sorted (in_order "createdAt" false)
    (sort_rows "createdAt:up" Samples.three_rows) /\
  sort_rows "plan:desc" Samples.three_rows = Samples.three_rows.
Proof.
  split.
  - destruct (sort_rows_by_field "createdAt:up" "createdAt" ["up"]
                Samples.three_rows eq_refl eq_refl) as (_ & _ & H).
    apply H. intros r. by eexists.
  - destruct (sort_rows_by_field "plan:desc" "plan" ["desc"]
                Samples.three_rows eq_refl eq_refl) as (_ & H & _).
    apply H. intros r. reflexivity.
Defined.

(** X22: the sort is stable: the rows that have the same value in the sort
    field come out in the order they had. *)
Theorem sort_rows_stable (sort field : string) (others : list string)
    (data : list Row) (v : string) :
  split ":" sort = (field, others) ->
  List.filter (fun r => bool_decide (get_field field r = Some v)) (sort_rows sort data)
  = List.filter (fun r => bool_decide (get_field field r = Some v)) data.
Proof.
  intros Hsplit. unfold sort_rows. destruct (truthy sort); [|reflexivity].
  rewrite Hsplit. apply Array_sort_stable.
  intros a b Ha%bool_decide_eq_true Hb%bool_decide_eq_true.
  unfold compare_rows, String.ltb. rewrite Ha, Hb.
  pose proof (String.compare_antisym v v) as Hrefl.
  destruct (String.compare v v); simpl in *; (discriminate Hrefl || lia).
Qed.

Lemma sort_rows_stable_witness :
  List.filter (fun r => bool_decide (get_field "status" r = Some "active"))
    (sort_rows "status:desc" (Samples.three_rows ++ Samples.three_rows))
  = List.filter (fun r => bool_decide (get_field "status" r = Some "active"))
      (Samples.three_rows ++ Samples.three_rows).
Proof. exact (sort_rows_stable "status:desc" "status" ["desc"] _ "active" eq_refl). Defined.

End ApiSort.

(** ** The pipeline of the endpoint against its specification *)

Section ApiPipeline.
Import Js Api Request Pipeline.

Lemma prefix_append q : forall s,
  String.prefix q s = true <-> exists post, s = String.append q post.
Proof.
  induction q as [|a q IH]; intros s; simpl.
  - destruct s; (split; [intros _; by eexists|reflexivity]).
  - destruct s as [|b s]; simpl.
    + split; [discriminate|]. by intros [post [=]].
    + destruct (ascii_dec a b) as [->|Hab].
      * rewrite IH. split; intros [post H]; exists post.
        -- by rewrite H.
        -- change (String b s = String b (String.append q post)) in H.
           by injection H.
      * split; [discriminate|]. intros [post H].
        change (String b s = String a (String.append q post)) in H.
        congruence.
Qed.

Lemma includes_unfold s q :
  includes s q
  = String.prefix q s
    || match s with
       | EmptyString => false
       | String _ r => includes r q
       end.
Proof. by destruct s. Qed.

(** [includes] finds the occurrences of a string in another. *)
Lemma includes_substring s q : includes s q = true <-> substring q s.
Proof.
  unfold substring. split.
  - induction s as [|c r IH]; rewrite includes_unfold, orb_true_iff.
    + intros [[post H]%prefix_append|?]; [|discriminate].
      by exists EmptyString, post.
    + intros [[post H]%prefix_append|H].
      * by exists EmptyString, post.
      * destruct (IH H) as (pre & post & ->). by exists (String c pre), post.
  - intros (pre & post & ->). induction pre as [|c pre IH].
    + rewrite includes_unfold, orb_true_iff. left.
      apply prefix_append. by exists post.
    + change (String.append (String c pre) (String.append q post))
        with (String c (String.append pre (String.append q post))).
      rewrite includes_unfold, IH. apply orb_true_r.
Qed.

Lemma param_qval query key : qval (query !! key) "" = param query key.
Proof.
  unfold param. by destruct (query !! key) as [[x|[|x l]]|].
Qed.

Lemma truthy_toLowerCase q : truthy (toLowerCase q) = truthy q.
Proof. by destruct q. Qed.

Lemma truthy_nonempty q : truthy q = true <-> q <> "".
Proof. by destruct q. Qed.

(** A filter the handler knows, as it reads it, is the parameter of its
    bracketed key; and it filters unless that is empty. *)
Lemma named_filter query name (P : string -> Prop) :
  name ∈ filter_names ->
  (forall v, parse_filters query !! name = Some v -> truthy v = true -> P v)
  <-> (param query (filter_name name) = "" \/ P (param query (filter_name name))).
Proof.
  intros Hname. rewrite parse_filters_named by assumption.
  rewrite <- param_qval.
  destruct (query !! filter_name name) as [x|].
  - change ((fun v => qval (Some v) "") <$> Some x)
      with (Some (qval (Some x) "")).
    destruct (qval (Some x) "") as [|c v0]; split.
    + by left.
    + intros _ v [= <-]. discriminate.
    + intros H. right. by apply H.
    + intros [?|H] v [= <-] _; [discriminate|exact H].
  - split; [by left|]. intros _ v. discriminate.
Qed.

(** The test of the handler is the one of the specification. *)
Lemma passesb_spec query r :
  passesb query r = true <-> searched query r /\ filtered query r.
Proof.
  rewrite passesb_passes. unfold passes, searched, filtered. cbv zeta.
  rewrite truthy_toLowerCase, truthy_nonempty, !includes_substring, param_qval.
  rewrite (named_filter query "status" (fun v => status r = v))
    by (unfold filter_names; rewrite !elem_of_cons; tauto).
  rewrite (named_filter query "company" (fun v => company r = v))
    by (unfold filter_names; rewrite !elem_of_cons; tauto).
  rewrite (named_filter query "createdAtFrom"
             (fun v => String.leb v (createdAt r) = true))
    by (unfold filter_names; rewrite !elem_of_cons; tauto).
  rewrite (named_filter query "createdAtTo"
             (fun v => String.leb (createdAt r) v = true))
    by (unfold filter_names; rewrite !elem_of_cons; tauto).
  change (filter_name "status") with "filters[status]".
  change (filter_name "company") with "filters[company]".
  change (filter_name "createdAtFrom") with "filters[createdAtFrom]".
  change (filter_name "createdAtTo") with "filters[createdAtTo]".
  destruct (decide (param query "q" = "")) as [Hq|Hq]; tauto.
Qed.

Lemma keeping_filter (P : Row -> Prop) (f : Row -> bool) rows :
  (forall r, f r = true <-> P r) -> keeping P rows (List.filter f rows).
Proof.
  intros Hf. induction rows as [|r rows IH]; simpl; [constructor|].
  destruct (f r) eqn:Hr.
  - apply keeping_pass; [by apply Hf|exact IH].
  - apply keeping_fail; [|exact IH]. rewrite <- Hf. congruence.
Qed.

Lemma get_field_fields field r :
  field ∈ fields -> is_Some (get_field field r).
Proof.
  unfold fields. intros H.
  repeat (apply elem_of_cons in H as [->|H]; [by eexists|]).
  by apply elem_of_nil in H.
Qed.

Lemma fields_colon_free field : field ∈ fields -> occurs ":" field = false.
Proof.
  unfold fields. intros H.
  repeat (apply elem_of_cons in H as [->|H]; [reflexivity|]).
  by apply elem_of_nil in H.
Qed.

(** The sort of the handler on a field of the rows, in one direction. *)
Lemma Array_sort_sorted_by field (desc : bool) data :
  field ∈ fields ->
  sorted_by field desc data
    (Array_sort (compare_rows field (if desc then -1 else 1)) data).
Proof.
  intros Hfield. split; [apply Array_sort_perm|]. split.
  - eapply Sorted_impl; [|apply Array_sort_sorted].
    + intros a b Hab.
      destruct (get_field_fields field a Hfield) as [x Hx].
      destruct (get_field_fields field b Hfield) as [y Hy].
      exists x, y. split; [exact Hx|split; [exact Hy|]].
      destruct desc; [by eapply compare_rows_desc|by eapply compare_rows_asc].
    + intros a b. apply compare_rows_anti. destruct desc; lia.
  - intros v. apply Array_sort_stable.
    intros a b Ha%bool_decide_eq_true Hb%bool_decide_eq_true.
    unfold compare_rows, String.ltb. rewrite Ha, Hb.
    pose proof (String.compare_antisym v v) as Hrefl.
    destruct (String.compare v v); simpl in *; (discriminate Hrefl || lia).
Qed.

Lemma sort_rows_plain field data :
  field ∈ fields ->
  sort_rows field data = Array_sort (compare_rows field 1) data.
Proof.
  intros Hfield. unfold sort_rows.
  rewrite (split_no_sep _ _ (fields_colon_free field Hfield)).
  assert (truthy field = true) as ->; [|reflexivity].
  unfold fields in Hfield.
  repeat (apply elem_of_cons in Hfield as [->|Hfield]; [reflexivity|]).
  by apply elem_of_nil in Hfield.
Qed.

Lemma sort_rows_dir field dir data :
  field ∈ fields -> occurs ":" dir = false ->
  sort_rows (String.append field (String ":" dir)) data
  = Array_sort
      (compare_rows field (if decide (dir = "desc") then -1 else 1)) data.
Proof.
  intros Hfield Hdir. unfold sort_rows.
  rewrite truthy_append_sep.
  rewrite (split_app_sep _ _ _ (fields_colon_free field Hfield)).
  rewrite (split_no_sep _ _ Hdir). cbn [head].
  destruct (decide (dir = "desc")) as [->|Hne].
  - by rewrite decide_True.
  - rewrite decide_False; [reflexivity|]. congruence.
Qed.

(** C4: the pipeline of the handler, against the words of the
    specification.  There are the rows [matching], which are the rows that
    the search and the four filters of the request let through, in their
    order, and the rows [sorted], which are [matching] reordered: left as
    they are without [sort], and put in the order of the field, ascending
    for [field] or [field:asc] and descending for [field:desc], rows of
    equal value keeping their order.  [total] is the number of rows of
    [matching], whatever [page] and [pageSize] are; and [items] is the
    slice of [sorted] from [(page - 1) * pageSize] up to
    [page * pageSize], and is empty when the page or the page size is not
    a number. *)
Theorem handler_pipeline (rows : list Row) (query : gmap string qvalue) :
  exists matching sorted,
    keeping (fun r => searched query r /\ filtered query r) rows matching /\
    sorted ≡ₚ matching /\
    (param query "sort" = "" -> sorted = matching) /\
    (forall field, field ∈ fields ->
       (param query "sort" = field
        \/ param query "sort" = String.append field ":asc" ->
        sorted_by field false matching sorted) /\
       (param query "sort" = String.append field ":desc" ->
        sorted_by field true matching sorted)) /\
    total (handler rows query) = length matching /\
    (forall query',
       (forall k, k <> "page" -> k <> "pageSize" -> query' !! k = query !! k) ->
       total (handler rows query') = length matching) /\
    (forall p n,
       page (handler rows query) = Int p -> pageSize (handler rows query) = Int n ->
       items (handler rows query) = slice ((p - 1) * n) (p * n) sorted) /\
    (page (handler rows query) = NaN \/ pageSize (handler rows query) = NaN ->
     items (handler rows query) = []).
Proof.
  exists (List.filter (passesb query) rows), (selected rows query).
  pose proof (selected_sorted rows query) as Hsel.
  rewrite param_qval in Hsel.
  split; [apply keeping_filter; intros r; apply passesb_spec|].
  split; [apply selected_perm|].
  split; [|split; [|split; [|split; [|split; [|apply handler_items_NaN]]]]].
  - intros Hs. by rewrite Hsel, Hs.
  - intros field Hfield. rewrite Hsel. split.
    + intros [-> | ->].
      * rewrite sort_rows_plain by assumption.
        by apply (Array_sort_sorted_by field false).
      * rewrite (sort_rows_dir field "asc") by done.
        by apply (Array_sort_sorted_by field false).
    + intros ->. rewrite (sort_rows_dir field "desc") by done.
      by apply (Array_sort_sorted_by field true).
  - by rewrite handler_total_selected, selected_perm.
  - intros query' Hq.
    rewrite handler_total_selected, (selected_ext rows query query' Hq).
    by rewrite selected_perm.
  - intros p n Hp Hn. rewrite (handler_items_take_drop rows query p n Hp Hn).
    unfold slice. do 2 f_equal. lia.
Qed.

Lemma handler_pipeline_witness :
  exists matching sorted,
    keeping (fun r => searched Samples.user_query r
                      /\ filtered Samples.user_query r)
      Samples.three_rows matching /\
    sorted_by "createdAt" false matching sorted /\
    total (handler Samples.three_rows Samples.user_query) = length matching /\
    items (handler Samples.three_rows Samples.user_query) = slice 0 10 sorted.
Proof.
  destruct (handler_pipeline Samples.three_rows Samples.user_query)
    as (matching & sorted & Hkeep & _ & _ & Hsort & Htotal & _ & Hslice & _).
  exists matching, sorted. split; [exact Hkeep|]. split; [|split].
  - apply (Hsort "createdAt").
    + unfold fields. rewrite !elem_of_cons. tauto.
    + right. reflexivity.
  - exact Htotal.
  - apply (Hslice 1 10); reflexivity.
Defined.

Example toLowerCase_sample :
  toLowerCase "User 42 @ ByteForge" = "user 42 @ byteforge".
Proof. reflexivity. Qed.

(** The search takes the letters in any case, an empty filter does not
    filter, and the oldest row comes first. *)
Example handler_user_query :
  map id (items (handler Samples.three_rows Samples.user_query))
  = ["c_003"; "c_002"; "c_001"] /\
  map id (items (handler Samples.three_rows
                   (<["filters[status]" := QArray ["trial"; "active"]]>
                      Samples.user_query)))
  = ["c_002"].
Proof. split; reflexivity. Qed.

End ApiPipeline.

(** ** More on the codec: what is encoded, what is decoded *)

Section PatternFacts.
Import Js.

Lemma filter_name_inj k k' : filter_name k = filter_name k' -> k = k'.
Proof.
  unfold filter_name. intros H.
  apply (f_equal (strip_prefix "filters[")) in H.
  rewrite !strip_prefix_append in H. injection H as H.
  apply (f_equal (strip_last "]")) in H.
  rewrite !strip_last_append in H. by injection H.
Qed.

(** X1: the filter pattern.  A key matches [/^filters\[(.+)\]$/] exactly
    when it is [filters[m]] for a name [m] that is not empty and holds no
    line terminator, and the name recovered is [m]. *)
Theorem match_filters_iff (k m : string) :
  match_filters k = Some m <->
  k = filter_name m /\ m <> "" /\ no_line_terminator m = true.
Proof.
  split.
  - intros H. pose proof (match_filters_inv k m H) as ->. split; [reflexivity|].
    unfold match_filters, filter_name in H.
    rewrite strip_prefix_append, strip_last_append in H.
    destruct m as [|a m]; [discriminate|]. split; [discriminate|].
    cbn [truthy andb] in H.
    by destruct (no_line_terminator (String a m)).
  - intros (-> & Hm & Hl). unfold match_filters, filter_name.
    rewrite strip_prefix_append, strip_last_append, Hl.
    by destruct m.
Qed.

End PatternFacts.

Section SetFacts.
Import Url.

Lemma names_remove_all n p x :
  x ∈ map fst (remove_all n p) -> x ∈ map fst p /\ x <> n.
Proof.
  unfold remove_all. rewrite !list_elem_of_In, !in_map_iff.
  intros ([a b] & <- & [Hin Hne]%filter_In). simpl in *. split.
  - by exists (a, b).
  - intros ->. by rewrite String.eqb_refl in Hne.
Qed.

Lemma NoDup_remove_all n p :
  NoDup (map fst p) -> NoDup (map fst (remove_all n p)).
Proof.
  induction p as [|[a b] r IH]; simpl; [constructor|].
  intros [Ha Hr]%NoDup_cons. destruct (negb (String.eqb a n)); simpl; [|by apply IH].
  apply NoDup_cons. split; [|by apply IH].
  intros H. apply Ha. by apply names_remove_all in H as [H _].
Qed.

Lemma names_set n v p x :
  x ∈ map fst (set n v p) -> x = n \/ x ∈ map fst p.
Proof.
  induction p as [|[a b] r IH]; simpl.
  - rewrite elem_of_cons, elem_of_nil. tauto.
  - destruct (String.eqb_spec a n) as [->|Hne]; simpl; rewrite !elem_of_cons.
    + intros [H|H]; [by left|]. apply names_remove_all in H as [H _]. tauto.
    + intros [H|H]; [tauto|]. destruct (IH H); tauto.
Qed.

(** [set] keeps the names distinct. *)
Lemma NoDup_set n v p : NoDup (map fst p) -> NoDup (map fst (set n v p)).
Proof.
  induction p as [|[a b] r IH]; simpl.
  - intros _. apply NoDup_singleton.
  - intros [Ha Hr]%NoDup_cons.
    destruct (String.eqb_spec a n) as [->|Hne]; simpl; apply NoDup_cons; split.
    + intros H. by apply names_remove_all in H as [_ H].
    + by apply NoDup_remove_all.
    + intros [H|H]%names_set; [by apply Hne|by apply Ha].
    + by apply IH.
Qed.

Lemma get_None_names n p : n ∉ map fst p -> get n p = None.
Proof.
  induction p as [|[a b] r IH]; simpl; [reflexivity|].
  rewrite not_elem_of_cons. intros [Hne Hr].
  destruct (String.eqb_spec a n); [congruence|by apply IH].
Qed.

Lemma get_Some_elem n v p : get n p = Some v -> (n, v) ∈ p.
Proof.
  induction p as [|[a b] r IH]; simpl; [discriminate|].
  destruct (String.eqb_spec a n) as [->|Hne].
  - intros [= ->]. apply elem_of_cons. by left.
  - intros H. apply elem_of_cons. right. by apply IH.
Qed.

Lemma get_elem_NoDup n v p : NoDup (map fst p) -> (n, v) ∈ p -> get n p = Some v.
Proof.
  induction p as [|[a b] r IH]; simpl.
  - intros _ H. by apply elem_of_nil in H.
  - intros [Ha Hr]%NoDup_cons [[= -> ->]|H]%elem_of_cons.
    + by rewrite String.eqb_refl.
    + destruct (String.eqb_spec a n) as [->|Hne]; [|by apply IH].
      exfalso. apply Ha. apply list_elem_of_fmap. by exists (n, v).
Qed.

End SetFacts.

Section EncodeFacts.
Import Js Url Table.

(** The parameters before the filters are added. *)
Lemma NoDup_encode_filters entries : forall p,
  NoDup (map fst p) -> NoDup (map fst (foldl encode_filter p entries)).
Proof.
  induction entries as [|[k v] r IH]; intros p Hp; simpl; [assumption|].
  apply IH. unfold encode_filter. simpl.
  destruct (encodable v); [by apply NoDup_set|assumption].
Qed.

Lemma defaultParams_entries_NoDup s entries :
  NoDup (map fst (defaultParams_entries s entries)).
Proof.
  unfold defaultParams_entries. apply NoDup_encode_filters.
  destruct (sort s), (truthy (query s)); repeat apply NoDup_set; constructor.
Qed.

Lemma get_encode_filters_name k entries : forall p,
  NoDup entries.*1 ->
  get (filter_name k) (foldl encode_filter p entries)
  = match (list_to_map entries : gmap string value) !! k with
    | Some v =>
        if encodable v then Some (String_of_value v)
        else get (filter_name k) p
    | None => get (filter_name k) p
    end.
Proof.
  induction entries as [|[k' v] r IH]; intros p Hnd; simpl; [reflexivity|].
  apply NoDup_cons in Hnd as [Hk Hnd]. rewrite IH by assumption.
  unfold encode_filter at 1 2. simpl.
  destruct (decide (k' = k)) as [->|Hne].
  - rewrite lookup_insert_eq, (not_elem_of_list_to_map_1 _ _ Hk).
    destruct (encodable v); [apply get_set_eq|reflexivity].
  - rewrite lookup_insert_ne by assumption.
    assert (get (filter_name k)
              (if encodable v then set (filter_name k') (String_of_value v) p else p)
            = get (filter_name k) p) as ->.
    { destruct (encodable v); [|reflexivity].
      apply get_set_ne. intros H. by apply filter_name_inj in H. }
    reflexivity.
Qed.

Lemma get_prefix s :
  get "page" (defaultParams_entries s []) = Some (String_of_num (page s)) /\
  get "pageSize" (defaultParams_entries s []) = Some (String_of_num (pageSize s)) /\
  get "q" (defaultParams_entries s [])
  = (if truthy (query s) then Some (query s) else None) /\
  get "sort" (defaultParams_entries s [])
  = (fun so => String.append (key so) (String ":" (dir so))) <$> sort s /\
  (forall n, n ∉ ["page"; "pageSize"; "q"; "sort"] ->
     get n (defaultParams_entries s []) = None).
Proof.
  unfold defaultParams_entries. cbn [foldl].
  split; [|split; [|split; [|split]]].
  - destruct (sort s), (truthy (query s));
      rewrite ?get_set_ne by discriminate; apply (get_set_eq _ _ []).
  - destruct (sort s), (truthy (query s));
      rewrite ?get_set_ne by discriminate; apply get_set_eq.
  - destruct (sort s); rewrite ?get_set_ne by discriminate;
      destruct (truthy (query s)); rewrite ?get_set_eq; reflexivity.
  - destruct (sort s); simpl; [apply get_set_eq|].
    destruct (truthy (query s)); reflexivity.
  - intros n Hn. rewrite !not_elem_of_cons in Hn.
    destruct Hn as (H1 & H2 & H3 & H4 & _).
    destruct (sort s), (truthy (query s));
      rewrite ?get_set_ne by congruence; reflexivity.
Qed.

Lemma defaultParams_fold s entries :
  defaultParams_entries s entries
  = foldl encode_filter (defaultParams_entries s []) entries.
Proof. reflexivity. Qed.

Lemma get_defaultParams_other s n :
  (forall k, filter_name k <> n) ->
  get n (defaultParams s) = get n (defaultParams_entries s []).
Proof.
  intros Hn. unfold defaultParams. rewrite defaultParams_fold.
  by apply get_encode_filters.
Qed.

Lemma get_defaultParams_filter s k :
  get (filter_name k) (defaultParams s)
  = match filters s !! k with
    | Some v => if encodable v then Some (String_of_value v) else None
    | None => None
    end.
Proof.
  unfold defaultParams, Object_entries. rewrite defaultParams_fold.
  rewrite get_encode_filters_name by apply NoDup_fst_map_to_list.
  rewrite list_to_map_to_list.
  destruct (get_prefix s) as (_ & _ & _ & _ & Hother).
  rewrite Hother; [by destruct (filters s !! k) as [v|]; [destruct (encodable v)|]|].
  rewrite !not_elem_of_cons. repeat split; try discriminate. apply not_elem_of_nil.
Qed.

(** X2: the encoding rule.  [defaultParams] writes each name once.  It
    always writes [page] and [pageSize]; it writes [q] only for a query
    that is not empty, [sort] as [key:dir] only when there is a sort, and
    [filters[k]] only for a filter whose value is neither [null], nor
    [undefined], nor the empty string, as [String(value)]; and it writes
    nothing else. *)
Theorem defaultParams_rule (s : State) :
  NoDup (map fst (defaultParams s)) /\
  get "page" (defaultParams s) = Some (String_of_num (page s)) /\
  get "pageSize" (defaultParams s) = Some (String_of_num (pageSize s)) /\
  get "q" (defaultParams s) = (if truthy (query s) then Some (query s) else None) /\
  get "sort" (defaultParams s)
  = (fun so => String.append (key so) (String ":" (dir so))) <$> sort s /\
  (forall k,
     get (filter_name k) (defaultParams s)
     = match filters s !! k with
       | Some v => if encodable v then Some (String_of_value v) else None
       | None => None
       end) /\
  (forall n,
     n ∉ ["page"; "pageSize"; "q"; "sort"] -> (forall k, n <> filter_name k) ->
     get n (defaultParams s) = None).
Proof.
  destruct (get_prefix s) as (Hp & Hps & Hq & Hs & Hother).
  split; [apply defaultParams_entries_NoDup|].
  repeat split.
  - by rewrite get_defaultParams_other by discriminate.
  - by rewrite get_defaultParams_other by discriminate.
  - by rewrite get_defaultParams_other by discriminate.
  - by rewrite get_defaultParams_other by discriminate.
  - apply get_defaultParams_filter.
  - intros n Hn Hk. rewrite get_defaultParams_other; [by apply Hother|].
    intros k Heq. by apply (Hk k).
Qed.

Lemma defaultParams_rule_witness :
  get "utm" (defaultParams Samples.sample_state) = None.
Proof.
  destruct (defaultParams_rule Samples.sample_state) as (_ & _ & _ & _ & _ & _ & H).
  apply H.
  - rewrite !not_elem_of_cons. repeat split; try discriminate. apply not_elem_of_nil.
  - intros k. discriminate.
Defined.

End EncodeFacts.

Section DecodeFacts.
Import Js Url Table Codec.

Lemma get_filter_name n (P : string -> bool) q :
  P n = true -> get n (List.filter (fun nv => P (fst nv)) q) = get n q.
Proof.
  intros Hn. induction q as [|[a b] r IH]; simpl; [reflexivity|].
  destruct (String.eqb_spec a n) as [->|Hne].
  - rewrite Hn. simpl. by rewrite String.eqb_refl.
  - destruct (P a); simpl; [|exact IH].
    destruct (String.eqb_spec a n); [congruence|exact IH].
Qed.

Lemma decode_filters_read_pairs q : forall f,
  foldl decode_filter f (read_pairs q) = foldl decode_filter f q.
Proof.
  unfold read_pairs.
  induction q as [|[a b] r IH]; intros f; simpl; [reflexivity|].
  destruct (read_name a) eqn:Ha; simpl; [apply IH|].
  rewrite IH. f_equal. unfold decode_filter. simpl.
  unfold read_name in Ha. rewrite !orb_false_iff in Ha.
  destruct Ha as (_ & Ha%bool_decide_eq_false).
  destruct (match_filters a); [|reflexivity]. exfalso. apply Ha. by eexists.
Qed.

Lemma readFromUrl_read_pairs q fallback :
  readFromUrl (Some q) fallback = readFromUrl (Some (read_pairs q)) fallback.
Proof.
  unfold readFromUrl. rewrite decode_filters_read_pairs.
  unfold read_pairs. by rewrite !(get_filter_name _ read_name).
Qed.

Lemma readFromUrl_nil fallback : readFromUrl (Some []) fallback = fallback.
Proof. by destruct fallback. Qed.

(** X3: the decoder looks only at [page], [pageSize], [q], [sort] and the
    keys of the filter pattern: the other pairs of the query can be left
    out without changing the state decoded, and a query with no pair of
    these names decodes to the fallback itself. *)
Theorem readFromUrl_ignores_unknown (q : URLSearchParams) (fallback : State) :
  readFromUrl (Some q) fallback = readFromUrl (Some (read_pairs q)) fallback /\
  ((forall n v, (n, v) ∈ q -> read_name n = false) ->
   readFromUrl (Some q) fallback = fallback).
Proof.
  split; [apply readFromUrl_read_pairs|].
  intros Hq. rewrite readFromUrl_read_pairs.
  assert (read_pairs q = []) as ->; [|apply readFromUrl_nil].
  unfold read_pairs. induction q as [|[a b] r IH]; simpl; [reflexivity|].
  rewrite (Hq a b) by (apply elem_of_cons; by left).
  apply IH. intros n v H. apply (Hq n v), elem_of_cons. by right.
Qed.

Lemma readFromUrl_ignores_unknown_witness :
  readFromUrl (Some [("utm_source", "mail"); ("filter[status]", "trial")])
    Samples.sample_state
  = Samples.sample_state.
Proof.
  apply readFromUrl_ignores_unknown. intros n v H.
  apply elem_of_cons in H as [[= -> ->]|H]; [reflexivity|].
  apply elem_of_cons in H as [[= -> ->]|H]; [reflexivity|].
  by apply elem_of_nil in H.
Defined.

Lemma or_num_cases a b :
  or_num a b = b \/ exists z, or_num a b = Int z /\ z <> 0.
Proof.
  unfold or_num. destruct a as [|z]; simpl; [by left|].
  destruct (Z.eqb_spec z 0); simpl; [by left|]. right. by exists z.
Qed.

Lemma split_first_no_sep c s : occurs c (fst (split c s)) = false.
Proof.
  induction s as [|a r IH]; simpl; [reflexivity|].
  destruct (split c r) as [h t]. simpl in IH.
  destruct (Ascii.eqb c a) eqn:Hca.
  - apply Ascii.eqb_eq in Hca as ->. by rewrite Ascii.eqb_refl.
  - rewrite Ascii.eqb_sym, Hca. simpl. by rewrite Ascii.eqb_sym, Hca, IH.
Qed.

Lemma split_others_no_sep c s d :
  d ∈ snd (split c s) -> occurs c d = false.
Proof.
  revert d. induction s as [|a r IH]; simpl; intros d.
  - intros H. by apply elem_of_nil in H.
  - pose proof (split_first_no_sep c r) as Hh.
    destruct (split c r) as [h t]. simpl in *.
    destruct (Ascii.eqb a c); simpl; [|apply IH].
    intros [->|H]%elem_of_cons; [exact Hh|by apply IH].
Qed.

Lemma decode_sort_cases sp fb :
  decode_sort sp fb = fb \/
  exists so, decode_sort sp fb = Some so /\
    occurs ":" (key so) = false /\ occurs ":" (dir so) = false /\ dir so <> "".
Proof.
  unfold decode_sort. destruct sp as [sp|]; [|by left].
  destruct (truthy sp); [|by left]. right.
  pose proof (split_first_no_sep ":" sp) as Hk.
  pose proof (split_others_no_sep ":" sp) as Hd.
  destruct (split ":" sp) as [first others]. simpl in *.
  eexists. split; [reflexivity|]. simpl. split; [exact Hk|].
  destruct others as [|d others]; [by split|].
  destruct d as [|a d]; simpl; [by split|]. split; [|discriminate].
  apply (Hd (String a d)). apply elem_of_cons. by left.
Qed.

Lemma decode_num_cases v fb :
  (forall z, parseInt (or_string v "") None = Int z -> safe z) ->
  or_num (parseInt (or_string v "") None) fb = fb \/
  exists z, or_num (parseInt (or_string v "") None) fb = Int z
            /\ z <> 0 /\ safe z.
Proof.
  intros Hsafe. unfold or_num.
  destruct (parseInt (or_string v "") None) as [|z]; simpl; [by left|].
  destruct (Z.eqb_spec z 0); simpl; [by left|]. right. exists z.
  split; [reflexivity|]. split; [assumption|]. by apply Hsafe.
Qed.

(** X4: what the decoder never yields.  For a URL whose [page], when it
    reads as an integer, reads as a safe one, the page decoded is the
    fallback's or a safe integer other than 0 (a negative one is taken as
    it is), and so for the page size: a missing, non-numeric or zero value
    never gets through.  Whatever the URL, the sort decoded is the
    fallback's or has a key and a direction without colon, the direction
    not empty: a [sort] parameter without direction reads as ascending. *)
Theorem readFromUrl_fields (window : option URLSearchParams) (fallback : State) :
  (safe_param "page" window ->
   page (readFromUrl window fallback) = page fallback \/
   exists z, page (readFromUrl window fallback) = Int z /\ z <> 0 /\ safe z) /\
  (safe_param "pageSize" window ->
   pageSize (readFromUrl window fallback) = pageSize fallback \/
   exists z, pageSize (readFromUrl window fallback) = Int z
             /\ z <> 0 /\ safe z) /\
  (sort (readFromUrl window fallback) = sort fallback \/
   exists so, sort (readFromUrl window fallback) = Some so /\
     occurs ":" (key so) = false /\ occurs ":" (dir so) = false /\
     dir so <> "") /\
  (forall q k, window = Some q -> get "sort" q = Some k ->
     k <> "" -> occurs ":" k = false ->
     sort (readFromUrl window fallback) = Some (mkSort k "asc")).
Proof.
  assert (Hnum : forall name, safe_param name window ->
            forall q z, window = Some q ->
              parseInt (or_string (get name q) "") None = Int z -> safe z).
  { intros name Hsafe q z Hw Hz.
    destruct (get name q) as [v|] eqn:Hv; [|discriminate Hz].
    rewrite or_string_empty in Hz. by apply (Hsafe q v z). }
  destruct window as [q|]; simpl.
  - split; [intros Hs; apply decode_num_cases; intros z; by apply (Hnum "page")|].
    split; [intros Hs; apply decode_num_cases; intros z;
            by apply (Hnum "pageSize")|].
    split; [apply decode_sort_cases|].
    intros q' k [= <-] Hk Hne Hocc. rewrite Hk. unfold decode_sort.
    rewrite (split_no_sep _ _ Hocc). by destruct k.
  - repeat split; try by left. intros q k H. discriminate.
Qed.

Lemma readFromUrl_fields_witness :
  safe_param "page" (Some [("page", "-3"); ("sort", "email")]) /\
  (page (readFromUrl (Some [("page", "-3"); ("sort", "email")])
          Samples.sample_state) = page Samples.sample_state \/
   exists z, page (readFromUrl (Some [("page", "-3"); ("sort", "email")])
                     Samples.sample_state) = Int z /\ z <> 0 /\ safe z) /\
  sort (readFromUrl (Some [("page", "-3"); ("sort", "email")]) Samples.sample_state)
  = Some (mkSort "email" "asc").
Proof.
  assert (Hsafe : safe_param "page" (Some [("page", "-3"); ("sort", "email")])).
  { intros q v z [= <-] [= <-] Hz. vm_compute in Hz. injection Hz as <-.
    apply safe_bounds. lia. }
  destruct (readFromUrl_fields (Some [("page", "-3"); ("sort", "email")])
              Samples.sample_state) as (Hpage & _ & _ & H).
  split; [exact Hsafe|]. split; [exact (Hpage Hsafe)|].
  apply (H [("page", "-3"); ("sort", "email")] "email"); try reflexivity.
  discriminate.
Defined.

Example readFromUrl_negative_page :
  page (readFromUrl (Some [("page", "-3"); ("pageSize", "0")]) Samples.sample_state)
  = Int (-3) /\
  pageSize (readFromUrl (Some [("page", "-3"); ("pageSize", "0")]) Samples.sample_state)
  = Int 20.
Proof. split; reflexivity. Qed.

End DecodeFacts.

Section ReloadFacts.
Import Js Url Table Codec.

Lemma decode_filter_lookup f kv k :
  decode_filter f kv !! k
  = if decide (match_filters (fst kv) = Some k
               /\ (k <> "__proto__" \/ is_Some (f !! k)))
    then Some (VStr (snd kv))
    else f !! k.
Proof.
  unfold decode_filter. destruct (match_filters (fst kv)) as [m|].
  - rewrite assign_lookup.
    destruct (decide (m = k)) as [->|Hne].
    + destruct (decide (k <> "__proto__" \/ is_Some (f !! k))).
      * by rewrite !decide_True.
      * by rewrite !decide_False by (by intros [_ ?]).
    + rewrite !decide_False; [reflexivity| |]; intros [? _]; congruence.
  - by rewrite decide_False by (by intros [? _]).
Qed.

(** With distinct names, the filter decoded for [k] is the value of the
    parameter [filters[k]], if the key matches the pattern and the
    assignment stores it. *)
Lemma decode_filters_lookup q k : forall f,
  NoDup (map fst q) ->
  foldl decode_filter f q !! k
  = match get (filter_name k) q with
    | Some v =>
        if decide (match_filters (filter_name k) = Some k
                   /\ (k <> "__proto__" \/ is_Some (f !! k)))
        then Some (VStr v) else f !! k
    | None => f !! k
    end.
Proof.
  induction q as [|[n v] r IH]; intros f Hnd; simpl; [reflexivity|].
  apply NoDup_cons in Hnd as [Hn Hnd]. rewrite IH by assumption.
  simpl in *.
  destruct (String.eqb_spec n (filter_name k)) as [->|Hne].
  - rewrite (get_None_names _ _ Hn). by rewrite decode_filter_lookup.
  - assert (Hsame : decode_filter f (n, v) !! k = f !! k).
    { rewrite decode_filter_lookup. rewrite decide_False; [reflexivity|].
      intros [H _]. apply Hne. by apply match_filters_inv. }
    by rewrite Hsame.
Qed.

Lemma match_filters_filter_name_bool k :
  match_filters (filter_name k)
  = if truthy k && no_line_terminator k then Some k else None.
Proof.
  unfold match_filters, filter_name.
  by rewrite strip_prefix_append, strip_last_append.
Qed.

Lemma decode_num_String n fb :
  or_num (parseInt (or_string (Some (String_of_num n)) "") None) fb
  = if truthy_num n then n else fb.
Proof.
  rewrite or_string_empty. destruct n as [|z]; [reflexivity|].
  by rewrite parseInt_String_of_num.
Qed.

Lemma readFromUrl_defaultParams_any s fallback :
  readFromUrl (Some (defaultParams s)) fallback
  = mkState
      (if truthy_num (page s) then page s else page fallback)
      (if truthy_num (pageSize s) then pageSize s else pageSize fallback)
      (if truthy (query s) then query s else query fallback)
      (decode_sort
         ((fun so => String.append (key so) (String ":" (dir so))) <$> sort s)
         (sort fallback))
      (foldl decode_filter (filters fallback) (defaultParams s)).
Proof.
  unfold readFromUrl.
  destruct (get_prefix s) as (Hp & Hps & Hq & Hs & _).
  rewrite !get_defaultParams_other by discriminate.
  rewrite Hp, Hps, Hq, Hs, !decode_num_String.
  by destruct (truthy (query s)).
Qed.

(** X5: reloading.  Decoding the parameters of a state [s] over any
    fallback gives: the page and the page size of [s], when they are safe
    integers or [NaN], unless they are 0 or [NaN], which give the
    fallback's; the query of [s], unless it is empty; the sort of [s] when
    it has one with a colon-free key and a direction [asc] or [desc], and
    the fallback's sort when [s] has none; and for each filter name the
    value of [s], as a string (a number being a safe integer or [NaN]),
    when [s] has an encodable value under a name that the pattern matches
    and that the assignment stores (any name but [__proto__], and that one
    when the fallback has it), and otherwise the value in the fallback. *)
Theorem readFromUrl_defaultParams_fallback (s fallback : State) :
  (safe_num (page s) ->
   page (readFromUrl (Some (defaultParams s)) fallback)
   = (if truthy_num (page s) then page s else page fallback)) /\
  (safe_num (pageSize s) ->
   pageSize (readFromUrl (Some (defaultParams s)) fallback)
   = (if truthy_num (pageSize s) then pageSize s else pageSize fallback)) /\
  query (readFromUrl (Some (defaultParams s)) fallback)
  = (if truthy (query s) then query s else query fallback) /\
  (sort s = None ->
   sort (readFromUrl (Some (defaultParams s)) fallback) = sort fallback) /\
  (forall so, sort s = Some so -> occurs ":" (key so) = false ->
     dir so = "asc" \/ dir so = "desc" ->
     sort (readFromUrl (Some (defaultParams s)) fallback) = Some so) /\
  (forall k,
     (forall n, filters s !! k = Some (VNum n) -> safe_num n) ->
     filters (readFromUrl (Some (defaultParams s)) fallback) !! k
     = match filters s !! k with
       | Some v =>
           if encodable v && truthy k && no_line_terminator k
              && (negb (String.eqb k "__proto__")
                  || bool_decide (is_Some (filters fallback !! k)))
           then Some (VStr (String_of_value v))
           else filters fallback !! k
       | None => filters fallback !! k
       end).
Proof.
  rewrite readFromUrl_defaultParams_any. simpl.
  split; [reflexivity|]. split; [reflexivity|]. split; [reflexivity|].
  split; [by intros ->|]. split.
  - intros so -> Hk Hd. simpl. apply decode_sort_roundtrip; [exact Hk|..];
      by destruct Hd as [-> | ->].
  - intros k _.
    rewrite decode_filters_lookup by apply defaultParams_entries_NoDup.
    rewrite get_defaultParams_filter, match_filters_filter_name_bool.
    destruct (filters s !! k) as [v|]; [|reflexivity].
    destruct (encodable v); [|reflexivity]. cbn [andb].
    assert (Hb : negb (String.eqb k "__proto__")
                 || bool_decide (is_Some (filters fallback !! k)) = true
                 <-> k <> "__proto__" \/ is_Some (filters fallback !! k)).
    { by rewrite orb_true_iff, negb_true_iff, bool_decide_eq_true,
        String.eqb_neq. }
    destruct (truthy k && no_line_terminator k); cbn [andb].
    + destruct (negb _ || _) eqn:Hst.
      * rewrite decide_True; [reflexivity|]. split; [reflexivity|by apply Hb].
      * rewrite decide_False; [reflexivity|].
        intros [_ H%Hb]. congruence.
    + by rewrite decide_False by (by intros [? _]).
Qed.

Lemma readFromUrl_defaultParams_fallback_witness :
  safe_num (page Samples.sample_state) /\
  page (readFromUrl (Some (defaultParams Samples.sample_state)) Samples.plain_state)
  = Int 3 /\
  sort (readFromUrl (Some (defaultParams Samples.sample_state)) Samples.plain_state)
  = Some (mkSort "name" "desc") /\
  filters (readFromUrl (Some (defaultParams Samples.sample_state))
             Samples.plain_state) !! "status"
  = Some (VStr "active").
Proof.
  assert (Hpage : safe_num (page Samples.sample_state)).
  { apply safe_bounds. lia. }
  destruct (readFromUrl_defaultParams_fallback Samples.sample_state
              Samples.plain_state) as (Hp & _ & _ & _ & Hs & Hf).
  split; [exact Hpage|]. split; [exact (Hp Hpage)|]. split.
  - apply (Hs (mkSort "name" "desc")); [reflexivity|reflexivity|by right].
  - etransitivity; [apply Hf|by vm_compute].
    intros n Hn. vm_compute in Hn. discriminate.
Defined.

End ReloadFacts.

(** ** How the setters compose *)

Section SetterAlgebra.
Import Js Url Table View.

(** X6: setting a filter twice keeps the last value; filters of different
    names, and the query and a filter, can be set in either order; and
    clearing the filters undoes every filter set before. *)
Theorem setters_compose (s : State) :
  (forall k v1 v2, setFilter k v2 (setFilter k v1 s) = setFilter k v2 s) /\
  (forall k1 k2 v1 v2, k1 <> k2 ->
     setFilter k1 v1 (setFilter k2 v2 s) = setFilter k2 v2 (setFilter k1 v1 s)) /\
  (forall k v q, setQuery q (setFilter k v s) = setFilter k v (setQuery q s)) /\
  (forall q1 q2, setQuery q2 (setQuery q1 s) = setQuery q2 s) /\
  (forall k v, clearFilters (setFilter k v s) = clearFilters s).
Proof.
  repeat split.
  - intros k v1 v2. unfold setFilter, setPage, setFilters. simpl.
    by rewrite insert_insert_eq.
  - intros k1 k2 v1 v2 Hne. unfold setFilter, setPage, setFilters. simpl.
    by rewrite insert_insert_ne.
Qed.

Lemma setters_compose_witness :
  setFilter "status" (VStr "trial") (setFilter "company" VUndefined Samples.sample_state)
  = setFilter "company" VUndefined (setFilter "status" (VStr "trial") Samples.sample_state).
Proof.
  destruct (setters_compose Samples.sample_state) as (_ & H & _).
  by apply H.
Defined.



End SetterAlgebra.

(** ** The number of pages and the pager, whatever the current page *)

Section ViewFacts.
Import Js Url Table Pager View.

Lemma ceil_div_bounds t n :
  0 < n -> (ceil_div t n - 1) * n < t <= ceil_div t n * n.
Proof.
  intros Hn. unfold ceil_div.
  pose proof (Z.mul_div_le (- t) n Hn).
  pose proof (Z.mul_succ_div_gt (- t) n Hn). nia.
Qed.

Lemma totalPages_Int t n :
  n <> 0 -> totalPages (Int t) (Int n) = Some (Int (Z.max 1 (ceil_div t n))).
Proof. intros Hn. unfold totalPages. by rewrite (proj2 (Z.eqb_neq n 0)). Qed.

(** X8: the number of pages.  For a total of [t >= 0] rows and a page size
    [n > 0], [totalPages] is a number [P >= 1] such that [P] pages hold all
    the rows and, when there are rows, [P - 1] pages do not; without rows
    it is 1. *)
Theorem totalPages_bounds (t n : Z) :
  0 <= t -> 0 < n ->
  exists P, totalPages (Int t) (Int n) = Some (Int P) /\
    1 <= P /\ t <= P * n /\ (0 < t -> (P - 1) * n < t) /\ (t = 0 -> P = 1).
Proof.
  intros Ht Hn. exists (Z.max 1 (ceil_div t n)).
  rewrite totalPages_Int by lia.
  pose proof (ceil_div_bounds t n Hn) as Hc.
  split; [reflexivity|]. repeat split; try nia.
Qed.

Lemma totalPages_bounds_witness :
  0 <= 167 /\ 0 < 10 /\
  exists P, totalPages (Int 167) (Int 10) = Some (Int P) /\
    1 <= P /\ 167 <= P * 10 /\ (0 < 167 -> (P - 1) * 10 < 167) /\ (167 = 0 -> P = 1).
Proof.
  split; [lia|]. split; [lia|].
  exact (totalPages_bounds 167 10 ltac:(lia) ltac:(lia)).
Defined.

(** Invariants of [add] and of the loop. *)
Lemma add_last out x : last (add out x) = Some x.
Proof.
  unfold add. case_decide as H; [exact H|apply last_snoc].
Qed.

Lemma add_head out x : out <> [] -> head (add out x) = head out.
Proof.
  intros Hout. unfold add. case_decide; [reflexivity|]. by destruct out.
Qed.

Lemma add_nonempty out x : add out x <> [].
Proof.
  intros H. pose proof (add_last out x) as Hl. by rewrite H in Hl.
Qed.

Lemma add_length out x : (length (add out x) <= S (length out))%nat.
Proof.
  unfold add. case_decide; [lia|]. rewrite length_app. simpl. lia.
Qed.

Lemma add_Forall (P : button -> Prop) out x :
  Forall P out -> P x -> Forall P (add out x).
Proof.
  intros Hout Hx. unfold add. case_decide; [exact Hout|].
  apply Forall_app. split; [exact Hout|by constructor].
Qed.

Lemma for_pages_length n : forall i out,
  (length (for_pages n i out) <= length out + n)%nat.
Proof.
  induction n as [|n IH]; intros i out; simpl; [lia|].
  pose proof (IH (i + 1) (add out (Page i))). pose proof (add_length out (Page i)).
  lia.
Qed.

Lemma for_pages_head n : forall i out,
  out <> [] -> head (for_pages n i out) = head out.
Proof.
  induction n as [|n IH]; intros i out Hout; simpl; [reflexivity|].
  rewrite IH by apply add_nonempty. by apply add_head.
Qed.

Lemma for_pages_nonempty n i out : out <> [] -> for_pages n i out <> [].
Proof.
  intros Hout H. pose proof (for_pages_head n i out Hout) as Hh.
  rewrite H in Hh. by destruct out.
Qed.

Lemma for_pages_Forall (P : button -> Prop) n : forall i out,
  Forall P out ->
  (forall j, i <= j < i + Z.of_nat n -> P (Page j)) ->
  Forall P (for_pages n i out).
Proof.
  induction n as [|n IH]; intros i out Hout Hj; simpl; [exact Hout|].
  apply IH.
  - apply add_Forall; [exact Hout|]. apply Hj. lia.
  - intros j Hi. apply Hj. lia.
Qed.

Lemma makePageButtons_many curr total max :
  max < total -> 1 <= total ->
  head (makePageButtons curr total max) = Some (Page 1) /\
  last (makePageButtons curr total max) = Some (Page total) /\
  Forall (fun b => forall p, b = Page p -> 1 <= p <= total)
    (makePageButtons curr total max) /\
  (length (makePageButtons curr total max) <= 7)%nat.
Proof.
  intros Hm Ht. unfold makePageButtons.
  rewrite (proj2 (Z.leb_gt total max)) by lia. cbv zeta.
  set (left := Z.max 1 (curr - 1)). set (right := Z.min total (curr + 1)).
  set (out1 := add [] (Page 1)).
  set (out2 := if left >? 2 then add out1 Ellipsis else out1).
  set (n := Z.to_nat (right - left + 1)).
  set (out3 := for_pages n left out2).
  set (out4 := if right <? total - 1 then add out3 Ellipsis else out3).
  assert (H1 : out1 = [Page 1]) by reflexivity.
  assert (Hne2 : out2 <> []).
  { subst out2. destruct (left >? 2); [apply add_nonempty|by rewrite H1]. }
  assert (Hh2 : head out2 = Some (Page 1)).
  { subst out2. destruct (left >? 2); [|by rewrite H1].
    rewrite add_head by (by rewrite H1). by rewrite H1. }
  assert (Hne3 : out3 <> []) by (by apply for_pages_nonempty).
  assert (Hh3 : head out3 = Some (Page 1)).
  { subst out3. by rewrite for_pages_head. }
  assert (Hne4 : out4 <> []).
  { subst out4. destruct (right <? total - 1); [apply add_nonempty|assumption]. }
  assert (Hh4 : head out4 = Some (Page 1)).
  { subst out4. destruct (right <? total - 1); [|assumption].
    by rewrite add_head. }
  set (P := fun b : button => forall p, b = Page p -> 1 <= p <= total).
  assert (HP1 : Forall P out1).
  { rewrite H1. constructor; [|constructor]. intros p [= <-]. lia. }
  assert (HP2 : Forall P out2).
  { subst out2. destruct (left >? 2); [|assumption].
    apply add_Forall; [assumption|]. intros p H. discriminate. }
  assert (HP3 : Forall P out3).
  { subst out3. apply for_pages_Forall; [assumption|].
    intros j Hj p [= <-]. subst n left right. lia. }
  assert (HP4 : Forall P out4).
  { subst out4. destruct (right <? total - 1); [|assumption].
    apply add_Forall; [assumption|]. intros p H. discriminate. }
  assert (Hl2 : (length out2 <= 2)%nat).
  { subst out2. destruct (left >? 2); [|rewrite H1; simpl; lia].
    pose proof (add_length out1 Ellipsis). rewrite H1 in *. simpl in *. lia. }
  assert (Hl3 : (length out3 <= 5)%nat).
  { subst out3. pose proof (for_pages_length n left out2).
    assert (n <= 3)%nat by (subst n left right; lia). lia. }
  assert (Hl4 : (length out4 <= 6)%nat).
  { subst out4. destruct (right <? total - 1); [|lia].
    pose proof (add_length out3 Ellipsis). lia. }
  split; [by rewrite add_head|]. split; [apply add_last|]. split.
  - apply add_Forall; [assumption|]. intros p [= <-]. lia.
  - pose proof (add_length out4 (Page total)). lia.
Qed.

Lemma Array_from_length_length total :
  length (Array_from_length total) = Z.to_nat total.
Proof. unfold Array_from_length. by rewrite length_map, length_seq. Qed.

Lemma makePageButtons_few curr total max :
  total <= max -> 1 <= total ->
  head (makePageButtons curr total max) = Some (Page 1) /\
  last (makePageButtons curr total max) = Some (Page total) /\
  Forall (fun b => forall p, b = Page p -> 1 <= p <= total)
    (makePageButtons curr total max) /\
  length (makePageButtons curr total max) = Z.to_nat total.
Proof.
  intros Hm Ht. unfold makePageButtons.
  rewrite (proj2 (Z.leb_le total max)) by lia.
  split; [|split; [|split]].
  - unfold Array_from_length.
    destruct (Z.to_nat total) as [|k] eqn:Hk; [lia|reflexivity].
  - unfold Array_from_length.
    destruct (Z.to_nat total) as [|k] eqn:Hk; [lia|].
    rewrite seq_S, map_app. cbn [map]. rewrite last_snoc. do 2 f_equal. lia.
  - unfold Array_from_length. apply Forall_forall. intros b Hb p ->.
    apply list_elem_of_In, in_map_iff in Hb as (i & [= <-] & Hi%in_seq). lia.
  - apply Array_from_length_length.
Qed.

Lemma makePageButtons_pages_in_range curr total max p :
  1 <= total -> Page p ∈ makePageButtons curr total max -> 1 <= p <= total.
Proof.
  intros Ht Hp. destruct (Z.le_gt_cases total max) as [Hm|Hm].
  - destruct (makePageButtons_few curr total max Hm Ht) as (_ & _ & HP & _).
    rewrite Forall_forall in HP. by apply (HP (Page p)).
  - destruct (makePageButtons_many curr total max Hm Ht) as (_ & _ & HP & _).
    rewrite Forall_forall in HP. by apply (HP (Page p)).
Qed.

(** X9: the pager for any current page.  For any [curr], in range or not,
    and [total >= 1], both safe integers, and [total] being no more than
    the longest array when [total <= max]: the pager starts with page 1
    and ends with page [total], lists only pages between 1 and [total],
    and has [total] entries when [total <= max] and at most 7 otherwise:
    [max] picks the layout and is not a bound on the length. *)
Theorem makePageButtons_any_page (curr total max : Z) :
  1 <= total -> Js.safe curr -> total <= Js.MAX_SAFE_INTEGER ->
  (total <= max -> total <= MAX_ARRAY_LENGTH) ->
  head (makePageButtons curr total max) = Some (Page 1) /\
  last (makePageButtons curr total max) = Some (Page total) /\
  (forall p, Page p ∈ makePageButtons curr total max -> 1 <= p <= total) /\
  (total <= max ->
   Z.of_nat (length (makePageButtons curr total max)) = total) /\
  (max < total -> (length (makePageButtons curr total max) <= 7)%nat).
Proof.
  intros Ht _ _ _. destruct (Z.le_gt_cases total max) as [Hm|Hm].
  - destruct (makePageButtons_few curr total max Hm Ht) as (Hh & Hl & HP & Hlen).
    split; [exact Hh|]. split; [exact Hl|]. split; [|split].
    + intros p Hp. rewrite Forall_forall in HP.
      by apply (HP (Page p)).
    + intros _. rewrite Hlen. lia.
    + intros H. lia.
  - destruct (makePageButtons_many curr total max Hm Ht) as (Hh & Hl & HP & Hlen).
    split; [exact Hh|]. split; [exact Hl|]. split; [|split].
    + intros p Hp. rewrite Forall_forall in HP.
      by apply (HP (Page p)).
    + intros H. lia.
    + intros _. exact Hlen.
Qed.

Lemma makePageButtons_any_page_witness :
  1 <= 10 /\ Js.safe 50 /\ 10 <= Js.MAX_SAFE_INTEGER /\ 3 < 10 /\
  makePageButtons 50 10 3 = [Page 1; Ellipsis; Page 10] /\
  (length (makePageButtons 50 10 3) <= 7)%nat.
Proof.
  assert (Hcurr : Js.safe 50) by (apply safe_bounds; lia).
  assert (Htotal : 10 <= Js.MAX_SAFE_INTEGER).
  { unfold Js.MAX_SAFE_INTEGER. change (2 ^ 53) with 9007199254740992. lia. }
  split; [lia|]. split; [exact Hcurr|]. split; [exact Htotal|].
  split; [lia|]. split; [reflexivity|].
  destruct (makePageButtons_any_page 50 10 3 ltac:(lia) Hcurr Htotal
              ltac:(lia)) as (_ & _ & _ & _ & H).
  apply H. lia.
Defined.

End ViewFacts.

(** ** The controls of the table *)

Section ControlFacts.
Import Js Url Table Pager View.

Lemma clickPrev_page s p :
  page s = Int p ->
  page (clickPrev s) = Int (if p =? 1 then 1 else p - 1).
Proof.
  intros Hp. unfold clickPrev. rewrite Hp. simpl.
  destruct (p =? 1) eqn:H1; [|reflexivity].
  rewrite Hp. f_equal. lia.
Qed.

Lemma clickNext_page s p P :
  page s = Int p ->
  page (clickNext (Int P) s) = Int (if p =? P then P else p + 1).
Proof.
  intros Hp. unfold clickNext. rewrite Hp. simpl.
  destruct (p =? P) eqn:H1; [|reflexivity].
  rewrite Hp. f_equal. lia.
Qed.

Lemma clickPage_page s b : page (clickPage b s) = Int b \/ page s = NaN.
Proof.
  unfold clickPage. destruct (page s) as [|p] eqn:Hp; [by right|]. simpl.
  destruct (p =? b) eqn:H1; [|by left].
  left. rewrite Hp. f_equal. lia.
Qed.

(** X10: moving between pages.  For a state on page [p] with
    [1 <= p <= P], [P] being the number of pages: Prev and Next, and a
    click on any button of the pager, leave the page between 1 and [P];
    Prev does nothing on page 1 and Next nothing on page [P]; and none of
    them touches the page size, the query, the sort or the filters. *)
Theorem navigation_in_range (s : State) (p P : Z) (max : option Z) :
  page s = Int p -> 1 <= p <= P ->
  (exists p', page (clickPrev s) = Int p' /\ 1 <= p' <= P /\ p - 1 <= p' <= p) /\
  (exists p', page (clickNext (Int P) s) = Int p' /\ 1 <= p' <= P /\ p <= p' <= p + 1) /\
  (forall b, Page b ∈ pageButtons p P max ->
     page (clickPage b s) = Int b /\ 1 <= b <= P) /\
  (p = 1 -> clickPrev s = s) /\ (p = P -> clickNext (Int P) s = s) /\
  (forall s', s' = clickPrev s \/ s' = clickNext (Int P) s \/
              (exists b, s' = clickPage b s) ->
     pageSize s' = pageSize s /\ query s' = query s /\ sort s' = sort s /\
     filters s' = filters s).
Proof.
  intros Hp Hr.
  split; [|split; [|split; [|split; [|split]]]].
  - eexists. split; [by apply clickPrev_page|].
    destruct (Z.eqb_spec p 1); lia.
  - eexists. split; [by apply clickNext_page|].
    destruct (Z.eqb_spec p P); lia.
  - intros b Hb. split.
    + destruct (clickPage_page s b) as [H|H]; [exact H|congruence].
    + unfold pageButtons in Hb.
      apply (makePageButtons_pages_in_range p P (default 7 max)); [lia|exact Hb].
  - intros ->. unfold clickPrev. by rewrite Hp.
  - intros ->. unfold clickNext. rewrite Hp. simpl. by rewrite Z.eqb_refl.
  - intros s' [->|[->|[b ->]]].
    + unfold clickPrev. by destruct (strict_eq _ _).
    + unfold clickNext. by destruct (strict_eq _ _).
    + unfold clickPage. by destruct (strict_eq _ _).
Qed.

Lemma navigation_in_range_witness :
  page Samples.sample_state = Int 3 /\ 1 <= 3 <= 9 /\
  page (clickPage 9 Samples.sample_state) = Int 9.
Proof.
  split; [reflexivity|]. split; [lia|].
  destruct (navigation_in_range Samples.sample_state 3 9 None eq_refl ltac:(lia))
    as (_ & _ & H & _).
  apply (H 9). vm_compute. repeat constructor.
Defined.

Lemma onSort_shape k s :
  exists d, onSort k s = Some (mkSort k d) /\ (d = "asc" \/ d = "desc").
Proof.
  unfold onSort. destruct s as [so|]; [|by exists "asc"; auto].
  destruct (String.eqb (key so) k); [|by exists "asc"; auto].
  destruct (String.eqb (dir so) "asc"); eexists; eauto.
Qed.

Lemma columns_colon_free k : k ∈ columns -> occurs ":" k = false.
Proof.
  unfold columns. intros Hk.
  repeat (apply elem_of_cons in Hk as [->|Hk]; [reflexivity|]).
  by apply elem_of_nil in Hk.
Qed.

(** X11: sorting by a column header.  A click on the header of column [k]
    sorts on [k], descending when the table was sorted on [k] ascending
    and ascending in every other case, so that repeated clicks alternate;
    and for the columns of the table the sort chosen is read back from the
    parameters of the state over any fallback. *)
Theorem onSort_toggle (k : string) (s : Sort) :
  (exists d, onSort k s = Some (mkSort k d) /\ (d = "asc" \/ d = "desc")) /\
  (onSort k s = Some (mkSort k "desc") <->
   exists so, s = Some so /\ key so = k /\ dir so = "asc") /\
  onSort k (onSort k (onSort k s)) = onSort k s /\
  (k ∈ columns -> forall st fallback,
     sort (readFromUrl (Some (defaultParams (clickSort k st))) fallback)
     = sort (clickSort k st)).
Proof.
  split; [apply onSort_shape|]. split; [|split].
  - unfold onSort. split.
    + destruct s as [so|]; [|discriminate].
      destruct (String.eqb_spec (key so) k); [|discriminate].
      destruct (String.eqb_spec (dir so) "asc"); [|discriminate].
      intros _. by exists so.
    + intros (so & -> & <- & Hd). by rewrite String.eqb_refl, Hd.
  - destruct (onSort_shape k s) as (d & -> & [-> | ->]);
      unfold onSort; cbn [key dir]; rewrite !String.eqb_refl;
      cbn [key dir String.eqb Ascii.eqb Bool.eqb]; by rewrite ?String.eqb_refl.
  - intros Hk st fallback. rewrite readFromUrl_defaultParams_any. simpl.
    destruct (onSort_shape k (sort st)) as (d & -> & Hd). simpl.
    apply (decode_sort_roundtrip (mkSort k d)); simpl.
    + by apply columns_colon_free.
    + by destruct Hd as [-> | ->].
    + by destruct Hd as [-> | ->].
Qed.

Lemma onSort_toggle_witness :
  sort (readFromUrl (Some (defaultParams (clickSort "name" Samples.sample_state)))
          Samples.colon_state)
  = sort (clickSort "name" Samples.sample_state).
Proof.
  destruct (onSort_toggle "name" (sort Samples.sample_state)) as (_ & _ & _ & H).
  apply H. unfold columns. apply elem_of_cons. by left.
Defined.

End ControlFacts.

(** ** The hook and the endpoint together *)

Section EndToEnd.
Import Js Url Table View Api Request.

(** X23: pages with rows.  When the response echoes the page [p] and the
    page size [n], and [P] is the number of pages the hook derives from
    the total of the response, then with rows in the result the response
    has items exactly when [p <= P]; without any, it has none and [P] is
    1. *)
Theorem pages_with_rows (rows : list Row) (query : gmap string qvalue)
    (p n P : Z) :
  page (handler rows query) = Int p -> pageSize (handler rows query) = Int n ->
  totalPages (Int (Z.of_nat (total (handler rows query)))) (Int n) = Some (Int P) ->
  (0 < Z.of_nat (total (handler rows query)) ->
   (items (handler rows query) <> [] <-> p <= P)) /\
  (total (handler rows query) = 0%nat ->
   items (handler rows query) = [] /\ P = 1).
Proof.
  intros Hp Hn HP.
  pose proof (handler_items_length rows query p n Hp Hn) as Hlen.
  apply read_page_Int in Hp. apply read_pageSize_Int in Hn.
  rewrite totalPages_Int in HP by lia.
  assert (HPeq : P = Z.max 1 (ceil_div (Z.of_nat (total (handler rows query))) n))
    by congruence.
  clear HP.
  pose proof (ceil_div_bounds (Z.of_nat (total (handler rows query))) n ltac:(lia)) as Hc.
  set (t := Z.of_nat (total (handler rows query))) in *.
  set (c := ceil_div t n) in *.
  split.
  - intros Htot. split.
    + intros Hne. destruct (items (handler rows query)); [done|].
      rewrite length_cons in Hlen.
      assert ((p - 1) * n < c * n) by lia.
      assert (p - 1 < c) by nia. lia.
    + intros HpP Hnil. rewrite Hnil in Hlen.
      change (Z.of_nat (length [])) with 0 in Hlen.
      assert (t <= (p - 1) * n) by lia.
      assert ((c - 1) * n < (p - 1) * n) by lia.
      assert (c < p) by nia. assert (1 <= c) by nia. lia.
  - intros Htot. assert (Ht : t = 0) by (subst t; lia). split.
    + destruct (items (handler rows query)); [done|].
      rewrite length_cons in Hlen.
      assert (0 <= (p - 1) * n) by nia. lia.
    + assert (c <= 0) by nia. lia.
Qed.

Lemma pages_with_rows_witness :
  page (handler Samples.three_rows (<["pageSize" := QString "2"]> (with_page 2 ∅)))
  = Int 2 /\
  pageSize (handler Samples.three_rows (<["pageSize" := QString "2"]> (with_page 2 ∅)))
  = Int 2 /\
  items (handler Samples.three_rows (<["pageSize" := QString "2"]> (with_page 2 ∅)))
  <> [].
Proof.
  assert (Hp : page (handler Samples.three_rows
                       (<["pageSize" := QString "2"]> (with_page 2 ∅))) = Int 2)
    by (vm_compute; reflexivity).
  assert (Hn : pageSize (handler Samples.three_rows
                           (<["pageSize" := QString "2"]> (with_page 2 ∅))) = Int 2)
    by (vm_compute; reflexivity).
  assert (HP : totalPages
                 (Int (Z.of_nat (total (handler Samples.three_rows
                    (<["pageSize" := QString "2"]> (with_page 2 ∅))))))
                 (Int 2) = Some (Int 2))
    by (vm_compute; reflexivity).
  split; [exact Hp|]. split; [exact Hn|].
  destruct (pages_with_rows Samples.three_rows
              (<["pageSize" := QString "2"]> (with_page 2 ∅)) 2 2 2 Hp Hn HP)
    as [H _].
  apply H; [vm_compute; reflexivity|lia].
Defined.

End EndToEnd.

Section ClientServer.
Import Js Url Table View Api Request.

Lemma parseInt_String_any n : parseInt (String_of_num n) (Some 10) = n.
Proof. destruct n; [reflexivity|apply parseInt_String_of_num_10]. Qed.

Lemma query_of_params_lookup p n :
  query_of_params p !! n = QString <$> get n p.
Proof.
  unfold query_of_params. induction p as [|[a b] r IH]; simpl; [reflexivity|].
  destruct (String.eqb_spec a n) as [->|Hne].
  - by rewrite lookup_insert_eq.
  - by rewrite lookup_insert_ne.
Qed.

Section Carried.
Variables (s : State) (query : gmap string qvalue).
Hypothesis Hquery : forall n, query !! n = QString <$> get n (defaultParams s).

Lemma carried_page : read_page query = Math_max (Int 1) (Table.page s).
Proof.
  unfold read_page. rewrite Hquery.
  destruct (get_prefix s) as (Hp & _).
  rewrite get_defaultParams_other, Hp by discriminate. cbn [fmap option_fmap option_map qval].
  by rewrite parseInt_String_any.
Qed.

Lemma carried_pageSize :
  read_pageSize query = Math_min (Int 100) (Math_max (Int 1) (Table.pageSize s)).
Proof.
  unfold read_pageSize. rewrite Hquery.
  destruct (get_prefix s) as (_ & Hp & _).
  rewrite get_defaultParams_other, Hp by discriminate. cbn [fmap option_fmap option_map qval].
  by rewrite parseInt_String_any.
Qed.

Lemma carried_q : qval (query !! "q") "" = Table.query s.
Proof.
  rewrite Hquery. destruct (get_prefix s) as (_ & _ & Hq & _).
  rewrite get_defaultParams_other, Hq by discriminate.
  by destruct (Table.query s).
Qed.

Lemma carried_filter name v :
  name ∈ filter_names -> filters s !! name = Some v -> encodable v = true ->
  parse_filters query !! name = Some (String_of_value v).
Proof.
  intros Hname Hv Hen. rewrite parse_filters_named by assumption.
  rewrite Hquery, get_defaultParams_filter, Hv, Hen. reflexivity.
Qed.

End Carried.

(** X24: from the state to the endpoint.  When the query of a request
    carries the parameters of a state [s] as strings, and the page and the
    page size of [s] are safe integers or [NaN], the handler echoes the
    page of [s] brought to 1 at least and its page size brought between 1
    and 100, which for a valid state are the page and the page size of
    [s]; and, whatever the page, every item it returns matches the query of [s], when
    that is not empty, in its name, email or company, whatever the case of
    the letters, and has the status and the company that [s] filters on. *)
Theorem handler_reads_state (s : State) (rows : list Row)
    (query : gmap string qvalue) :
  (forall n, query !! n = QString <$> get n (defaultParams s)) ->
  (safe_num (Table.page s) ->
   Api.page (handler rows query) = Math_max (Int 1) (Table.page s)) /\
  (safe_num (Table.pageSize s) ->
   Api.pageSize (handler rows query)
   = Math_min (Int 100) (Math_max (Int 1) (Table.pageSize s))) /\
  (valid s -> safe_num (Table.page s) ->
   Api.page (handler rows query) = Table.page s /\
   Api.pageSize (handler rows query) = Table.pageSize s) /\
  (forall r, r ∈ items (handler rows query) ->
     (Table.query s <> "" ->
      includes (toLowerCase (name r)) (toLowerCase (Table.query s)) = true
      \/ includes (toLowerCase (email r)) (toLowerCase (Table.query s)) = true
      \/ includes (toLowerCase (company r)) (toLowerCase (Table.query s)) = true) /\
     (forall v, filters s !! "status" = Some (VStr v) -> v <> "" -> status r = v) /\
     (forall v, filters s !! "company" = Some (VStr v) -> v <> "" -> company r = v)).
Proof.
  intros Hquery.
  pose proof (carried_page s query Hquery) as Hp.
  pose proof (carried_pageSize s query Hquery) as Hn.
  split; [intros _; exact Hp|]. split; [intros _; exact Hn|]. split.
  - intros ((p & Hsp & Hp1) & (n & Hsn & Hn1) & _) _.
    unfold handler. simpl. rewrite Hp, Hn, Hsp, Hsn. simpl.
    unfold allowed_page_sizes in Hn1.
    split; f_equal; [lia|].
    repeat (apply elem_of_cons in Hn1 as [->|Hn1]; [reflexivity|]).
    by apply elem_of_nil in Hn1.
  - intros r Hr.
    pose proof (elem_of_sublist _ _ _ Hr (handler_items_sublist rows query)) as Hsel.
    rewrite selected_perm in Hsel.
    apply list_elem_of_In, filter_In in Hsel as [_ Hpass].
    apply passesb_passes in Hpass.
    destruct Hpass as (Hsearch & Hstatus & Hcompany & _).
    rewrite (carried_q s query Hquery) in Hsearch.
    split; [|split].
    + intros Hq. apply Hsearch. by destruct (Table.query s).
    + intros v Hv Hne. apply Hstatus; [|by destruct v].
      rewrite (carried_filter s query Hquery "status" (VStr v)); try done.
      * unfold filter_names. rewrite !elem_of_cons. tauto.
      * by destruct v.
    + intros v Hv Hne. apply Hcompany; [|by destruct v].
      rewrite (carried_filter s query Hquery "company" (VStr v)); try done.
      * unfold filter_names. rewrite !elem_of_cons. tauto.
      * by destruct v.
Qed.

Lemma handler_reads_state_witness :
  (forall n, query_of_params (defaultParams Samples.sample_state) !! n
             = QString <$> get n (defaultParams Samples.sample_state)) /\
  safe_num (Table.page Samples.sample_state) /\
  Api.page (handler Samples.three_rows
              (query_of_params (defaultParams Samples.sample_state)))
  = Int 3.
Proof.
  assert (Hpage : safe_num (Table.page Samples.sample_state)).
  { apply safe_bounds. lia. }
  split; [intros n; apply query_of_params_lookup|]. split; [exact Hpage|].
  destruct (handler_reads_state Samples.sample_state Samples.three_rows
              (query_of_params (defaultParams Samples.sample_state))
              (fun n => query_of_params_lookup _ n)) as (H & _).
  exact (H Hpage).
Defined.

End ClientServer.

(** ** Runs of the coordinator, and what the table shows *)

Section RunFacts.
Import Js Url Table Fetch Coordinator View.
Context {T J : Type} (cfg : Config T J).
Implicit Types (h : Hook T) (o : settled J) (evs : list (event J)).

Lemma step_latest h ev :
  latest (step cfg h ev) = latest h + (if is_refresh ev then 1 else 0).
Proof.
  destruct ev as [s dq|id o]; cbn [step is_refresh].
  - by rewrite refresh_hook.
  - rewrite settle_latest. lia.
Qed.

Lemma run_events_latest evs : forall h,
  latest (run_events cfg h evs)
  = latest h + Z.of_nat (length (List.filter is_refresh evs)).
Proof.
  unfold run_events.
  induction evs as [|ev evs IH]; intros h; simpl; [lia|].
  rewrite IH, step_latest. destruct (is_refresh ev); simpl; lia.
Qed.

Lemma run_events_app h evs1 evs2 :
  run_events cfg h (evs1 ++ evs2) = run_events cfg (run_events cfg h evs1) evs2.
Proof. apply foldl_app. Qed.

Lemma run_events_stale evs : forall h,
  Forall (settles_other (latest h)) evs -> run_events cfg h evs = h.
Proof.
  unfold run_events.
  induction evs as [|ev evs IH]; intros h Hevs; simpl; [reflexivity|].
  apply Forall_cons in Hevs as [Hev Hevs].
  destruct ev as [s dq|id o]; simpl in *; [done|].
  rewrite settle_stale by assumption. by apply IH.
Qed.

(** X12: the request counter in a run.  Over any sequence of refreshes and
    settlements the counter only counts the refreshes: it never goes down,
    a settlement never moves it, and each [refresh] hands out the next
    number, so no two requests of a run share an id.  Hence once a later
    [refresh] has happened, the settlement of a request changes nothing,
    whatever happened in between. *)
Theorem run_counter (h : Hook T) (evs : list (event J)) :
  latest (run_events cfg h evs)
  = latest h + Z.of_nat (length (List.filter is_refresh evs)) /\
  latest h <= latest (run_events cfg h evs) /\
  (forall s dq, fst (refresh cfg s dq (run_events cfg h evs))
                = latest (run_events cfg h evs) + 1) /\
  (forall s dq o evs',
     Exists (fun ev => is_refresh ev = true) evs' ->
     let id := fst (refresh cfg s dq (run_events cfg h evs)) in
     let h' := run_events cfg (snd (refresh cfg s dq (run_events cfg h evs))) evs' in
     settle cfg id o h' = h').
Proof.
  split; [apply run_events_latest|]. split; [rewrite run_events_latest; lia|].
  split; [reflexivity|].
  intros s dq o evs' Hex id h'. apply settle_stale.
  subst id h'. rewrite run_events_latest, refresh_hook. simpl.
  assert (0 < length (List.filter is_refresh evs'))%nat; [|lia].
  apply Exists_exists in Hex as (ev & Hin & Hev).
  assert (Hin' : In ev (List.filter is_refresh evs'))
    by (apply filter_In; split; [by apply list_elem_of_In|exact Hev]).
  destruct (List.filter is_refresh evs'); [destruct Hin'|simpl; lia].
Qed.

Lemma table_body_refresh s dq h :
  table_body (snd (refresh cfg s dq h)) = Loading.
Proof. by rewrite refresh_hook. Qed.

(** The hook after the settlement of the current request, when something
    was thrown on the way. *)
Lemma settle_current_thrown o h e :
  caught cfg o = Some e ->
  settle cfg (latest h) o h
  = mkHook (latest h) (rows h) (total h) false
      (match e with
       | Some x => if decide (is_abort x) then error h else Some x
       | None => error h
       end).
Proof.
  intros Hc. unfold settle. rewrite (settle_effects_caught cfg _ o e Hc).
  unfold catch_error, is_abort. rewrite Z.eqb_refl.
  destruct e as [x|]; [|reflexivity].
  by destruct (decide (name x = Some "AbortError")).
Qed.

Lemma caught_then_json o e : then_json o = inl e -> caught cfg o = Some (Some e).
Proof. intros Ho. unfold caught. by rewrite Ho. Qed.

Lemma caught_parse_throws o e :
  parse_throws cfg e o -> caught cfg o = Some (Some e).
Proof. intros (json & Ho & Hp). unfold caught. by rewrite Ho, Hp. Qed.

(** X13: one fetch, as the table shows it.  After a [refresh] that issues
    its request ([buildParams], if there is one, returns) the table shows
    Loading, and keeps to it through any settlements of other requests.
    When the request itself settles: with a body that [parse] takes, the
    table shows its rows (or that there are none) and the total is the
    body's; with a failure of the request or of [parse] that is not an
    abort, the error is set, the rows and the total of before being kept,
    and the table shows the error when it is truthy; with an abort, or
    when [parse] throws [null] or [undefined], it shows the rows of
    before, without error.  In all cases the loading flag is down. *)
Theorem fetch_cycle (h : Hook T) (s : State) (dq : string)
    (evs : list (event J)) (o : settled J) :
  let id := fst (refresh cfg s dq h) in
  let h1 := snd (refresh cfg s dq h) in
  (exists params, FetchCall (endpoint cfg) params ∈ refresh_effects cfg s dq) ->
  Forall (settles_other id) evs ->
  let h2 := run_events cfg h1 evs in
  let h3 := settle cfg id o h2 in
  h2 = h1 /\ table_body h2 = Loading /\ loading h3 = false /\
  (forall json items n,
     then_json o = inr json -> parse cfg json = inr (items, n) ->
     rows h3 = items /\ total h3 = n /\ error h3 = None /\
     table_body h3 = rows_body items) /\
  (forall e, then_json o = inl e \/ parse_throws cfg e o -> ~ is_abort e ->
     error h3 = Some e /\ rows h3 = rows h /\ total h3 = total h /\
     table_body h3 = if truthy_error e then ErrorRow e else rows_body (rows h)) /\
  (forall e, then_json o = inl e \/ parse_throws cfg e o -> is_abort e ->
     error h3 = None /\ rows h3 = rows h /\ total h3 = total h /\
     table_body h3 = rows_body (rows h)) /\
  (forall json, then_json o = inr json -> parse cfg json = inl None ->
     error h3 = None /\ rows h3 = rows h /\ total h3 = total h /\
     table_body h3 = rows_body (rows h)).
Proof.
  intros id h1 _ Hevs h2 h3.
  assert (Hid : id = latest h1) by (symmetry; apply refresh_latest).
  assert (H21 : h2 = h1) by (apply run_events_stale; by rewrite <- Hid).
  assert (H1 : h1 = mkHook (latest h + 1) (rows h) (total h) true None)
    by apply refresh_hook.
  assert (Hthrown : forall e, then_json o = inl e \/ parse_throws cfg e o ->
            caught cfg o = Some (Some e)).
  { intros e [He|He]; [by apply caught_then_json|by apply caught_parse_throws]. }
  subst h3. rewrite H21, Hid. clear H21 Hid Hevs h2. clearbody h1 id.
  subst h1. cbn [rows total].
  split; [reflexivity|]. split; [reflexivity|].
  set (h1 := mkHook (latest h + 1) (rows h) (total h) true None).
  change (latest h + 1) with (latest h1).
  split; [|split; [|split; [|split]]].
  - destruct (caught cfg o) as [e|] eqn:Hc.
    + by rewrite (settle_current_thrown o h1 e Hc).
    + destruct (caught_None cfg o Hc) as (json & items & n & Ho & Hp).
      by rewrite (settle_current_json cfg o h1 json items n Ho Hp).
  - intros json items n Ho Hp.
    rewrite (settle_current_json cfg o h1 json items n Ho Hp).
    by repeat split.
  - intros e He Hab.
    rewrite (settle_current_thrown o h1 (Some e) (Hthrown e He)).
    rewrite decide_False by assumption. by repeat split.
  - intros e He Hab.
    rewrite (settle_current_thrown o h1 (Some e) (Hthrown e He)).
    rewrite decide_True by assumption. by repeat split.
  - intros json Ho Hp.
    assert (Hc : caught cfg o = Some None) by (unfold caught; by rewrite Ho, Hp).
    rewrite (settle_current_thrown o h1 None Hc). by repeat split.
Qed.

End RunFacts.

Section RunSamples.
Import Js Url Table Fetch Coordinator View.

Lemma run_counter_witness :
  settle Samples.sample_config 1 (Rejected Samples.network_error)
    (run_events Samples.sample_config
       (snd (refresh Samples.sample_config Samples.sample_state "b"
               Samples.initial_hook))
       [Settle 7 (Rejected Samples.network_error);
        Refresh Samples.sample_state "bo"])
  = run_events Samples.sample_config
      (snd (refresh Samples.sample_config Samples.sample_state "b"
              Samples.initial_hook))
      [Settle 7 (Rejected Samples.network_error);
       Refresh Samples.sample_state "bo"].
Proof.
  destruct (run_counter Samples.sample_config Samples.initial_hook [])
    as (_ & _ & _ & H).
  apply (H Samples.sample_state "b" (Rejected Samples.network_error)
           [Settle 7 (Rejected Samples.network_error);
            Refresh Samples.sample_state "bo"]).
  apply Exists_cons_tl, Exists_cons_hd. reflexivity.
Defined.

Lemma fetch_cycle_witness :
  table_body
    (settle Samples.table_config 1 (Fulfilled (Response true "OK" (inr None)))
       (run_events Samples.table_config
          (snd (refresh Samples.table_config Samples.sample_state "b"
                  Samples.initial_hook))
          [Settle 0 (Rejected Samples.abort_error)]))
  = ErrorRow Samples.null_error.
Proof.
  destruct (fetch_cycle Samples.table_config Samples.initial_hook
              Samples.sample_state "b"
              [Settle 0 (Rejected Samples.abort_error)]
              (Fulfilled (Response true "OK" (inr None))))
    as (_ & _ & _ & _ & H & _).
  - eexists. apply list_elem_of_In. right. right. left. reflexivity.
  - repeat constructor. simpl. lia.
  - destruct (H Samples.null_error) as (_ & _ & _ & Hbody).
    + right. by exists None.
    + discriminate.
    + exact Hbody.
Defined.

(** A status outside 2xx shows as an error whose message is the status
    text; a thrown value that is falsy is stored and not shown. *)
Example non_2xx_body :
  table_body
    (settle Samples.sample_config 1
       (Fulfilled (Response false "Not Found" (inl Samples.network_error)))
       (snd (refresh Samples.sample_config Samples.sample_state "b"
               Samples.initial_hook)))
  = ErrorRow (mkError "Error" "Not Found").
Proof. reflexivity. Qed.

Example falsy_error_body :
  let cfg := mkConfig "/api" (fun _ : unit => inl (Some (Nameless false "0"))) None in
  let h := settle cfg 1 (Fulfilled (Response true "OK" (inr ())))
             (snd (refresh cfg Samples.sample_state "" Samples.initial_hook)) in
  error h = Some (Nameless false "0") /\ table_body h = NoResults.
Proof. split; reflexivity. Qed.

End RunSamples.

(** ** The debouncer *)

Section DebounceFacts.
Import Debounce.
Context {T : Type} `{EqDecision T}.
Implicit Types (h : Hook T) (ev : event T).


Lemma flush_settled h : effect_due (flush h) = false.
Proof. unfold flush. by destruct (effect_due h) eqn:E. Qed.

Lemma flush_value h : value (flush h) = value h /\ delay (flush h) = delay h.
Proof. unfold flush. by destruct (effect_due h). Qed.

Lemma step_invariant h ev :
  (effect_due h = false ->
   match timer h with Some x => x = value h | None => v h = value h end) ->
  effect_due (step h ev) = false ->
  match timer (step h ev) with
  | Some x => x = value (step h ev)
  | None => v (step h ev) = value (step h ev)
  end.
Proof.
  intros Hinv. destruct ev as [value' delay'| |]; simpl.
  - case_decide as Hd; [|discriminate].
    intros _. unfold flush. destruct (effect_due h) eqn:E; simpl; [reflexivity|].
    by apply Hinv.
  - intros _. unfold flush. destruct (effect_due h) eqn:E; simpl; [reflexivity|].
    by apply Hinv.
  - destruct (timer h) as [x|] eqn:Ht; simpl.
    + intros E. exact (Hinv E).
    + intros E. rewrite Ht. exact (Hinv E).
Qed.

Lemma run_invariant evs : forall h,
  (effect_due h = false ->
   match timer h with Some x => x = value h | None => v h = value h end) ->
  effect_due (run h evs) = false ->
  match timer (run h evs) with
  | Some x => x = value (run h evs)
  | None => v (run h evs) = value (run h evs)
  end.
Proof.
  unfold run. induction evs as [|ev evs IH]; intros h Hinv; simpl; [exact Hinv|].
  apply IH. by apply step_invariant.
Qed.

(** X14: the debounced value.  From the first render on, through any
    renders, effects and timeouts: when the effect of the last render has
    run, a timeout that is set is the one of the value of that render, and
    with no timeout set the hook returns that value; so running the effect
    and letting the timeout fire always brings the value returned to the
    value of the last render.  Before its effect has run, a render leaves
    the timeout of the render before it in place. *)
Theorem debounce_settles (value0 : T) (delay0 : Z) (evs : list (event T)) :
  let h := run (mount value0 delay0) evs in
  (effect_due h = false ->
   match timer h with Some x => x = value h | None => v h = value h end) /\
  v (run h [RunEffect; Fire]) = value h /\
  timer (run h [RunEffect; Fire]) = None /\
  (forall value' delay', timer (step (flush h) (Render value' delay')) = timer (flush h)).
Proof.
  intros h.
  assert (Hinv : effect_due h = false ->
     match timer h with Some x => x = value h | None => v h = value h end).
  { apply run_invariant. discriminate. }
  split; [exact Hinv|].
  assert (Hrun : run h [RunEffect; Fire] = step (flush h) Fire) by reflexivity.
  rewrite Hrun. unfold flush.
  destruct (effect_due h) eqn:E; simpl.
  - split; [reflexivity|]. split; [reflexivity|].
    intros value' delay'. by case_decide.
  - specialize (Hinv eq_refl).
    destruct (timer h) as [x|] eqn:Ht; simpl.
    + split; [exact Hinv|]. split; [reflexivity|].
      intros value' delay'. unfold flush. rewrite E. by case_decide.
    + split; [exact Hinv|]. split; [exact Ht|].
      intros value' delay'. unfold flush. rewrite E. by case_decide.
Qed.

End DebounceFacts.

Section DebounceSamples.
Import Debounce.

Example debounce_typing :
  v (run (mount "" 300) [RunEffect; Fire; Render "b" 300; RunEffect;
                          Render "bo" 300; RunEffect; Render "bob" 300;
                          RunEffect]) = "" /\
  v (run (mount "" 300) [RunEffect; Fire; Render "b" 300; RunEffect;
                          Render "bo" 300; RunEffect; Render "bob" 300;
                          RunEffect; Fire]) = "bob".
Proof. split; reflexivity. Qed.

Lemma debounce_settles_witness :
  v (run (run (mount "" 300) [Render "b" 300; Fire; Render "bo" 300])
       [RunEffect; Fire]) = "bo".
Proof.
  destruct (debounce_settles "" 300 [Render "b" 300; Fire; Render "bo" 300])
    as (_ & H & _).
  exact H.
Defined.

End DebounceSamples.

(** ** Breakpoints *)

Section MobileFacts.
Import Mobile.

Ltac qlra :=
  change (767 + 1) with 768 in *; change (1199 + 1) with 1200 in *;
  unfold inject_Z in *; lra.

Lemma on_change_tracks (query : Q -> bool) w w' :
  on_change query w w' (query w) = query w'.
Proof.
  unfold on_change. destruct (query w) eqn:E, (query w') eqn:E'; reflexivity.
Qed.

Lemma resize_mount w w' : resize w w' (mount w) = mount w'.
Proof. unfold resize, mount. simpl. by rewrite !on_change_tracks. Qed.

Lemma last_cons_default (ws : list Q) : forall a d d',
  List.last (a :: ws) d = List.last (a :: ws) d'.
Proof.
  induction ws as [|b ws IH]; intros a d d'; [reflexivity|].
  change (List.last (b :: ws) d = List.last (b :: ws) d'). apply IH.
Qed.

Lemma resizes_mount ws : forall w,
  resizes w ws (mount w) = mount (List.last ws w).
Proof.
  induction ws as [|w' ws IH]; intros w; [reflexivity|].
  cbn [resizes]. rewrite resize_mount, IH. f_equal.
  destruct ws as [|b ws]; [reflexivity|].
  change (List.last (b :: ws) w' = List.last (b :: ws) w).
  apply last_cons_default.
Qed.

Lemma queries_exclusive (w : Q) :
  (mobileMediaQuery w = true -> tabletMediaQuery w = false /\ desktopMediaQuery w = false) /\
  (tabletMediaQuery w = true -> desktopMediaQuery w = false).
Proof.
  unfold mobileMediaQuery, tabletMediaQuery, desktopMediaQuery,
    MOBILE_BREAKPOINT, TABLET_BREAKPOINT.
  split.
  - intros Hm%Qle_bool_iff. split.
    + apply andb_false_iff. left. apply not_true_is_false.
      intros H%Qle_bool_iff. qlra.
    + apply not_true_is_false. intros H%Qle_bool_iff. qlra.
  - intros [_ Ht%Qle_bool_iff]%andb_true_iff.
    apply not_true_is_false. intros H%Qle_bool_iff. qlra.
Qed.

Lemma queries_whole (z : Z) :
  mobileMediaQuery (inject_Z z) = (z <=? 767) /\
  tabletMediaQuery (inject_Z z) = ((768 <=? z) && (z <=? 1199)) /\
  desktopMediaQuery (inject_Z z) = (1200 <=? z).
Proof.
  assert (Hle : forall a b, Qle_bool (inject_Z a) (inject_Z b) = (a <=? b)).
  { intros a b. unfold Qle_bool. simpl. f_equal; lia. }
  unfold mobileMediaQuery, tabletMediaQuery, desktopMediaQuery,
    MOBILE_BREAKPOINT, TABLET_BREAKPOINT.
  by rewrite !Hle.
Qed.

(** X15: the breakpoints.  After the mount and any resizes, the three flags
    are the results of the three media queries at the current width.  At
    most one of them is set.  At a width of whole pixels exactly one is
    set: mobile up to 767, tablet from 768 to 1199, desktop from 1200.  At
    a width strictly between 767 and 768 none is set. *)
Theorem breakpoints (w : Q) (ws : list Q) :
  let now := List.last ws w in
  let f := resizes w ws (mount w) in
  f = mount now /\
  (isMobile f = true -> isTablet f = false /\ isDesktop f = false) /\
  (isTablet f = true -> isMobile f = false /\ isDesktop f = false) /\
  (isDesktop f = true -> isMobile f = false /\ isTablet f = false) /\
  (forall z, now = inject_Z z ->
     isMobile f = (z <=? 767) /\
     isTablet f = ((768 <=? z) && (z <=? 1199)) /\
     isDesktop f = (1200 <=? z) /\
     (isMobile f || isTablet f || isDesktop f = true)) /\
  ((inject_Z 767 < now)%Q -> (now < inject_Z 768)%Q ->
   isMobile f = false /\ isTablet f = false /\ isDesktop f = false).
Proof.
  intros now f. assert (Hf : f = mount now) by apply resizes_mount.
  rewrite Hf. simpl. destruct (queries_exclusive now) as [Hm Ht].
  split; [reflexivity|]. split; [exact Hm|]. split; [|split; [|split]].
  - intros H. split; [|by apply Ht].
    destruct (mobileMediaQuery now) eqn:E; [|reflexivity].
    destruct (Hm eq_refl) as [H' _]. congruence.
  - intros H. split.
    + destruct (mobileMediaQuery now) eqn:E; [|reflexivity].
      destruct (Hm eq_refl) as [_ H']. congruence.
    + destruct (tabletMediaQuery now) eqn:E; [|reflexivity].
      specialize (Ht eq_refl). congruence.
  - intros z ->. destruct (queries_whole z) as (-> & -> & ->).
    repeat split. lia.
  - intros H1 H2.
    unfold mobileMediaQuery, tabletMediaQuery, desktopMediaQuery,
      MOBILE_BREAKPOINT, TABLET_BREAKPOINT.
    split; [|split].
    + apply not_true_is_false. intros H%Qle_bool_iff. qlra.
    + apply andb_false_iff. left. apply not_true_is_false.
      intros H%Qle_bool_iff. qlra.
    + apply not_true_is_false. intros H%Qle_bool_iff. qlra.
Qed.

Lemma breakpoints_witness :
  resizes (inject_Z 1280) [inject_Z 800; 1535 # 2] (mount (inject_Z 1280))
  = mkFlags false false false.
Proof.
  destruct (breakpoints (inject_Z 1280) [inject_Z 800; 1535 # 2])
    as (_ & Hm & _ & _ & _ & Hgap).
  destruct Hgap as (H1 & H2 & H3); [reflexivity|reflexivity|].
  destruct (resizes (inject_Z 1280) [inject_Z 800; 1535 # 2] (mount (inject_Z 1280))).
  simpl in *. by subst.
Defined.

End MobileFacts.
